(** * Bricks & Balls: the game engine of [src/lib/gameEngine.ts]

    A shallow embedding of the [GameEngine] class and of the records of
    [src/types/game.ts], followed by the properties of the engine that the
    specification states.

    Numbers.  Every TypeScript [number] that holds a coordinate, a size or a
    velocity is a value of an abstract carrier [N] with the operations the
    engine uses (the class [Number] below).  The engine is written once over
    that interface and instantiated twice: with binary64 floats, which is what
    the program computes with, and with the real numbers, the exact
    arithmetic that the floats approximate.  What is said of the program is
    said of the binary64 instance, or of every instance; the real instance
    shows what the formulas of the engine compute when nothing is rounded.  Counters
    ([score], [lives], [level], the point value of a block) and the pixel size
    of the canvas (an [unsigned long] of the DOM) only ever hold integers and
    are values of [Z]. *)

From Stdlib Require Import ZArith List String Bool Lia Reals Lra DecimalString.
From Stdlib Require Floats.PrimFloat Floats.FloatAxioms Floats.SpecFloat Numbers.Cyclic.Int63.Uint63.
From stdpp Require Import base list gmap.
Import ListNotations.

Local Open Scope Z_scope.

(** ** The arithmetic of a JavaScript [number] *)

Class Number (N : Type) : Type := {
  ofZ : Z -> N;                      (* an integer literal *)
  add : N -> N -> N;
  sub : N -> N -> N;
  mul : N -> N -> N;
  div : N -> N -> N;
  neg : N -> N;                      (* unary minus *)
  Math_abs : N -> N;
  Math_sqrt : N -> N;
  Math_min : N -> N -> N;
  Math_max : N -> N -> N;
  lt : N -> N -> bool;               (* a < b *)
  le : N -> N -> bool                (* a <= b *)
}.

Declare Scope num_scope.
Delimit Scope num_scope with num.
Infix "+" := add : num_scope.
Infix "-" := sub : num_scope.
Infix "*" := mul : num_scope.
Infix "/" := div : num_scope.
Notation "- a" := (neg a) : num_scope.
Notation "a <? b" := (lt a b) : num_scope.
Notation "a <=? b" := (le a b) : num_scope.
Notation "a >? b" := (lt b a) : num_scope.
Notation "a >=? b" := (le b a) : num_scope.

(** ** The records of [src/types/game.ts] *)

Section Types.
Context {N : Type}.

Record Position := mkPosition { pos_x : N; pos_y : N }.

Record Velocity := mkVelocity { vel_x : N; vel_y : N }.

Record Ball := mkBall {
  ball_position : Position;
  ball_velocity : Velocity;
  ball_radius : N;
  ball_color : string
}.

Record Paddle := mkPaddle {
  paddle_position : Position;
  paddle_width : N;
  paddle_height : N;
  paddle_speed : N;
  paddle_color : string
}.

Record Block := mkBlock {
  block_position : Position;
  block_width : N;
  block_height : N;
  block_color : string;
  destroyed : bool;
  points : Z
}.

Record GameState := mkGameState {
  isRunning : bool;
  isPaused : bool;
  score : Z;
  lives : Z;
  level : Z;
  ball : Ball;
  paddle : Paddle;
  blocks : list Block
}.

Record Controls := mkControls {
  leftPressed : bool;
  rightPressed : bool;
  touchX : option N                (* [touchX?: number]; [None] is [undefined] *)
}.

Record GameConfig := mkGameConfig {
  canvasWidth : Z;
  canvasHeight : Z;
  ballSpeed : N;
  paddleSpeed : N;
  maxLives : Z
}.

(** The structural type [{ position; width; height }] that [isColliding]
    takes for its second argument; a paddle and a block both have it. *)
Record Rect := mkRect { rect_position : Position; rect_width : N; rect_height : N }.

Definition paddle_rect (p : Paddle) : Rect :=
  mkRect (paddle_position p) (paddle_width p) (paddle_height p).

Definition block_rect (b : Block) : Rect :=
  mkRect (block_position b) (block_width b) (block_height b).

(** The canvas element: only its pixel size is read by the engine. *)
Record Canvas := mkCanvas { canvas_width : Z; canvas_height : Z }.

(** The private fields of [GameEngine] that the simulation reads or writes.
    The drawing context, the listener list, [animationId], [lastTime] and
    [touchStartY] are left out: no method reads them to compute the game
    state. *)
Record Engine := mkEngine {
  canvas : Canvas;
  config : GameConfig;
  gameState : GameState;
  controls : Controls
}.

(** Assignments to one field. *)
Definition set_isRunning (v : bool) (g : GameState) : GameState :=
  mkGameState v (isPaused g) (score g) (lives g) (level g) (ball g) (paddle g) (blocks g).
Definition set_isPaused (v : bool) (g : GameState) : GameState :=
  mkGameState (isRunning g) v (score g) (lives g) (level g) (ball g) (paddle g) (blocks g).
Definition set_score (v : Z) (g : GameState) : GameState :=
  mkGameState (isRunning g) (isPaused g) v (lives g) (level g) (ball g) (paddle g) (blocks g).
Definition set_lives (v : Z) (g : GameState) : GameState :=
  mkGameState (isRunning g) (isPaused g) (score g) v (level g) (ball g) (paddle g) (blocks g).
Definition set_level (v : Z) (g : GameState) : GameState :=
  mkGameState (isRunning g) (isPaused g) (score g) (lives g) v (ball g) (paddle g) (blocks g).
Definition set_ball (v : Ball) (g : GameState) : GameState :=
  mkGameState (isRunning g) (isPaused g) (score g) (lives g) (level g) v (paddle g) (blocks g).
Definition set_paddle (v : Paddle) (g : GameState) : GameState :=
  mkGameState (isRunning g) (isPaused g) (score g) (lives g) (level g) (ball g) v (blocks g).
Definition set_blocks (v : list Block) (g : GameState) : GameState :=
  mkGameState (isRunning g) (isPaused g) (score g) (lives g) (level g) (ball g) (paddle g) v.

Definition set_ball_position (p : Position) (b : Ball) : Ball :=
  mkBall p (ball_velocity b) (ball_radius b) (ball_color b).
Definition set_ball_velocity (v : Velocity) (b : Ball) : Ball :=
  mkBall (ball_position b) v (ball_radius b) (ball_color b).
Definition set_paddle_x (v : N) (p : Paddle) : Paddle :=
  mkPaddle (mkPosition v (pos_y (paddle_position p)))
           (paddle_width p) (paddle_height p) (paddle_speed p) (paddle_color p).
Definition set_destroyed (v : bool) (b : Block) : Block :=
  mkBlock (block_position b) (block_width b) (block_height b) (block_color b) v (points b).

Definition set_gameState (g : GameState) (e : Engine) : Engine :=
  mkEngine (canvas e) (config e) g (controls e).
Definition set_controls (c : Controls) (e : Engine) : Engine :=
  mkEngine (canvas e) (config e) (gameState e) c.
Definition set_config (c : GameConfig) (e : Engine) : Engine :=
  mkEngine (canvas e) c (gameState e) (controls e).
Definition set_canvas (c : Canvas) (e : Engine) : Engine :=
  mkEngine c (config e) (gameState e) (controls e).
End Types.

Arguments Position : clear implicits.
Arguments Velocity : clear implicits.
Arguments Ball : clear implicits.
Arguments Paddle : clear implicits.
Arguments Block : clear implicits.
Arguments GameState : clear implicits.
Arguments Controls : clear implicits.
Arguments GameConfig : clear implicits.
Arguments Rect : clear implicits.
Arguments Engine : clear implicits.

(** ** The engine: [src/lib/gameEngine.ts] *)

Section Engine.
Context {N : Type} `{Number N}.
Local Open Scope num_scope.

(** The object literal of [updateConfig]: the configuration for a canvas. *)
Definition configOf (c : Canvas) : GameConfig N :=
  {| canvasWidth := canvas_width c;
     canvasHeight := canvas_height c;
     ballSpeed := ofZ 6;
     paddleSpeed := ofZ 10;
     maxLives := 3 |}.

(** [updateConfig]: the configuration is read off the canvas. *)
Definition updateConfig (e : Engine N) : Engine N := set_config (configOf (canvas e)) e.

(** The integers [0, 1, ..., n-1] of a [for (let i = 0; i < n; i++)] loop;
    no iteration when [n <= 0]. *)
Definition loop_range (n : Z) : list Z := map Z.of_nat (seq 0 (Z.to_nat n)).

Definition colors : list string :=
  [ "#ff6b6b"; "#feca57"; "#48cae4"; "#06ffa5";
    "#ff9ff3"; "#f38ba8"; "#a6e3a1"; "#fab387" ]%string.

Definition blockWidth : Z := 80.
Definition blockHeight : Z := 25.
Definition padding : Z := 5.
Definition offsetTop : Z := 60.
Definition offsetLeft : Z := 35.

Definition block_rows (level : Z) : Z := Z.min (3 + level / 2) 8.
Definition block_cols (cfg : GameConfig N) : Z :=
  (canvasWidth cfg - 2 * offsetLeft) / (blockWidth + padding).

(** [generateBlocks]: [Math.floor] of a quotient of integers is [Z.div]
    (rounding towards minus infinity, the divisors being positive). *)
Definition generateBlocks (cfg : GameConfig N) (level : Z) : list (Block N) :=
  let rows := block_rows level in
  let cols := block_cols cfg in
  flat_map (fun r =>
    map (fun c =>
      {| block_position :=
           {| pos_x := ofZ (offsetLeft + c * (blockWidth + padding));
              pos_y := ofZ (offsetTop + r * (blockHeight + padding)) |};
         block_width := ofZ blockWidth;
         block_height := ofZ blockHeight;
         block_color := nth (Z.to_nat (r mod Z.of_nat (List.length colors))) colors ""%string;
         destroyed := false;
         points := ((rows - r) * 10)%Z |})
      (loop_range cols))
    (loop_range rows).

(** [initializeGame] *)
Definition initializeGame (cfg : GameConfig N) : GameState N :=
  let ballRadius := ofZ 8 in
  let paddleWidth := ofZ 100 in
  let paddleHeight := ofZ 15 in
  let paddleX := (ofZ (canvasWidth cfg) - paddleWidth) / ofZ 2 in
  let paddleY := ofZ (canvasHeight cfg) - paddleHeight - ofZ 20 in
  {| isRunning := false;
     isPaused := false;
     score := 0;
     lives := maxLives cfg;
     level := 1;
     ball :=
       {| ball_position :=
            {| pos_x := ofZ (canvasWidth cfg) / ofZ 2;
               pos_y := paddleY - ballRadius - ofZ 5 |};
          ball_velocity := {| vel_x := ofZ 3; vel_y := ofZ (-3) |};
          ball_radius := ballRadius;
          ball_color := "#ff6b6b" |};
     paddle :=
       {| paddle_position := {| pos_x := paddleX; pos_y := paddleY |};
          paddle_width := paddleWidth;
          paddle_height := paddleHeight;
          paddle_speed := paddleSpeed cfg;
          paddle_color := "#4ecdc4" |};
     blocks := generateBlocks cfg 1 |}.

(** The constructor: [updateConfig], the initial controls, [initializeGame]. *)
Definition newGameEngine (c : Canvas) : Engine N :=
  {| canvas := c;
     config := configOf c;
     gameState := initializeGame (configOf c);
     controls := {| leftPressed := false; rightPressed := false; touchX := None |} |}.

(** [updatePaddle] *)
Definition updatePaddle (e : Engine N) : Engine N :=
  let g := gameState e in
  let paddle := paddle g in
  let x0 := pos_x (paddle_position paddle) in
  let x1 :=
    match touchX (controls e) with
    | Some t => t - paddle_width paddle / ofZ 2
    | None =>
        let xl := if leftPressed (controls e) then x0 - paddle_speed paddle else x0 in
        if rightPressed (controls e) then xl + paddle_speed paddle else xl
    end in
  let x2 :=
    Math_max (ofZ 0) (Math_min (ofZ (canvasWidth (config e)) - paddle_width paddle) x1) in
  set_gameState (set_paddle (set_paddle_x x2 paddle) g) e.

(** [gameOver] *)
Definition gameOver (e : Engine N) : Engine N :=
  set_gameState (set_isRunning false (gameState e)) e.

(** [resetBall] *)
Definition resetBall (e : Engine N) : Engine N :=
  let g := gameState e in
  let paddleX := pos_x (paddle_position (paddle g)) in
  let paddleY := pos_y (paddle_position (paddle g)) in
  let b1 :=
    set_ball_position
      {| pos_x := paddleX + paddle_width (paddle g) / ofZ 2;
         pos_y := paddleY - ball_radius (ball g) - ofZ 5 |} (ball g) in
  let b2 := set_ball_velocity {| vel_x := ofZ 3; vel_y := ofZ (-3) |} b1 in
  set_gameState (set_ball b2 g) e.

(** [loseLife] *)
Definition loseLife (e : Engine N) : Engine N :=
  let e1 := set_gameState (set_lives (lives (gameState e) - 1)%Z (gameState e)) e in
  if (lives (gameState e1) >? 0)%Z then resetBall e1 else gameOver e1.

(** [updateBall] *)
Definition updateBall (e : Engine N) : Engine N :=
  let g := gameState e in
  let ball := ball g in
  let r := ball_radius ball in
  let w := ofZ (canvasWidth (config e)) in
  let h := ofZ (canvasHeight (config e)) in
  let px := pos_x (ball_position ball) + vel_x (ball_velocity ball) in
  let py := pos_y (ball_position ball) + vel_y (ball_velocity ball) in
  let vx := vel_x (ball_velocity ball) in
  let vy := vel_y (ball_velocity ball) in
  (* wall collisions *)
  let hitSide := (px <=? r) || (px >=? w - r) in
  let vx1 := if hitSide then - vx else vx in
  let px1 := if hitSide then Math_max r (Math_min (w - r) px) else px in
  let hitTop := py <=? r in
  let vy1 := if hitTop then - vy else vy in
  let py1 := if hitTop then r else py in
  let ball1 :=
    set_ball_velocity {| vel_x := vx1; vel_y := vy1 |}
      (set_ball_position {| pos_x := px1; pos_y := py1 |} ball) in
  let e1 := set_gameState (set_ball ball1 g) e in
  (* bottom boundary *)
  if py1 >=? h + r then loseLife e1 else e1.

(** [isColliding] *)
Definition isColliding (ball : Ball N) (rect : Rect N) : bool :=
  let distX :=
    Math_abs (pos_x (ball_position ball) - pos_x (rect_position rect)
              - rect_width rect / ofZ 2) in
  let distY :=
    Math_abs (pos_y (ball_position ball) - pos_y (rect_position rect)
              - rect_height rect / ofZ 2) in
  if distX >? rect_width rect / ofZ 2 + ball_radius ball then false
  else if distY >? rect_height rect / ofZ 2 + ball_radius ball then false
  else if distX <=? rect_width rect / ofZ 2 then true
  else if distY <=? rect_height rect / ofZ 2 then true
  else
    let dx := distX - rect_width rect / ofZ 2 in
    let dy := distY - rect_height rect / ofZ 2 in
    dx * dx + dy * dy <=? ball_radius ball * ball_radius ball.

(** The first half of [checkCollisions]: the paddle. *)
Definition paddleBounce (cfg : GameConfig N) (paddle : Paddle N) (ball : Ball N) : Ball N :=
  let vy1 := - Math_abs (vel_y (ball_velocity ball)) in
  let paddleCenter := pos_x (paddle_position paddle) + paddle_width paddle / ofZ 2 in
  let hitPos :=
    Math_max (ofZ (-1))
      (Math_min (ofZ 1)
         ((pos_x (ball_position ball) - paddleCenter) / (paddle_width paddle / ofZ 2))) in
  let vx1 := hitPos * ofZ 5 in
  let speed := Math_sqrt (vx1 * vx1 + vy1 * vy1) in
  let targetSpeed := ballSpeed cfg in
  let vx2 := (vx1 / speed) * targetSpeed in
  let vy2 := (vy1 / speed) * targetSpeed in
  set_ball_position
    {| pos_x := pos_x (ball_position ball);
       pos_y := pos_y (paddle_position paddle) - ball_radius ball - ofZ 2 |}
    (set_ball_velocity {| vel_x := vx2; vel_y := vy2 |} ball).

Definition checkCollisions_paddle (e : Engine N) : Engine N :=
  let g := gameState e in
  if isColliding (ball g) (paddle_rect (paddle g))
     && (vel_y (ball_velocity (ball g)) >? ofZ 0)
  then set_gameState (set_ball (paddleBounce (config e) (paddle g) (ball g)) g) e
  else e.

(** The body of the [if] inside the block loop, on the ball. *)
Definition blockBounce (block : Block N) (ball : Ball N) : Ball N :=
  let bx := pos_x (ball_position ball) in
  let by_ := pos_y (ball_position ball) in
  let vx := vel_x (ball_velocity ball) in
  let vy := vel_y (ball_velocity ball) in
  let ballPrevX := bx - vx in
  let ballPrevY := by_ - vy in
  let blockLeft := pos_x (block_position block) in
  let blockRight := pos_x (block_position block) + block_width block in
  let blockTop := pos_y (block_position block) in
  let blockBottom := pos_y (block_position block) + block_height block in
  let fromLeft := ballPrevX <? blockLeft in
  let fromRight := ballPrevX >? blockRight in
  let fromTop := ballPrevY <? blockTop in
  let fromBottom := ballPrevY >? blockBottom in
  if fromLeft || fromRight then
    mkBall
      {| pos_x := if fromLeft then blockLeft - ball_radius ball
                  else blockRight + ball_radius ball;
         pos_y := by_ |}
      {| vel_x := - vx; vel_y := vy |} (ball_radius ball) (ball_color ball)
  else if fromTop || fromBottom then
    mkBall
      {| pos_x := bx;
         pos_y := if fromTop then blockTop - ball_radius ball
                  else blockBottom + ball_radius ball |}
      {| vel_x := vx; vel_y := - vy |} (ball_radius ball) (ball_color ball)
  else
    mkBall (ball_position ball) {| vel_x := - vx; vel_y := - vy |}
           (ball_radius ball) (ball_color ball).

(** The block loop of [checkCollisions], from index [i] on: the recursion
    walks the array in stored order and stops ([break]) at the first block
    that is not destroyed and collides with the ball. *)
Fixpoint blockLoop (ball : Ball N) (score : Z) (blocks : list (Block N))
  : Ball N * Z * list (Block N) :=
  match blocks with
  | [] => (ball, score, [])
  | block :: rest =>
      if negb (destroyed block) && isColliding ball (block_rect block) then
        (blockBounce block ball, (score + points block)%Z,
         set_destroyed true block :: rest)
      else
        let '(ball', score', rest') := blockLoop ball score rest in
        (ball', score', block :: rest')
  end.

Definition checkCollisions_blocks (e : Engine N) : Engine N :=
  let g := gameState e in
  let '(ball', score', blocks') := blockLoop (ball g) (score g) (blocks g) in
  set_gameState (set_blocks blocks' (set_score score' (set_ball ball' g))) e.

(** [checkCollisions] *)
Definition checkCollisions (e : Engine N) : Engine N :=
  checkCollisions_blocks (checkCollisions_paddle e).

(** [checkGameOver] *)
Definition checkGameOver (e : Engine N) : Engine N :=
  if (lives (gameState e) <=? 0)%Z then gameOver e else e.

(** The literal [0.2]: the quotient of two exactly represented integers,
    which binary64 division rounds to the double nearest to 0.2. *)
Definition speedIncrease : N := ofZ 2 / ofZ 10.

(** [nextLevel]; [v ** 2] is the product [v * v]. *)
Definition nextLevel (e : Engine N) : Engine N :=
  let g := gameState e in
  let g1 := set_level (level g + 1)%Z g in
  let g2 := set_blocks (generateBlocks (config e) (level g1)) g1 in
  let e3 := resetBall (set_gameState g2 e) in
  let g3 := gameState e3 in
  let vx := vel_x (ball_velocity (ball g3)) in
  let vy := vel_y (ball_velocity (ball g3)) in
  let currentSpeed := Math_sqrt (vx * vx + vy * vy) in
  let newSpeed := currentSpeed + speedIncrease in
  let normalizedVel :=
    {| vel_x := (vx / currentSpeed) * newSpeed;
       vel_y := (vy / currentSpeed) * newSpeed |} in
  set_gameState (set_ball (set_ball_velocity normalizedVel (ball g3)) g3) e3.

(** [checkLevelComplete] *)
Definition checkLevelComplete (e : Engine N) : Engine N :=
  let remainingBlocks := List.filter (fun block => negb (destroyed block)) (blocks (gameState e)) in
  if (List.length remainingBlocks =? 0)%nat then nextLevel e else e.

(** [update]; [deltaTime] is a parameter that the body never reads. *)
Definition update (deltaTime : N) (e : Engine N) : Engine N :=
  if negb (isRunning (gameState e)) || isPaused (gameState e) then e
  else
    checkLevelComplete (checkGameOver (checkCollisions (updateBall (updatePaddle e)))).

(** [gameLoop]: [update], then [render], which draws and changes nothing,
    then the request for the next frame. *)
Definition gameLoop (deltaTime : N) (e : Engine N) : Engine N := update deltaTime e.

(** [start]: [lastTime] is set to the current time and [gameLoop] is called
    with that same time at once, so the first frame has [deltaTime = 0]. *)
Definition start (e : Engine N) : Engine N :=
  if negb (isRunning (gameState e)) then
    gameLoop (ofZ 0)
      (set_gameState (set_isPaused false (set_isRunning true (gameState e))) e)
  else e.

Definition pause (e : Engine N) : Engine N :=
  set_gameState (set_isPaused true (gameState e)) e.

Definition resume (e : Engine N) : Engine N :=
  set_gameState (set_isPaused false (gameState e)) e.

Definition reset (e : Engine N) : Engine N :=
  set_gameState (initializeGame (config e)) e.

(** [updateCanvasSize]; an object reference is always truthy, a number is
    truthy when it is not zero. *)
Definition updateCanvasSize (e : Engine N) : Engine N :=
  let e1 := updateConfig e in
  let g := gameState e1 in
  let w := ofZ (canvasWidth (config e1)) in
  let paddle1 :=
    set_paddle_x
      (Math_min (pos_x (paddle_position (paddle g))) (w - paddle_width (paddle g)))
      (paddle g) in
  let ball1 :=
    set_ball_position
      {| pos_x := Math_max (ball_radius (ball g))
                    (Math_min (w - ball_radius (ball g)) (pos_x (ball_position (ball g))));
         pos_y := pos_y (ball_position (ball g)) |} (ball g) in
  let g2 := set_ball ball1 (set_paddle paddle1 g) in
  let g3 :=
    if negb (level g2 =? 0)%Z then set_blocks (generateBlocks (config e1) (level g2)) g2
    else g2 in
  set_gameState g3 e1.
End Engine.


(** ** Input events and host calls: [setupEventListeners] and the public methods *)

Section Events.
Context {N : Type} `{Number N}.
Local Open Scope num_scope.

(** What a touch or mouse handler reads: [clientX] of the event and the
    [left] and [width] of [canvas.getBoundingClientRect()]. *)
Record Pointer := mkPointer { clientX : N; rect_left : N; rect_css_width : N }.

(** [(clientX - rect.left) * scaleX] with [scaleX = canvas.width / rect.width]. *)
Definition pointerX (e : Engine N) (p : Pointer) : N :=
  let scaleX := ofZ (canvas_width (canvas e)) / rect_css_width p in
  (clientX p - rect_left p) * scaleX.

Definition set_touchX (t : option N) (e : Engine N) : Engine N :=
  set_controls
    {| leftPressed := leftPressed (controls e);
       rightPressed := rightPressed (controls e);
       touchX := t |} e.

Definition set_leftPressed (v : bool) (e : Engine N) : Engine N :=
  set_controls
    {| leftPressed := v;
       rightPressed := rightPressed (controls e);
       touchX := touchX (controls e) |} e.

Definition set_rightPressed (v : bool) (e : Engine N) : Engine N :=
  set_controls
    {| leftPressed := leftPressed (controls e);
       rightPressed := v;
       touchX := touchX (controls e) |} e.

Definition keyDownHandler (code : string) (e : Engine N) : Engine N :=
  let e1 :=
    if (code =? "ArrowLeft")%string || (code =? "KeyA")%string
    then set_leftPressed true e else e in
  let e2 :=
    if (code =? "ArrowRight")%string || (code =? "KeyD")%string
    then set_rightPressed true e1 else e1 in
  if (code =? "Space")%string then
    if negb (isRunning (gameState e2)) then start e2
    else if isPaused (gameState e2) then resume e2
    else pause e2
  else e2.

Definition keyUpHandler (code : string) (e : Engine N) : Engine N :=
  let e1 :=
    if (code =? "ArrowLeft")%string || (code =? "KeyA")%string
    then set_leftPressed false e else e in
  if (code =? "ArrowRight")%string || (code =? "KeyD")%string
  then set_rightPressed false e1 else e1.

Definition touchStartHandler (p : Pointer) (e : Engine N) : Engine N :=
  let e1 := set_touchX (Some (pointerX e p)) e in
  if negb (isRunning (gameState e1)) then start e1 else e1.

(** [touches] is [None] when [e.touches.length] is 0, else its first touch. *)
Definition touchMoveHandler (touches : option Pointer) (e : Engine N) : Engine N :=
  match touches with
  | Some p => set_touchX (Some (pointerX e p)) e
  | None => e
  end.

Definition touchEndHandler (e : Engine N) : Engine N := set_touchX None e.

Definition mouseMoveHandler (p : Pointer) (e : Engine N) : Engine N :=
  set_touchX (Some (pointerX e p)) e.

Definition clickHandler (e : Engine N) : Engine N :=
  if negb (isRunning (gameState e)) then start e else e.

(** Everything that can happen to a constructed engine: a DOM event reaching
    one of its listeners, an animation frame, or a call of a public method by
    the host ([Game.tsx] sets the size of the canvas and then calls
    [updateCanvasSize]).  The browser delivers animation frames from the
    first [start] on, [gameOver] does not cancel them; the schedule itself is
    not tracked, a frame may arrive at any time, which covers every real
    schedule.  [getGameState] does not write to the engine and is treated
    with the object store further down. *)
Inductive Event :=
| KeyDown (code : string)
| KeyUp (code : string)
| TouchStart (p : Pointer)
| TouchMove (touches : option Pointer)
| TouchEnd
| MouseMove (p : Pointer)
| Click
| AnimationFrame (deltaTime : N)
| CallStart
| CallPause
| CallResume
| CallReset
| CallResize (width height : Z).

Definition handle (ev : Event) (e : Engine N) : Engine N :=
  match ev with
  | KeyDown code => keyDownHandler code e
  | KeyUp code => keyUpHandler code e
  | TouchStart p => touchStartHandler p e
  | TouchMove t => touchMoveHandler t e
  | TouchEnd => touchEndHandler e
  | MouseMove p => mouseMoveHandler p e
  | Click => clickHandler e
  | AnimationFrame dt => gameLoop dt e
  | CallStart => start e
  | CallPause => pause e
  | CallResume => resume e
  | CallReset => reset e
  | CallResize w h => updateCanvasSize (set_canvas (mkCanvas w h) e)
  end.

(** The engine after a sequence of events, oldest first. *)
Definition run (evs : list Event) (e : Engine N) : Engine N :=
  fold_left (fun e ev => handle ev e) evs e.

(** The states an engine built on some canvas can be in. *)
Inductive reachable : Engine N -> Prop :=
| reachable_new (c : Canvas) : reachable (newGameEngine c)
| reachable_step (ev : Event) (e : Engine N) : reachable e -> reachable (handle ev e).

(** The states in which [update] is entered: at an animation frame, or from
    [start], which sets the two flags and calls [gameLoop] itself. *)
Inductive frame_entry : Engine N -> Prop :=
| entry_frame (e : Engine N) : reachable e -> frame_entry e
| entry_start (e : Engine N) :
    reachable e -> isRunning (gameState e) = false ->
    frame_entry (set_gameState (set_isPaused false (set_isRunning true (gameState e))) e).
End Events.

Arguments Pointer : clear implicits.
Arguments Event : clear implicits.


(** ** Two carriers for [number] *)

(** *** binary64: what the program runs on *)

Abbreviation float := PrimFloat.float.

Definition float_ofZ (z : Z) : float :=
  if (z <? 0)%Z then PrimFloat.opp (PrimFloat.of_uint63 (Uint63.of_Z (- z)))
  else PrimFloat.of_uint63 (Uint63.of_Z z).

(** [Math.min] and [Math.max]: NaN if an argument is NaN, and -0 below +0. *)
Definition float_min (a b : float) : float :=
  if PrimFloat.is_nan a then a
  else if PrimFloat.is_nan b then b
  else if PrimFloat.ltb a b then a
  else if PrimFloat.ltb b a then b
  else if PrimFloat.get_sign a then a else b.

Definition float_max (a b : float) : float :=
  if PrimFloat.is_nan a then a
  else if PrimFloat.is_nan b then b
  else if PrimFloat.ltb a b then b
  else if PrimFloat.ltb b a then a
  else if PrimFloat.get_sign a then b else a.

#[export] Instance float_Number : Number float := {|
  ofZ := float_ofZ;
  add := PrimFloat.add;
  sub := PrimFloat.sub;
  mul := PrimFloat.mul;
  div := PrimFloat.div;
  neg := PrimFloat.opp;
  Math_abs := PrimFloat.abs;
  Math_sqrt := PrimFloat.sqrt;
  Math_min := float_min;
  Math_max := float_max;
  lt := PrimFloat.ltb;
  le := PrimFloat.leb
|}.

(** *** the real numbers: the exact arithmetic the floats approximate *)

Definition Rltb (a b : R) : bool := if Rlt_dec a b then true else false.
Definition Rleb (a b : R) : bool := if Rle_dec a b then true else false.

#[export] Instance R_Number : Number R := {|
  ofZ := IZR;
  add := Rplus;
  sub := Rminus;
  mul := Rmult;
  div := Rdiv;
  neg := Ropp;
  Math_abs := Rabs;
  Math_sqrt := R_sqrt.sqrt;
  Math_min := Rmin;
  Math_max := Rmax;
  lt := Rltb;
  le := Rleb
|}.


(** ** Object identity: what [getGameState] returns

    The functions above pass the game state by value, which is all the
    simulation needs: inside the engine every read goes through
    [this.gameState].  A caller of [getGameState] however holds a second
    JavaScript object, and what it can do to the engine through it depends on
    which objects the two share.  The store below gives an identity to the
    four objects concerned: the state object, and the ball, the paddle and
    the block array it refers to.  (The objects nested further down, a
    position or a single block, are kept as values inside their owner's
    cell: the spread of [getGameState] stops at the first level.) *)

Section Snapshot.
Context {N : Type}.

(** A reference to an object of the store. *)
Abbreviation ref := nat.

Inductive Obj :=
| OGameState (running paused : bool) (score_ lives_ level_ : Z)
             (ball_ref paddle_ref blocks_ref : ref)
| OBall (b : Ball N)
| OPaddle (p : Paddle N)
| OBlocks (bs : list (Block N)).

Abbreviation Store := (gmap ref Obj).

(** The game state seen through the state object at [r]: its own fields,
    and what its three references point to. *)
Definition read_state (h : Store) (r : ref) : option (GameState N) :=
  match h !! r with
  | Some (OGameState running paused sc li le rb rp rbs) =>
      match h !! rb, h !! rp, h !! rbs with
      | Some (OBall b), Some (OPaddle p), Some (OBlocks bs) =>
          Some (mkGameState running paused sc li le b p bs)
      | _, _, _ => None
      end
  | _ => None
  end.

(** The store of an engine whose state is [g], and the reference held in
    [this.gameState]. *)
Definition store_of (g : GameState N) : Store * ref :=
  (<[3%nat := OGameState (isRunning g) (isPaused g) (score g) (lives g) (level g) 0%nat 1%nat 2%nat]>
     (<[2%nat := OBlocks (blocks g)]>
        (<[1%nat := OPaddle (paddle g)]>
           (<[0%nat := OBall (ball g)]> ∅))),
   3%nat).

(** [getGameState]: [{ ...this.gameState }] allocates one new object and
    copies the own properties of the state object into it; a property that
    holds a reference is copied as that reference. *)
Definition getGameState (h : Store) (this_gameState : ref) : option (Store * ref) :=
  match h !! this_gameState with
  | Some (OGameState running paused sc li le rb rp rbs) =>
      let r := fresh (dom h) in
      Some (<[r := OGameState running paused sc li le rb rp rbs]> h, r)
  | _ => None
  end.

(** What a caller can do with the object it was given.  An assignment to one
    of its properties, [s.score = v], [s.blocks = a], ... *)
Inductive Assignment :=
| AssignIsRunning (v : bool)
| AssignIsPaused (v : bool)
| AssignScore (v : Z)
| AssignLives (v : Z)
| AssignLevel (v : Z)
| AssignBall (v : ref)
| AssignPaddle (v : ref)
| AssignBlocks (v : ref).

Definition assign (a : Assignment) (s : ref) (h : Store) : Store :=
  match h !! s with
  | Some (OGameState running paused sc li le rb rp rbs) =>
      <[s :=
          match a with
          | AssignIsRunning v => OGameState v paused sc li le rb rp rbs
          | AssignIsPaused v => OGameState running v sc li le rb rp rbs
          | AssignScore v => OGameState running paused v li le rb rp rbs
          | AssignLives v => OGameState running paused sc v le rb rp rbs
          | AssignLevel v => OGameState running paused sc li v rb rp rbs
          | AssignBall v => OGameState running paused sc li le v rp rbs
          | AssignPaddle v => OGameState running paused sc li le rb v rbs
          | AssignBlocks v => OGameState running paused sc li le rb rp v
          end]> h
  | _ => h
  end.

(** ... or a mutation in place of an object that one of its properties
    refers to: [s.blocks[i].destroyed = true], [s.blocks.push(b)],
    [s.blocks.length = 0], [s.ball.position.x = v], ... *)
Definition mutate_blocks (f : list (Block N) -> list (Block N)) (s : ref) (h : Store) : Store :=
  match h !! s with
  | Some (OGameState _ _ _ _ _ _ _ rbs) =>
      match h !! rbs with
      | Some (OBlocks bs) => <[rbs := OBlocks (f bs)]> h
      | _ => h
      end
  | _ => h
  end.

Definition mutate_ball (f : Ball N -> Ball N) (s : ref) (h : Store) : Store :=
  match h !! s with
  | Some (OGameState _ _ _ _ _ rb _ _) =>
      match h !! rb with
      | Some (OBall b) => <[rb := OBall (f b)]> h
      | _ => h
      end
  | _ => h
  end.

Definition mutate_paddle (f : Paddle N -> Paddle N) (s : ref) (h : Store) : Store :=
  match h !! s with
  | Some (OGameState _ _ _ _ _ _ rp _) =>
      match h !! rp with
      | Some (OPaddle p) => <[rp := OPaddle (f p)]> h
      | _ => h
      end
  | _ => h
  end.

(** [s.blocks[i].destroyed = v] *)
Definition destroy_block_at (i : nat) (v : bool) (bs : list (Block N)) : list (Block N) :=
  match bs !! i with
  | Some b => <[i := set_destroyed v b]> bs
  | None => bs
  end.
End Snapshot.

Arguments Obj : clear implicits.

Abbreviation Store N := (gmap nat (Obj N)).

(** ** Vocabulary of the statements *)

Section Vocabulary.
Context {N : Type} `{Number N}.
Local Open Scope num_scope.

(** The magnitude of a velocity, as [checkCollisions] and [nextLevel]
    compute it. *)
Definition speed (v : Velocity N) : N :=
  Math_sqrt (vel_x v * vel_x v + vel_y v * vel_y v).

(** The test of the block loop: the block is not destroyed and collides. *)
Definition live_hit (ball : Ball N) (block : Block N) : bool :=
  negb (destroyed block) && isColliding ball (block_rect block).

(** The block of row [r] and column [c] in a grid of [rows] rows. *)
Definition grid_block (rows r c : Z) : Block N :=
  {| block_position := {| pos_x := ofZ (35 + c * 85); pos_y := ofZ (60 + r * 30) |};
     block_width := ofZ 80;
     block_height := ofZ 25;
     block_color := nth (Z.to_nat (r mod 8)) colors ""%string;
     destroyed := false;
     points := ((rows - r) * 10)%Z |}.

(** [Math.max(-1, Math.min(1, (ball.x - paddleCenter) / (paddle.width / 2)))] *)
Definition hitPos (paddle : Paddle N) (ball : Ball N) : N :=
  Math_max (ofZ (-1))
    (Math_min (ofZ 1)
       ((pos_x (ball_position ball)
         - (pos_x (paddle_position paddle) + paddle_width paddle / ofZ 2))
        / (paddle_width paddle / ofZ 2))).

(** The engine as [start] leaves it when it calls [gameLoop]. *)
Definition started (e : Engine N) : Engine N :=
  set_gameState (set_isPaused false (set_isRunning true (gameState e))) e.


Definition all_destroyed (bs : list (Block N)) : bool := forallb destroyed bs.

(** The part of an engine that no step of a frame writes. *)
Definition same_env (e e' : Engine N) : Prop :=
  canvas e' = canvas e /\ config e' = config e /\ controls e' = controls e.

(** The level counts from 1, and every block is worth a positive number of
    points. *)
Definition well_formed (g : GameState N) : Prop :=
  (1 <= level g)%Z /\ Forall (fun blk => (0 < points blk)%Z) (blocks g).

(** The x coordinate [updatePaddle] asks for, before it is clamped: the
    pointer less half the paddle, or the old coordinate moved by the keys. *)
Definition paddle_target (e : Engine N) : N :=
  let paddle := paddle (gameState e) in
  let x0 := pos_x (paddle_position paddle) in
  match touchX (controls e) with
  | Some t => t - paddle_width paddle / ofZ 2
  | None =>
      let xl := if leftPressed (controls e) then x0 - paddle_speed paddle else x0 in
      if rightPressed (controls e) then xl + paddle_speed paddle else xl
  end.
End Vocabulary.

(** ** Concrete engines

    Runs of the binary64 engine that the statements below evaluate, and one
    state of the engine over the reals. *)

(** [n] animation frames. *)
Definition frames (n : nat) : list (Event float) := repeat (AnimationFrame (ofZ 16)) n.

(** The engine [Game.tsx] builds on its default 800 by 600 canvas. *)
Definition fresh_engine : Engine float := newGameEngine (mkCanvas 800 600).

(** The same engine after a start and 1873 frames without any input: the
    third ball has just been lost. *)
Definition game_over : Engine float := run (CallStart :: frames 1873) fresh_engine.

(** An engine on a 240 by 180 canvas (a window 280 wide) after a start and
    165 frames without input: one block of level 1 is left and the ball is
    about to hit it. *)
Definition last_block : Engine float :=
  run (CallStart :: frames 165) (newGameEngine (mkCanvas 240 180)).

(** [last_block] one frame later, at the point where [checkLevelComplete] is
    entered. *)
Definition before_transition : Engine float :=
  checkGameOver (checkCollisions (updateBall (updatePaddle last_block))).

(** An engine on a canvas too narrow for a column of blocks, started. *)
Definition no_blocks : Engine float := run [CallStart] (newGameEngine (mkCanvas 100 75)).

(** Over the reals: the ball of the fresh 800 by 600 engine moved down onto
    the paddle, falling. *)
Definition ball_on_paddle : Engine R :=
  let e := newGameEngine (mkCanvas 800 600) in
  set_gameState
    (set_ball
       {| ball_position := {| pos_x := 400%R; pos_y := 560%R |};
          ball_velocity := {| vel_x := 3%R; vel_y := 3%R |};
          ball_radius := 8%R;
          ball_color := "#ff6b6b" |}
       (gameState e)) e.

(** The same state on binary64. *)
Definition ball_on_paddle_float : Engine float :=
  let e := newGameEngine (mkCanvas 800 600) in
  set_gameState
    (set_ball
       {| ball_position := {| pos_x := ofZ 400; pos_y := ofZ 560 |};
          ball_velocity := {| vel_x := ofZ 3; vel_y := ofZ 3 |};
          ball_radius := ofZ 8;
          ball_color := "#ff6b6b" |}
       (gameState e)) e.

(** On binary64, the ball 30 to the right of the middle of the paddle. *)
Definition ball_off_centre_float : Engine float :=
  let e := newGameEngine (mkCanvas 800 600) in
  set_gameState
    (set_ball
       {| ball_position := {| pos_x := ofZ 430; pos_y := ofZ 560 |};
          ball_velocity := {| vel_x := ofZ 3; vel_y := ofZ 3 |};
          ball_radius := ofZ 8;
          ball_color := "#ff6b6b" |}
       (gameState e)) e.

(** A mouse move at the left edge of a canvas whose bounding rectangle is 0
    wide: [scaleX] is [800 / 0], infinite, and [0 * scaleX] is NaN. *)
Definition nan_pointer : Pointer float :=
  {| clientX := ofZ 0; rect_left := ofZ 0; rect_css_width := ofZ 0 |}.

(** The default engine after a start, that mouse move and 366 frames: the
    ball has come down to the height of the paddle. *)
Definition nan_paddle : Engine float :=
  run (CallStart :: MouseMove nan_pointer :: frames 366) fresh_engine.

(** The store of the fresh engine, and what [getGameState] returns on it. *)
Definition fresh_store : Store float * nat := store_of (gameState fresh_engine).

Definition fresh_snapshot : option (Store float * nat) :=
  getGameState (fst fresh_store) (snd fresh_store).

(** ** More vocabulary *)


Section MoreVocabulary.
Context {N : Type} `{Number N}.

(** What every event keeps, also the intermediate engine inside [start]:
    the configuration is that of the canvas, the counters are in range, and
    the blocks are the grid of the current level with some of them
    destroyed. *)
Definition engine_inv_weak (e : Engine N) : Prop :=
  let g := gameState e in
  config e = configOf (canvas e)
  /\ lives g <= 3
  /\ 0 <= score g /\ (10 | score g)
  /\ 1 <= level g
  /\ map (set_destroyed false) (blocks g) = generateBlocks (config e) (level g).

(** What holds between events: moreover a running game has a life left. *)
Definition engine_inv (e : Engine N) : Prop :=
  engine_inv_weak e /\ (isRunning (gameState e) = true -> 1 <= lives (gameState e)).

(** The events whose handler may call [start]. *)
Definition calls_start (ev : Event N) : bool :=
  match ev with
  | KeyDown code => (code =? "Space")%string
  | TouchStart _ | Click | CallStart => true
  | _ => false
  end.

Definition is_frame (ev : Event N) : bool :=
  match ev with AnimationFrame _ => true | _ => false end.
End MoreVocabulary.


(** ** Drawing: [render] and [drawUI]

    The drawing methods write to the canvas context and to nothing else.
    [render] and [drawUI] are embedded as the list of calls they make, in
    order, to the context ([fillRect]) and to the drawing methods below them
    ([drawAppleBlock], [drawApplePaddle], [drawAppleBall], [drawUICard],
    [drawAppleOverlay]) with the arguments they pass; the [save] and
    [restore] of the context around the cards are left out. *)

(** The template literal of an integer counter: its decimal digits. *)
Definition show_number (z : Z) : string := NilZero.string_of_int (Z.to_int z).

Section Drawing.
Context {N : Type} `{Number N}.
Local Open Scope num_scope.

Inductive DrawCall :=
| FillRect (fillStyle : string) (x y width height : N)
| DrawAppleBlock (block : Block N)
| DrawApplePaddle (paddle : Paddle N)
| DrawAppleBall (ball : Ball N)
| DrawUICard (x y width height : N) (value label : string)
| DrawAppleOverlay (title subtitle accentColor : string).

(** [drawUI] *)
Definition drawUI (e : Engine N) : list DrawCall :=
  let g := gameState e in
  [ DrawUICard (ofZ 10) (ofZ 10) (ofZ 80) (ofZ 35) (show_number (score g)) "Score";
    DrawUICard (ofZ 10) (ofZ 55) (ofZ 80) (ofZ 35) (show_number (lives g)) "Lives";
    DrawUICard (ofZ (canvasWidth (config e)) - ofZ 90) (ofZ 10) (ofZ 80) (ofZ 35)
               (show_number (level g)) "Level" ]
  ++ (if negb (isRunning g) && (lives g >? 0)%Z
      then [DrawAppleOverlay "Ready to Play?" "Tap to start • Move with touch or keys"
                             "#007AFF"]
      else [])
  ++ (if (lives g <=? 0)%Z
      then [DrawAppleOverlay "Game Over" ("Final Score: " ++ show_number (score g))
                             "#FF3B30"]
      else [])
  ++ (if isPaused g
      then [DrawAppleOverlay "Paused" "Tap to continue" "#8E8E93"]
      else []).

(** [render] *)
Definition render (e : Engine N) : list DrawCall :=
  let g := gameState e in
  FillRect "#f8f9fa" (ofZ 0) (ofZ 0) (ofZ (canvasWidth (config e)))
           (ofZ (canvasHeight (config e)))
  :: map DrawAppleBlock (List.filter (fun block => negb (destroyed block)) (blocks g))
  ++ [DrawApplePaddle (paddle g); DrawAppleBall (ball g)]
  ++ drawUI e.

(** The titles of the overlays among some calls, in drawing order. *)
Definition overlay_titles (calls : list DrawCall) : list string :=
  flat_map (fun c => match c with DrawAppleOverlay title _ _ => [title] | _ => [] end) calls.

(** The blocks among some calls. *)
Definition drawn_blocks (calls : list DrawCall) : list (Block N) :=
  flat_map (fun c => match c with DrawAppleBlock b => [b] | _ => [] end) calls.
End Drawing.

Arguments DrawCall : clear implicits.

(** ** The browser around the engine: listeners and animation frames

    [destroy], [reset] and [gameLoop] act on two things of the browser that
    the simulation never reads: the listeners registered on the document and
    on the canvas, and the window's list of animation frame callbacks.  Both
    are modelled as the DOM and HTML standards define them: a target holds a
    listener (type, callback) at most once, [removeEventListener] removes
    it; [requestAnimationFrame] returns the next handle (they count from 1)
    and appends the callback, [cancelAnimationFrame] removes it, and a frame
    of the display runs the callbacks that were in the list when it began, in
    order, each removed before it is run.  All callbacks in the list are
    [this.gameLoop]; a closure is identified by the engine that created it
    and by its position in [setupEventListeners]. *)

Inductive Target := Document | CanvasElement.

Record Listener := mkListener {
  listener_element : Target;
  listener_event : string;
  listener_handler : nat * nat        (* the engine, and which of its closures *)
}.

#[export] Instance Target_eq_dec : EqDecision Target.
Proof. solve_decision. Defined.

#[export] Instance Listener_eq_dec : EqDecision Listener.
Proof. solve_decision. Defined.

Section Runtime.
Context {N : Type} `{Number N}.

Record Runtime := mkRuntime {
  rt_engine : Engine N;
  rt_animationId : option nat;          (* [animationId?: number] *)
  rt_eventListeners : list Listener;    (* [this.eventListeners] *)
  rt_registered : list Listener;        (* what the document and the canvas hold *)
  rt_callbacks : list nat;              (* handles of the pending frame callbacks *)
  rt_last_handle : nat                  (* the window's callback identifier *)
}.

Definition set_rt_engine (e : Engine N) (rt : Runtime) : Runtime :=
  mkRuntime e (rt_animationId rt) (rt_eventListeners rt) (rt_registered rt)
            (rt_callbacks rt) (rt_last_handle rt).

(** [element.addEventListener(event, handler)] *)
Definition addEventListener (l : Listener) (registered : list Listener) : list Listener :=
  if decide (l ∈ registered) then registered else registered ++ [l].

(** [element.removeEventListener(event, handler)] *)
Definition removeEventListener (l : Listener) (registered : list Listener) : list Listener :=
  List.filter (fun l' => negb (bool_decide (l' = l))) registered.

(** [addEventListenerWithTracking] *)
Definition addEventListenerWithTracking (l : Listener) (rt : Runtime) : Runtime :=
  mkRuntime (rt_engine rt) (rt_animationId rt) (rt_eventListeners rt ++ [l])
            (addEventListener l (rt_registered rt)) (rt_callbacks rt) (rt_last_handle rt).

(** The seven registrations at the end of [setupEventListeners], by the
    engine [owner]. *)
Definition engine_listeners (owner : nat) : list Listener :=
  [ mkListener Document "keydown" (owner, 0%nat);
    mkListener Document "keyup" (owner, 1%nat);
    mkListener CanvasElement "touchstart" (owner, 2%nat);
    mkListener CanvasElement "touchmove" (owner, 3%nat);
    mkListener CanvasElement "touchend" (owner, 4%nat);
    mkListener CanvasElement "mousemove" (owner, 5%nat);
    mkListener CanvasElement "click" (owner, 6%nat) ].

Definition setupEventListeners (owner : nat) (rt : Runtime) : Runtime :=
  fold_left (fun rt l => addEventListenerWithTracking l rt) (engine_listeners owner) rt.

(** [new GameEngine(canvas)] in a browser that holds the listeners
    [registered] and has handed out [last_handle] callback handles. *)
Definition construct (owner : nat) (c : Canvas) (registered : list Listener)
                     (callbacks : list nat) (last_handle : nat) : Runtime :=
  setupEventListeners owner
    (mkRuntime (newGameEngine c) None [] registered callbacks last_handle).

(** [cancelAnimationFrame(handle)] *)
Definition cancelAnimationFrame (handle : nat) (rt : Runtime) : Runtime :=
  mkRuntime (rt_engine rt) (rt_animationId rt) (rt_eventListeners rt) (rt_registered rt)
            (List.filter (fun h => negb (h =? handle)%nat) (rt_callbacks rt))
            (rt_last_handle rt).

(** [if (this.animationId) cancelAnimationFrame(this.animationId)]: an
    absent handle and the handle 0 are falsy. *)
Definition cancel_pending (rt : Runtime) : Runtime :=
  match rt_animationId rt with
  | Some handle => if (handle =? 0)%nat then rt else cancelAnimationFrame handle rt
  | None => rt
  end.

(** [gameLoop] with its last line:
    [this.animationId = requestAnimationFrame(this.gameLoop)]. *)
Definition gameLoop_rt (deltaTime : N) (rt : Runtime) : Runtime :=
  let handle := S (rt_last_handle rt) in
  mkRuntime (update deltaTime (rt_engine rt)) (Some handle) (rt_eventListeners rt)
            (rt_registered rt) (rt_callbacks rt ++ [handle]) handle.

(** [start] *)
Definition start_rt (rt : Runtime) : Runtime :=
  if negb (isRunning (gameState (rt_engine rt))) then
    gameLoop_rt (ofZ 0) (set_rt_engine (started (rt_engine rt)) rt)
  else rt.

(** [reset] *)
Definition reset_rt (rt : Runtime) : Runtime :=
  let rt1 := cancel_pending rt in
  set_rt_engine (reset (rt_engine rt1)) rt1.

(** [destroy] *)
Definition destroy (rt : Runtime) : Runtime :=
  let rt1 := cancel_pending rt in
  mkRuntime (rt_engine rt1) (rt_animationId rt1) []
            (fold_left (fun registered l => removeEventListener l registered)
                       (rt_eventListeners rt1) (rt_registered rt1))
            (rt_callbacks rt1) (rt_last_handle rt1).

(** The callbacks of one frame of the display: those whose handles are
    [handles], each run if it is still in the list. *)
Fixpoint run_callbacks (deltaTime : N) (handles : list nat) (rt : Runtime) : Runtime :=
  match handles with
  | [] => rt
  | handle :: rest =>
      let rt1 :=
        if decide (handle ∈ rt_callbacks rt) then
          gameLoop_rt deltaTime
            (mkRuntime (rt_engine rt) (rt_animationId rt) (rt_eventListeners rt)
                       (rt_registered rt)
                       (List.filter (fun h => negb (h =? handle)%nat) (rt_callbacks rt))
                       (rt_last_handle rt))
        else rt in
      run_callbacks deltaTime rest rt1
  end.

Definition display_frame (deltaTime : N) (rt : Runtime) : Runtime :=
  run_callbacks deltaTime (rt_callbacks rt) rt.

(** The handles in the list are distinct and have been handed out. *)
Definition callbacks_ok (rt : Runtime) : Prop :=
  NoDup (rt_callbacks rt)
  /\ Forall (fun h => (1 <= h <= rt_last_handle rt)%nat) (rt_callbacks rt).
End Runtime.

Arguments Runtime : clear implicits.

(** ** The host: the responsive canvas size of [src/components/Game.tsx] *)

(** [Math.floor] on binary64.  Below 2^52 in magnitude, adding and
    subtracting 2^52 rounds to the nearest integer, which is then stepped
    down when it lies above the argument; from 2^52 on every double is an
    integer, and NaN and the infinities are returned as they are. *)
Definition float_floor (x : float) : float :=
  let two52 := float_ofZ (2 ^ 52) in
  if PrimFloat.ltb (PrimFloat.abs x) two52 then
    if PrimFloat.ltb x (float_ofZ 0) then
      let y := PrimFloat.opp x in
      let t := PrimFloat.sub (PrimFloat.add y two52) two52 in
      PrimFloat.opp (if PrimFloat.ltb t y then PrimFloat.add t (float_ofZ 1) else t)
    else
      let t := PrimFloat.sub (PrimFloat.add x two52) two52 in
      if PrimFloat.ltb x t then PrimFloat.sub t (float_ofZ 1) else t
  else x.

(** The body of [updateCanvasSize] in the first effect of [Game], from the
    two maxima on: what it passes to [setCanvasSize]. *)
Definition fitCanvas (maxWidth maxHeight : float) : float * float :=
  let aspectRatio := PrimFloat.div (float_ofZ 4) (float_ofZ 3) in
  let width := maxWidth in
  let height := PrimFloat.div maxWidth aspectRatio in
  let '(width, height) :=
    if PrimFloat.ltb maxHeight height
    then (PrimFloat.mul maxHeight aspectRatio, maxHeight)
    else (width, height) in
  (float_floor width, float_floor height).

(** [updateCanvasSize] of [Game.tsx] for a window whose inner size is
    [innerWidth] by [innerHeight]. *)
Definition Game_updateCanvasSize (innerWidth innerHeight : Z) : float * float :=
  let maxWidth := float_min (PrimFloat.sub (float_ofZ innerWidth) (float_ofZ 40)) (float_ofZ 800) in
  let maxHeight := float_min (PrimFloat.sub (float_ofZ innerHeight) (float_ofZ 200)) (float_ofZ 600) in
  fitCanvas maxWidth maxHeight.

(** The same size in integer arithmetic: the largest 4:3 box, rounded down,
    that fits 800 by 600 and the window less its margins. *)
Definition canvas_size_exact (innerWidth innerHeight : Z) : Z * Z :=
  let maxWidth := Z.min (innerWidth - 40) 800 in
  let maxHeight := Z.min (innerHeight - 200) 600 in
  if 4 * maxHeight <? 3 * maxWidth then (4 * maxHeight / 3, maxHeight)
  else (maxWidth, 3 * maxWidth / 4).

(** The integers [lo, lo + 1, ..., lo + n - 1]. *)
Fixpoint Zrange (lo : Z) (n : nat) : list Z :=
  match n with
  | O => []
  | S n' => lo :: Zrange (lo + 1) n'
  end.


(** Over the reals: a running game with the ball in mid air and one block
    left in the top left corner. *)
Definition ball_in_flight : Engine R :=
  {| canvas := mkCanvas 800 600;
     config := configOf (mkCanvas 800 600);
     gameState :=
       {| isRunning := true;
          isPaused := false;
          score := 0;
          lives := 3;
          level := 1;
          ball := {| ball_position := {| pos_x := 400%R; pos_y := 300%R |};
                     ball_velocity := {| vel_x := 3%R; vel_y := (-3)%R |};
                     ball_radius := 8%R;
                     ball_color := "#ff6b6b" |};
          paddle := {| paddle_position := {| pos_x := 350%R; pos_y := 565%R |};
                       paddle_width := 100%R;
                       paddle_height := 15%R;
                       paddle_speed := 10%R;
                       paddle_color := "#4ecdc4" |};
          blocks := [ {| block_position := {| pos_x := 35%R; pos_y := 60%R |};
                         block_width := 80%R;
                         block_height := 25%R;
                         block_color := "#ff6b6b";
                         destroyed := false;
                         points := 30 |} ] |};
     controls := {| leftPressed := false; rightPressed := false; touchX := None |} |}.

(** A browser in which another script listens for [resize], and the engine
    number 1 constructed and started in it. *)
Definition other_listener : Listener := mkListener Document "resize" (0%nat, 0%nat).

Definition started_runtime : Runtime float :=
  start_rt (construct 1 (mkCanvas 800 600) [other_listener] [] 0).

(** The ball of [ball_in_flight] one frame later. *)
Definition ball_in_flight_next : Ball R :=
  {| ball_position := {| pos_x := (400 + 3)%R; pos_y := (300 + -3)%R |};
     ball_velocity := {| vel_x := 3%R; vel_y := (-3)%R |};
     ball_radius := 8%R; ball_color := "#ff6b6b" |}.

(** * Properties *)

(** ** Lists laid out row by row *)

Lemma lookup_loop_range (n : Z) (i : nat) :
  (i < Z.to_nat n)%nat -> loop_range n !! i = Some (Z.of_nat i).
Proof.
  intros Hi. unfold loop_range.
  rewrite list_lookup_fmap, lookup_seq_lt by exact Hi. reflexivity.
Qed.

Lemma length_loop_range (n : Z) : List.length (loop_range n) = Z.to_nat n.
Proof. unfold loop_range. now rewrite length_map, length_seq. Qed.

Lemma length_flat_map_const {A B : Type} (f : A -> list B) (n : nat) (l : list A) :
  (forall a, List.length (f a) = n) ->
  List.length (flat_map f l) = (List.length l * n)%nat.
Proof.
  intros Hf. induction l as [|a l IH]; simpl; [reflexivity|].
  rewrite length_app, Hf, IH. reflexivity.
Qed.

Lemma lookup_flat_map_const {A B : Type} (f : A -> list B) (n : nat) (l : list A)
      (i j : nat) (a : A) :
  (forall x, List.length (f x) = n) ->
  l !! i = Some a -> (j < n)%nat ->
  flat_map f l !! (i * n + j)%nat = f a !! j.
Proof.
  intros Hf. revert i. induction l as [|x l IH]; intros i Hi Hj; [discriminate|].
  simpl. destruct i as [|i]; simpl in *.
  - injection Hi as ->. apply lookup_app_l. rewrite Hf. exact Hj.
  - rewrite lookup_app_r by (rewrite Hf; lia).
    rewrite Hf. replace (n + i * n + j - n)%nat with (i * n + j)%nat by lia.
    now apply IH.
Qed.

Section GridFacts.
Context {N : Type} `{Number N}.

(** ** [generateBlocks] *)

Lemma generateBlocks_length (cfg : GameConfig N) (lvl : Z) :
  List.length (generateBlocks cfg lvl)
  = (Z.to_nat (block_rows lvl) * Z.to_nat (block_cols cfg))%nat.
Proof.
  unfold generateBlocks.
  rewrite length_flat_map_const with (n := Z.to_nat (block_cols cfg)).
  - now rewrite length_loop_range.
  - intros r. now rewrite length_map, length_loop_range.
Qed.

Lemma generateBlocks_lookup (cfg : GameConfig N) (lvl r c : Z) :
  0 <= r < block_rows lvl -> 0 <= c < block_cols cfg ->
  generateBlocks cfg lvl !! Z.to_nat (r * block_cols cfg + c)
  = Some (grid_block (block_rows lvl) r c).
Proof.
  intros Hr Hc. unfold generateBlocks.
  replace (Z.to_nat (r * block_cols cfg + c))
    with (Z.to_nat r * Z.to_nat (block_cols cfg) + Z.to_nat c)%nat by nia.
  rewrite lookup_flat_map_const
    with (n := Z.to_nat (block_cols cfg)) (a := r).
  - rewrite list_lookup_fmap, lookup_loop_range by lia. simpl.
    rewrite !Z2Nat.id by lia. reflexivity.
  - intros x. now rewrite length_map, length_loop_range.
  - rewrite lookup_loop_range by lia. now rewrite Z2Nat.id by lia.
  - lia.
Qed.

Lemma generateBlocks_undestroyed (cfg : GameConfig N) (lvl : Z) :
  Forall (fun b => destroyed b = false) (generateBlocks cfg lvl).
Proof.
  unfold generateBlocks. apply Forall_flat_map, Forall_forall. intros r _.
  apply Forall_map, Forall_forall. intros c _. reflexivity.
Qed.

Lemma generateBlocks_points_pos (cfg : GameConfig N) (lvl : Z) :
  Forall (fun b => 0 < points b) (generateBlocks cfg lvl).
Proof.
  unfold generateBlocks. apply Forall_flat_map, Forall_forall. intros r Hr.
  apply Forall_map, Forall_forall. intros c _. simpl.
  unfold loop_range in Hr. apply list_elem_of_In, in_map_iff in Hr as (k & <- & Hk).
  apply in_seq in Hk. lia.
Qed.

(** C7. [generateBlocks] is a function of the level and of the width of the
    surface alone.  It lays out [min(3 + floor(level/2), 8)] rows of
    [floor((width - 70) / 85)] blocks, row after row; the block of row [r] and
    column [c] is 80 by 25, not destroyed, and worth [(rows - r) * 10]
    points.  For a surface 800 wide at level 1 that is 3 rows of 8 blocks, 24
    in all, 30 points each in the top row and 10 each in the bottom row. *)
Theorem C7_generateBlocks_layout :
  (forall (cfg cfg' : GameConfig N) (lvl : Z),
      canvasWidth cfg = canvasWidth cfg' ->
      generateBlocks cfg lvl = generateBlocks cfg' lvl)
  /\ (forall (cfg : GameConfig N) (lvl : Z),
         let rows := Z.min (3 + lvl / 2) 8 in
         let cols := (canvasWidth cfg - 70) / 85 in
         List.length (generateBlocks cfg lvl) = (Z.to_nat rows * Z.to_nat cols)%nat
         /\ forall r c : Z,
             0 <= r < rows -> 0 <= c < cols ->
             generateBlocks cfg lvl !! Z.to_nat (r * cols + c)
             = Some {| block_position :=
                         {| pos_x := ofZ (35 + c * 85); pos_y := ofZ (60 + r * 30) |};
                       block_width := ofZ 80;
                       block_height := ofZ 25;
                       block_color := nth (Z.to_nat (r mod 8)) colors ""%string;
                       destroyed := false;
                       points := (rows - r) * 10 |})
  /\ (forall cfg : GameConfig N,
         canvasWidth cfg = 800 ->
         List.length (generateBlocks cfg 1) = 24%nat
         /\ map points (generateBlocks cfg 1)
            = repeat 30 8 ++ repeat 20 8 ++ repeat 10 8).
Proof.
  split; [|split].
  - intros cfg cfg' lvl Hw. unfold generateBlocks, block_cols. now rewrite Hw.
  - intros cfg lvl rows cols. split.
    + apply generateBlocks_length.
    + intros r c Hr Hc. apply (generateBlocks_lookup cfg lvl r c Hr Hc).
  - intros cfg Hw. unfold generateBlocks, block_cols. rewrite Hw.
    split; reflexivity.
Qed.

End GridFacts.

(** ** One frame, step by step *)

Ltac split_ifs :=
  repeat match goal with
         | |- context [if ?b then _ else _] => destruct b eqn:?
         end.

Section FrameFacts.
Context {N : Type} `{Number N}.

Lemma same_env_refl (e : Engine N) : same_env e e.
Proof. now repeat split. Qed.

Lemma same_env_trans (e1 e2 e3 : Engine N) :
  same_env e1 e2 -> same_env e2 e3 -> same_env e1 e3.
Proof. intros (?&?&?) (?&?&?). repeat split; congruence. Qed.

Lemma updatePaddle_frame (e : Engine N) :
  same_env e (updatePaddle e)
  /\ exists p, gameState (updatePaddle e) = set_paddle p (gameState e).
Proof. split; [now repeat split|]. eexists. reflexivity. Qed.

Lemma resetBall_frame (e : Engine N) :
  same_env e (resetBall e)
  /\ exists b, gameState (resetBall e) = set_ball b (gameState e).
Proof. split; [now repeat split|]. eexists. reflexivity. Qed.

Lemma loseLife_frame (e : Engine N) :
  let g := gameState e in
  let g' := gameState (loseLife e) in
  same_env e (loseLife e)
  /\ isPaused g' = isPaused g /\ score g' = score g /\ level g' = level g
  /\ paddle g' = paddle g /\ blocks g' = blocks g
  /\ lives g' = lives g - 1
  /\ isRunning g' = (if 0 <? lives g' then isRunning g else false).
Proof.
  unfold loseLife. simpl.
  destruct (lives (gameState e) - 1 >? 0) eqn:Hpos; simpl;
    rewrite Z.gtb_ltb in Hpos; rewrite Hpos; now repeat split.
Qed.

Lemma updateBall_frame (e : Engine N) :
  let g := gameState e in
  let g' := gameState (updateBall e) in
  same_env e (updateBall e)
  /\ isPaused g' = isPaused g /\ score g' = score g /\ level g' = level g
  /\ paddle g' = paddle g /\ blocks g' = blocks g
  /\ ((lives g' = lives g /\ isRunning g' = isRunning g)
      \/ (lives g' = lives g - 1
          /\ isRunning g' = (if 0 <? lives g' then isRunning g else false))).
Proof.
  unfold updateBall.
  match goal with
  | |- context [if ?b then loseLife ?e1 else _] =>
      destruct b; [pose proof (loseLife_frame e1) as L; simpl in L |]
  end.
  - destruct L as ((?&?&?) & ? & ? & ? & ? & ? & ? & ?). simpl.
    repeat split; try assumption. right. split; assumption.
  - simpl. repeat split. left. now split.
Qed.

Lemma checkCollisions_paddle_frame (e : Engine N) :
  same_env e (checkCollisions_paddle e)
  /\ exists b, gameState (checkCollisions_paddle e) = set_ball b (gameState e).
Proof.
  unfold checkCollisions_paddle. split_ifs.
  - split; [now repeat split|]. eexists. reflexivity.
  - split; [apply same_env_refl|]. exists (ball (gameState e)).
    now destruct (gameState e).
Qed.

(** The block loop: either no block is hit and nothing changes, or the first
    live hit, at index [i], is the one block that is changed. *)
Lemma blockLoop_spec (b : Ball N) (sc : Z) (bs : list (Block N)) :
  (Forall (fun blk => live_hit b blk = false) bs
   /\ blockLoop b sc bs = (b, sc, bs))
  \/ (exists (i : nat) (blk : Block N),
         bs !! i = Some blk
         /\ live_hit b blk = true
         /\ (forall (j : nat) (blk' : Block N),
                (j < i)%nat -> bs !! j = Some blk' -> live_hit b blk' = false)
         /\ blockLoop b sc bs
            = (blockBounce blk b, sc + points blk, <[i := set_destroyed true blk]> bs)).
Proof.
  induction bs as [|blk rest IH]; simpl.
  - left. split; [constructor | reflexivity].
  - fold (live_hit b blk). destruct (live_hit b blk) eqn:Hhit.
    + right. exists 0%nat, blk. repeat split; try assumption. intros j blk' Hj. lia.
    + destruct IH as [[Hall Heq] | (i & blk0 & Hi & Hlive & Hfirst & Heq)].
      * left. rewrite Heq. split; [now constructor | reflexivity].
      * right. exists (S i), blk0. rewrite Heq. repeat split; try assumption.
        intros [|j] blk' Hj Hlk; simpl in Hlk.
        -- now injection Hlk as <-.
        -- apply (Hfirst j); [lia | assumption].
Qed.

Lemma checkCollisions_blocks_frame (e : Engine N) :
  let g := gameState e in
  let g' := gameState (checkCollisions_blocks e) in
  same_env e (checkCollisions_blocks e)
  /\ isRunning g' = isRunning g /\ isPaused g' = isPaused g
  /\ lives g' = lives g /\ level g' = level g /\ paddle g' = paddle g
  /\ blockLoop (ball g) (score g) (blocks g) = (ball g', score g', blocks g').
Proof.
  unfold checkCollisions_blocks.
  destruct (blockLoop (ball (gameState e)) (score (gameState e)) (blocks (gameState e)))
    as [[b' s'] bs'].
  simpl. now repeat split.
Qed.

Lemma checkGameOver_frame (e : Engine N) :
  same_env e (checkGameOver e)
  /\ gameState (checkGameOver e)
     = set_isRunning (if lives (gameState e) <=? 0 then false else isRunning (gameState e))
                     (gameState e).
Proof.
  unfold checkGameOver. destruct (lives (gameState e) <=? 0).
  - split; [now repeat split | reflexivity].
  - split; [apply same_env_refl | now destruct (gameState e)].
Qed.

Lemma nextLevel_frame (e : Engine N) :
  let g := gameState e in
  let g' := gameState (nextLevel e) in
  same_env e (nextLevel e)
  /\ isRunning g' = isRunning g /\ isPaused g' = isPaused g
  /\ score g' = score g /\ lives g' = lives g /\ paddle g' = paddle g
  /\ level g' = level g + 1
  /\ blocks g' = generateBlocks (config e) (level g + 1).
Proof. simpl. now repeat split. Qed.

Lemma checkLevelComplete_frame (e : Engine N) :
  let g := gameState e in
  let g' := gameState (checkLevelComplete e) in
  same_env e (checkLevelComplete e)
  /\ isRunning g' = isRunning g /\ isPaused g' = isPaused g
  /\ score g' = score g /\ lives g' = lives g /\ paddle g' = paddle g
  /\ ((level g' = level g /\ blocks g' = blocks g)
      \/ (level g' = level g + 1
          /\ blocks g' = generateBlocks (config e) (level g + 1))).
Proof.
  unfold checkLevelComplete. split_ifs.
  - destruct (nextLevel_frame e) as (?&?&?&?&?&?&?&?). simpl in *.
    repeat split; try assumption. right. now split.
  - simpl. repeat split. left. now split.
Qed.
End FrameFacts.

(** ** One frame as a whole *)

Section UpdateFacts.
Context {N : Type} `{Number N}.

Lemma update_running (dt : N) (e : Engine N) :
  isRunning (gameState e) = true -> isPaused (gameState e) = false ->
  update dt e
  = checkLevelComplete
      (checkGameOver (checkCollisions_blocks (checkCollisions_paddle
         (updateBall (updatePaddle e))))).
Proof. intros Hr Hp. unfold update. rewrite Hr, Hp. reflexivity. Qed.

Lemma update_idle (dt : N) (e : Engine N) :
  isRunning (gameState e) = false \/ isPaused (gameState e) = true ->
  update dt e = e.
Proof.
  intros [Hr | Hp]; unfold update.
  - rewrite Hr. reflexivity.
  - rewrite Hp. now rewrite orb_true_r.
Qed.

(** What a frame of a running, unpaused game does to the counters, to the
    flags and to the paddle. *)
Lemma update_frame (dt : N) (e : Engine N) :
  isRunning (gameState e) = true -> isPaused (gameState e) = false ->
  let g := gameState e in
  let g' := gameState (update dt e) in
  same_env e (update dt e)
  /\ isPaused g' = false
  /\ (lives g' = lives g \/ lives g' = lives g - 1)
  /\ isRunning g' = (0 <? lives g')
  /\ ((level g' = level g
       /\ (blocks g' = blocks g
           \/ exists (i : nat) (blk : Block N),
               blocks g !! i = Some blk
               /\ blocks g' = <[i := set_destroyed true blk]> (blocks g)))
      \/ (level g' = level g + 1
          /\ blocks g' = generateBlocks (config e) (level g + 1)))
  /\ paddle g' = paddle (gameState (updatePaddle e))
  /\ (score g' = score g
      \/ exists blk, blk ∈ blocks g /\ destroyed blk = false
                     /\ score g' = score g + points blk).
Proof.
  intros Hr Hp g g'. subst g g'. rewrite (update_running dt e Hr Hp).
  pose proof (updatePaddle_frame e) as (E1 & p1 & G1).
  pose proof (updateBall_frame (updatePaddle e)) as (E2 & P2 & S2 & L2 & Pd2 & B2 & LR2).
  pose proof (checkCollisions_paddle_frame (updateBall (updatePaddle e))) as (E3 & b3 & G3).
  pose proof (checkCollisions_blocks_frame
                (checkCollisions_paddle (updateBall (updatePaddle e))))
    as (E4 & R4 & P4 & Li4 & L4 & Pd4 & Loop).
  pose proof (checkGameOver_frame
                (checkCollisions_blocks (checkCollisions_paddle (updateBall (updatePaddle e)))))
    as (E5 & G5).
  pose proof (checkLevelComplete_frame
                (checkGameOver (checkCollisions_blocks
                   (checkCollisions_paddle (updateBall (updatePaddle e))))))
    as (E6 & R6 & P6 & S6 & Li6 & Pd6 & LB6).
  set (e1 := updatePaddle e) in *.
  set (e2 := updateBall e1) in *.
  set (e3 := checkCollisions_paddle e2) in *.
  set (e4 := checkCollisions_blocks e3) in *.
  set (e5 := checkGameOver e4) in *.
  clearbody e1 e2 e3 e4 e5.
  rewrite G1 in *. rewrite G3 in *. rewrite G5 in *. simpl in *.
  repeat split.
  - destruct E1 as (?&?&?), E2 as (?&?&?), E3 as (?&?&?), E4 as (?&?&?),
      E5 as (?&?&?), E6 as (?&?&?). congruence.
  - destruct E1 as (?&?&?), E2 as (?&?&?), E3 as (?&?&?), E4 as (?&?&?),
      E5 as (?&?&?), E6 as (?&?&?). congruence.
  - destruct E1 as (?&?&?), E2 as (?&?&?), E3 as (?&?&?), E4 as (?&?&?),
      E5 as (?&?&?), E6 as (?&?&?). congruence.
  - congruence.
  - rewrite Li6, Li4. destruct LR2 as [[-> _] | [-> _]]; [now left | now right].
  - rewrite R6, Li6, Li4, R4.
    destruct LR2 as [[HL HR] | [HL HR]]; rewrite HR, ?Hr;
      destruct (Z.leb_spec (lives (gameState e2)) 0), (Z.ltb_spec 0 (lives (gameState e2)));
      try reflexivity; lia.
  - destruct E1 as (_&C1&_), E2 as (_&C2&_), E3 as (_&C3&_), E4 as (_&C4&_),
      E5 as (_&C5&_).
    destruct LB6 as [[-> ->] | [-> ->]]; rewrite L4, L2.
    + left. split; [reflexivity|].
      destruct (blockLoop_spec b3 (score (gameState e2)) (blocks (gameState e2)))
        as [[_ Heq] | (i & blk & Hi & _ & _ & Heq)];
        rewrite Heq in Loop; injection Loop as _ _ <-; rewrite B2 in *.
      * now left.
      * right. now exists i, blk.
    + right. split; [reflexivity|]. f_equal. congruence.
  - congruence.
  - rewrite S6.
    destruct (blockLoop_spec b3 (score (gameState e2)) (blocks (gameState e2)))
      as [[_ Heq] | (i & blk & Hi & Hlive & _ & Heq)];
      rewrite Heq in Loop; injection Loop as _ <- _; rewrite S2.
    + now left.
    + right. exists blk. rewrite <- B2. split; [|split].
      * apply list_elem_of_lookup. now exists i.
      * unfold live_hit in Hlive. apply andb_true_iff in Hlive as [Hd _].
        now apply negb_true_iff in Hd.
      * reflexivity.
Qed.
End UpdateFacts.

(** ** The statements of the specification, for any carrier of [number] *)

Section Statements.
Context {N : Type} `{Number N}.
Local Open Scope num_scope.

(** C3. While the game is not running, or is paused, [update] changes
    nothing: whatever [deltaTime] and whatever the controls hold, the engine
    after the call is the engine before it, game state (score, lives, level,
    ball, paddle, blocks, flags) included. *)
Theorem C3_update_idle_unchanged (deltaTime : N) (e : Engine N) :
  isRunning (gameState e) = false \/ isPaused (gameState e) = true ->
  update deltaTime e = e
  /\ gameState (update deltaTime e) = gameState e.
Proof. intros Hidle. rewrite (update_idle deltaTime e Hidle). now split. Qed.

(** *** The level transition *)

Lemma filter_live_nil (bs : list (Block N)) :
  (List.length (List.filter (fun block => negb (destroyed block)) bs) =? 0)%nat
  = all_destroyed bs.
Proof.
  induction bs as [|b bs IH]; simpl; [reflexivity|].
  destruct (destroyed b); simpl; [exact IH | reflexivity].
Qed.

Lemma checkLevelComplete_cleared (e : Engine N) :
  all_destroyed (blocks (gameState e)) = true ->
  checkLevelComplete e = nextLevel e.
Proof. intros Hall. unfold checkLevelComplete. now rewrite filter_live_nil, Hall. Qed.


(** What [nextLevel] leaves behind: the level is one higher, the grid is the
    one generated for it, the ball sits above the middle of the paddle, and
    its velocity is the reset velocity [(3, -3)] rescaled from its own
    magnitude to that magnitude plus [speedIncrease].  The velocity the ball
    had before the call does not occur on the right-hand side. *)
Lemma nextLevel_result (e : Engine N) :
  let g := gameState e in
  let g' := gameState (nextLevel e) in
  let s0 := speed {| vel_x := ofZ 3; vel_y := ofZ (-3) |} in
  level g' = (level g + 1)%Z
  /\ blocks g' = generateBlocks (config e) (level g + 1)
  /\ ball_position (ball g')
     = {| pos_x := pos_x (paddle_position (paddle g)) + paddle_width (paddle g) / ofZ 2;
          pos_y := pos_y (paddle_position (paddle g)) - ball_radius (ball g) - ofZ 5 |}
  /\ ball_velocity (ball g')
     = {| vel_x := (ofZ 3 / s0) * (s0 + speedIncrease);
          vel_y := (ofZ (-3) / s0) * (s0 + speedIncrease) |}.
Proof. simpl. now repeat split. Qed.

Lemma nextLevel_velocity_constant (e e' : Engine N) :
  ball_velocity (ball (gameState (nextLevel e)))
  = ball_velocity (ball (gameState (nextLevel e'))).
Proof. reflexivity. Qed.
(** *** One block per frame *)

End Statements.

(** ** What holds in every reachable state *)

Section Invariants.
Context {N : Type} `{Number N}.
Local Open Scope num_scope.

Lemma update_same_env (dt : N) (e : Engine N) : same_env e (update dt e).
Proof.
  destruct (isRunning (gameState e)) eqn:Hr;
    [destruct (isPaused (gameState e)) eqn:Hp|].
  - rewrite update_idle by now right. apply same_env_refl.
  - now destruct (update_frame dt e Hr Hp).
  - rewrite update_idle by now left. apply same_env_refl.
Qed.

Lemma start_running (e : Engine N) :
  isRunning (gameState e) = true -> start e = e.
Proof. intros Hr. unfold start. now rewrite Hr. Qed.

Lemma start_idle (e : Engine N) :
  isRunning (gameState e) = false -> start e = update (ofZ 0) (started e).
Proof. intros Hr. unfold start. now rewrite Hr. Qed.

Lemma start_same_env (e : Engine N) : same_env e (start e).
Proof.
  destruct (isRunning (gameState e)) eqn:Hr.
  - rewrite start_running by assumption. apply same_env_refl.
  - rewrite start_idle by assumption.
    apply same_env_trans with (started e); [now repeat split | apply update_same_env].
Qed.

Lemma update_well_formed (dt : N) (e : Engine N) :
  well_formed (gameState e) -> well_formed (gameState (update dt e)).
Proof.
  intros [Hl Hb].
  destruct (isRunning (gameState e)) eqn:Hr;
    [destruct (isPaused (gameState e)) eqn:Hp|].
  - rewrite update_idle by now right. now split.
  - destruct (update_frame dt e Hr Hp) as (_ & _ & _ & _ & HLB & _).
    destruct HLB as [[HL [HB | (i & blk & Hi & HB)]] | [HL HB]]; split;
      rewrite ?HL, ?HB; try assumption; try lia.
    + apply Forall_insert; [assumption|]. simpl.
      apply (proj1 (Forall_lookup _ _) Hb i blk Hi).
    + apply generateBlocks_points_pos.
  - rewrite update_idle by now left. now split.
Qed.

Lemma start_well_formed (e : Engine N) :
  well_formed (gameState e) -> well_formed (gameState (start e)).
Proof.
  intros Hwf. unfold start. destruct (negb (isRunning (gameState e))); [|assumption].
  apply update_well_formed. exact Hwf.
Qed.

Lemma initializeGame_well_formed (cfg : GameConfig N) : well_formed (initializeGame cfg).
Proof. split; simpl; [lia | apply generateBlocks_points_pos]. Qed.

Lemma updateCanvasSize_well_formed (e : Engine N) :
  well_formed (gameState e) -> well_formed (gameState (updateCanvasSize e)).
Proof.
  intros [Hl Hb]. unfold updateCanvasSize. simpl.
  destruct (negb (level (gameState e) =? 0)%Z); split; simpl; try assumption.
  apply generateBlocks_points_pos.
Qed.

Lemma handle_well_formed (ev : Event N) (e : Engine N) :
  well_formed (gameState e) -> well_formed (gameState (handle ev e)).
Proof.
  intros Hwf. destruct ev; cbn [handle].
  - unfold keyDownHandler. split_ifs; try assumption;
      try (now apply start_well_formed).
  - unfold keyUpHandler. split_ifs; assumption.
  - unfold touchStartHandler. split_ifs; [now apply start_well_formed | assumption].
  - unfold touchMoveHandler. now destruct touches.
  - assumption.
  - assumption.
  - unfold clickHandler. split_ifs; [now apply start_well_formed | assumption].
  - now apply update_well_formed.
  - now apply start_well_formed.
  - assumption.
  - assumption.
  - apply initializeGame_well_formed.
  - apply (updateCanvasSize_well_formed (set_canvas (mkCanvas width height) e)).
    exact Hwf.
Qed.

Lemma reachable_well_formed (e : Engine N) :
  reachable e -> well_formed (gameState e).
Proof.
  induction 1 as [c | ev e _ IH].
  - apply initializeGame_well_formed.
  - now apply handle_well_formed.
Qed.

Lemma run_reachable (evs : list (Event N)) (e : Engine N) :
  reachable e -> reachable (run evs e).
Proof.
  revert e. induction evs as [|ev evs IH]; intros e He; simpl; [assumption|].
  apply IH. now constructor.
Qed.

(** The configuration is always the one [updateConfig] computes; in
    particular the configured ball speed is 6. *)
Lemma handle_config (ev : Event N) (e : Engine N) :
  config (handle ev e) = config e \/ exists c, config (handle ev e) = configOf c.
Proof.
  assert (Hstart : forall e1 : Engine N, config (start e1) = config e1).
  { intros e1. now destruct (start_same_env e1) as (_ & Hc & _). }
  assert (Hupdate : forall (dt : N) (e1 : Engine N), config (update dt e1) = config e1).
  { intros dt e1. now destruct (update_same_env dt e1) as (_ & Hc & _). }
  destruct ev; cbn [handle];
    [left | left | left | left | left | left | left | left | left | left | left | left
    | right; eexists; reflexivity];
    unfold keyDownHandler, keyUpHandler, touchStartHandler, touchMoveHandler,
      mouseMoveHandler, clickHandler, gameLoop;
    split_ifs;
    repeat match goal with
           | |- context [match ?o with Some _ => _ | None => _ end] => destruct o
           end;
    rewrite ?Hstart, ?Hupdate; reflexivity.
Qed.

Lemma reachable_ballSpeed (e : Engine N) : reachable e -> ballSpeed (config e) = ofZ 6.
Proof.
  induction 1 as [c | ev e _ IH]; [reflexivity|].
  destruct (handle_config ev e) as [-> | (c & ->)]; [exact IH | reflexivity].
Qed.


End Invariants.

(** ** Lifecycle, resize and controls *)

Section Lifecycle.
Context {N : Type} `{Number N}.
Local Open Scope num_scope.


(** The blocks after [updateCanvasSize], for any engine: the guard
    [if (this.gameState.level)] is what the regeneration depends on. *)
Lemma updateCanvasSize_blocks (e : Engine N) :
  blocks (gameState (updateCanvasSize e))
  = if (level (gameState e) =? 0)%Z then blocks (gameState e)
    else generateBlocks (config (updateCanvasSize e)) (level (gameState e)).
Proof. unfold updateCanvasSize. simpl. now destruct (level (gameState e) =? 0)%Z. Qed.



(** *** Lives and score in one frame *)

Lemma update_counters (dt : N) (e : Engine N) :
  well_formed (gameState e) ->
  let g := gameState e in
  let g' := gameState (update dt e) in
  (score g <= score g')%Z
  /\ (lives g' = lives g \/ lives g' = lives g - 1)%Z
  /\ (1 <= lives g -> 0 <= lives g')%Z
  /\ (isRunning g = true -> isPaused g = false -> (lives g' <= 0)%Z ->
      isRunning g' = false).
Proof.
  intros [_ Hpts] g g'. subst g g'.
  destruct (isRunning (gameState e)) eqn:Hr;
    [destruct (isPaused (gameState e)) eqn:Hp|].
  - rewrite update_idle by now right.
    repeat split; try lia; try (now left); intros; congruence.
  - destruct (update_frame dt e Hr Hp) as (_ & _ & Hl & Hrun & _ & _ & Hs).
    repeat split.
    + destruct Hs as [-> | (blk & Hin & _ & ->)]; [lia|].
      pose proof (proj1 (Forall_forall _ _) Hpts blk Hin). simpl in *. lia.
    + exact Hl.
    + lia.
    + intros _ _ Hle. rewrite Hrun. apply Z.ltb_ge. exact Hle.
  - rewrite update_idle by now left.
    repeat split; try lia; try (now left); intros; congruence.
Qed.
End Lifecycle.

(** ** Runs of the binary64 engine *)

(** Closed statements about a concrete run are settled by running it. *)
Ltac by_evaluation :=
  repeat match goal with |- _ /\ _ => split end;
  vm_compute; reflexivity.

Lemma game_over_reachable : reachable game_over.
Proof. apply run_reachable. constructor. Qed.

Lemma last_block_reachable : reachable last_block.
Proof. apply run_reachable. constructor. Qed.

(** C1.  The level transition on a run of the engine.  [last_block] is
    reachable, at level 1, with one block left; its next frame destroys that
    block and ends in [nextLevel], which moves to level 2, regenerates the
    grid and puts the ball back above the paddle.  When [nextLevel] is
    entered the ball moves down and to the right at a speed above 5; when it
    returns the ball moves up at a speed below 5, the same speed and
    direction as after any other transition: the speed is not the previous
    one plus 0.2 and the direction is not the previous one.  On a canvas
    with no column of blocks every frame is a transition, and the second no
    longer changes the velocity at all. *)
Theorem C1_level_transition_speed :
  let after := update (ofZ 16) last_block in
  let v0 := ball_velocity (ball (gameState before_transition)) in
  let v1 := ball_velocity (ball (gameState after)) in
  (reachable last_block
   /\ isRunning (gameState last_block) = true
   /\ isPaused (gameState last_block) = false
   /\ level (gameState last_block) = 1
   /\ map destroyed (blocks (gameState last_block)) = false :: repeat true 5)
  /\ (all_destroyed (blocks (gameState before_transition)) = true
      /\ after = nextLevel before_transition
      /\ level (gameState after) = 2
      /\ blocks (gameState after) = generateBlocks (config last_block) 2
      /\ ball_position (ball (gameState after)) = {| pos_x := ofZ 120; pos_y := ofZ 132 |})
  /\ (lt (ofZ 5) (speed v0) = true
      /\ lt (speed v1) (ofZ 5) = true
      /\ lt (speed v1) (add (speed v0) speedIncrease) = true
      /\ lt (ofZ 0) (vel_y v0) = true
      /\ lt (vel_y v1) (ofZ 0) = true
      /\ v1 = ball_velocity (ball (gameState (nextLevel fresh_engine))))
  /\ (all_destroyed (blocks (gameState no_blocks)) = true
      /\ level (gameState (update (ofZ 16) no_blocks)) = level (gameState no_blocks) + 1
      /\ ball_velocity (ball (gameState (update (ofZ 16) no_blocks)))
         = ball_velocity (ball (gameState no_blocks))).
Proof.
  intros after v0 v1. subst after v0 v1.
  split; [split; [exact last_block_reachable|]|]; by_evaluation.
Qed.

(** C4.  Lives below zero on a run of the engine.  [game_over] is reachable
    and is the state the specification calls terminal: no life left, not
    running.  A click on the canvas (or the Start button, or the space key)
    calls [start], which does not look at [lives]: it sets the flags and
    enters [update], and that frame loses a life again.  The click leaves the
    engine with [lives = -1]. *)
Theorem C4_lives_below_zero :
  (reachable game_over
   /\ lives (gameState game_over) = 0
   /\ isRunning (gameState game_over) = false)
  /\ (frame_entry (started game_over)
      /\ (0 <= lives (gameState (started game_over)))
      /\ lives (gameState (update (ofZ 0) (started game_over))) = -1)
  /\ (reachable (handle Click game_over)
      /\ handle Click game_over = update (ofZ 0) (started game_over)
      /\ lives (gameState (handle Click game_over)) = -1
      /\ score (gameState (handle Click game_over)) = score (gameState game_over)
      /\ isRunning (gameState (handle Click game_over)) = false).
Proof.
  split; [split; [exact game_over_reachable | by_evaluation]|].
  split; [split|split].
  - refine (entry_start game_over game_over_reachable _). by_evaluation.
  - split; [vm_compute; discriminate | by_evaluation].
  - exact (reachable_step Click game_over game_over_reachable).
  - by_evaluation.
Qed.


(** *** The general statements at concrete engines *)

(** C3 on the fresh engine, which is not running. *)
Lemma C3_update_idle_unchanged_witness :
  update (ofZ 16) fresh_engine = fresh_engine
  /\ gameState (update (ofZ 16) fresh_engine) = gameState fresh_engine.
Proof.
  assert (Hidle : isRunning (gameState fresh_engine) = false)
    by (vm_compute; reflexivity).
  exact (C3_update_idle_unchanged (ofZ 16) fresh_engine (or_introl Hidle)).
Defined.


(** That frame, evaluated: the block at index 0, worth 30 points, is the
    first that is hit; the score goes from 90 to 120, and since no block is
    left the collection after the frame is the grid of level 2. *)
Example last_block_frame :
  let b := ball (gameState (checkCollisions_paddle (updateBall (updatePaddle last_block)))) in
  map (live_hit b) (blocks (gameState last_block)) = true :: repeat false 5
  /\ map points (blocks (gameState last_block)) = [30; 30; 20; 20; 10; 10]
  /\ score (gameState last_block) = 90
  /\ score (gameState (update (ofZ 16) last_block)) = 120
  /\ blocks (gameState (update (ofZ 16) last_block)) = generateBlocks (config last_block) 2.
Proof. intros b. subst b. by_evaluation. Qed.

(** C7 on the configuration of the fresh engine, 800 wide. *)
Lemma C7_generateBlocks_layout_witness :
  List.length (generateBlocks (config fresh_engine) 1) = 24%nat
  /\ map points (generateBlocks (config fresh_engine) 1)
     = repeat 30 8 ++ repeat 20 8 ++ repeat 10 8.
Proof.
  assert (Hwidth : canvasWidth (config fresh_engine) = 800)
    by (vm_compute; reflexivity).
  exact (proj2 (proj2 C7_generateBlocks_layout) (config fresh_engine) Hwidth).
Defined.




(** The run of the witness above, evaluated: the pointer at 300 puts the
    paddle at 250 although the left key is held. *)
Example pointer_beats_left_key :
  let p := {| clientX := ofZ 300; rect_left := ofZ 0; rect_css_width := ofZ 800 |} in
  let e' :=
    run (MouseMove p :: [KeyDown "ArrowLeft"; CallStart; AnimationFrame (ofZ 16)])
        fresh_engine in
  leftPressed (controls e') = true
  /\ touchX (controls e') = Some (ofZ 300)
  /\ pos_x (paddle_position (paddle (gameState e'))) = ofZ 250.
Proof. intros p e'. subst p e'. by_evaluation. Qed.

(** ** The object returned by [getGameState] *)

Section StoreFacts.
Context {N : Type}.

(** What [read_state] found in the store. *)
Lemma read_state_inv (h : Store N) (r : nat) (g : GameState N) :
  read_state h r = Some g ->
  exists rb rp rbs : nat,
    h !! r = Some (OGameState (isRunning g) (isPaused g) (score g) (lives g) (level g)
                              rb rp rbs)
    /\ h !! rb = Some (OBall (ball g))
    /\ h !! rp = Some (OPaddle (paddle g))
    /\ h !! rbs = Some (OBlocks (blocks g)).
Proof.
  unfold read_state. intros Hread.
  destruct (h !! r) as [[running paused sc li le rb rp rbs | | | ]|] eqn:Hr;
    try discriminate.
  destruct (h !! rb) as [[ | b | | ]|] eqn:Hb; try discriminate.
  destruct (h !! rp) as [[ | | p | ]|] eqn:Hp; try discriminate.
  destruct (h !! rbs) as [[ | | | bs]|] eqn:Hbs; try discriminate.
  injection Hread as <-. exists rb, rp, rbs. simpl. now repeat split.
Qed.

Lemma read_state_intro (h : Store N) (r rb rp rbs : nat) running paused sc li le b p bs :
  h !! r = Some (OGameState running paused sc li le rb rp rbs) ->
  h !! rb = Some (OBall b) -> h !! rp = Some (OPaddle p) -> h !! rbs = Some (OBlocks bs) ->
  read_state h r = Some (mkGameState running paused sc li le b p bs).
Proof. intros Hr Hb Hp Hbs. unfold read_state. now rewrite Hr, Hb, Hp, Hbs. Qed.

(** Writing a cell that the state object at [r] does not reach leaves the
    state read at [r] as it was. *)
Lemma read_state_insert_other (h : Store N) (s r : nat) (o : Obj N) (g : GameState N) :
  read_state h r = Some g ->
  s <> r ->
  (forall rb rp rbs running paused sc li le,
      h !! r = Some (OGameState running paused sc li le rb rp rbs) ->
      s <> rb /\ s <> rp /\ s <> rbs) ->
  read_state (<[s := o]> h) r = Some g.
Proof.
  intros Hread Hsr Hs.
  destruct (read_state_inv h r g Hread) as (rb & rp & rbs & Hr & Hb & Hp & Hbs).
  destruct (Hs _ _ _ _ _ _ _ _ Hr) as (H1 & H2 & H3).
  destruct g. simpl in *.
  apply read_state_intro with (rb := rb) (rp := rp) (rbs := rbs);
    rewrite lookup_insert_ne by assumption; assumption.
Qed.

Lemma read_state_insert_fresh (h : Store N) (s r : nat) (o : Obj N) (g : GameState N) :
  read_state h r = Some g -> h !! s = None ->
  read_state (<[s := o]> h) r = Some g.
Proof.
  intros Hread Hfresh.
  destruct (read_state_inv h r g Hread) as (rb & rp & rbs & Hr & Hb & Hp & Hbs).
  apply read_state_insert_other; [assumption | congruence |].
  intros rb' rp' rbs' ? ? ? ? ? Hr'. rewrite Hr in Hr'. simplify_eq.
  repeat split; congruence.
Qed.

(** [getGameState] on a store that holds a state at [r]: the new object is
    at a reference that was free, and has the fields of the object at [r],
    references included. *)
Lemma getGameState_spec (h : Store N) (r : nat) (g : GameState N) :
  read_state h r = Some g ->
  exists (rb rp rbs s : nat) (o : Obj N),
    o = OGameState (isRunning g) (isPaused g) (score g) (lives g) (level g) rb rp rbs
    /\ h !! r = Some o
    /\ h !! rb = Some (OBall (ball g))
    /\ h !! rp = Some (OPaddle (paddle g))
    /\ h !! rbs = Some (OBlocks (blocks g))
    /\ h !! s = None
    /\ getGameState h r = Some (<[s := o]> h, s).
Proof.
  intros Hread.
  destruct (read_state_inv h r g Hread) as (rb & rp & rbs & Hr & Hb & Hp & Hbs).
  exists rb, rp, rbs, (fresh (dom h)). eexists. split; [reflexivity|].
  repeat split; try assumption.
  - apply not_elem_of_dom. apply is_fresh.
  - unfold getGameState. now rewrite Hr.
Qed.

(** A mutation of the block array through any state object that refers to
    it is seen through every other state object that refers to it. *)
Lemma mutate_blocks_shared (h : Store N) (r s rb rp rbs : nat)
      (f : list (Block N) -> list (Block N)) (g : GameState N)
      running paused sc li le rb' rp' :
  h !! r = Some (OGameState (isRunning g) (isPaused g) (score g) (lives g) (level g)
                            rb rp rbs) ->
  h !! rb = Some (OBall (ball g)) ->
  h !! rp = Some (OPaddle (paddle g)) ->
  h !! rbs = Some (OBlocks (blocks g)) ->
  h !! s = Some (OGameState running paused sc li le rb' rp' rbs) ->
  read_state (mutate_blocks f s h) r = Some (set_blocks (f (blocks g)) g).
Proof.
  intros Hr Hb Hp Hbs Hs. unfold mutate_blocks. rewrite Hs, Hbs.
  apply read_state_intro with (rb := rb) (rp := rp) (rbs := rbs).
  - rewrite lookup_insert_ne by congruence. exact Hr.
  - rewrite lookup_insert_ne by congruence. exact Hb.
  - rewrite lookup_insert_ne by congruence. exact Hp.
  - apply lookup_insert_eq.
Qed.

(** C2 (amended).  [getGameState] returns a new object whose properties are
    those of the engine's state object, copied one level deep.  The state
    read through it is the engine's state, and no assignment to a property
    of the returned object changes the state the engine reads.  The ball,
    the paddle and the block array are not copied: the returned object refers
    to the engine's own, and a mutation of the block array through the
    returned object is a mutation of the engine's blocks. *)
Theorem C2_snapshot_is_shallow (h : Store N) (r : nat) (g : GameState N) :
  read_state h r = Some g ->
  exists (h' : Store N) (s : nat),
    getGameState h r = Some (h', s)
    /\ h !! s = None
    /\ read_state h' s = Some g
    /\ read_state h' r = Some g
    /\ (forall a : Assignment, read_state (assign a s h') r = Some g)
    /\ (exists rb rp rbs : nat,
           h' !! r = Some (OGameState (isRunning g) (isPaused g) (score g) (lives g)
                                      (level g) rb rp rbs)
           /\ h' !! s = Some (OGameState (isRunning g) (isPaused g) (score g) (lives g)
                                         (level g) rb rp rbs))
    /\ (forall f : list (Block N) -> list (Block N),
           read_state (mutate_blocks f s h') r = Some (set_blocks (f (blocks g)) g)).
Proof.
  intros Hread.
  destruct (getGameState_spec h r g Hread)
    as (rb & rp & rbs & s & o & -> & Hr & Hb & Hp & Hbs & Hs & Hget).
  assert (Hsr : s <> r) by congruence.
  assert (Hsb : s <> rb) by congruence.
  assert (Hsp : s <> rp) by congruence.
  assert (Hsbs : s <> rbs) by congruence.
  eexists _, s. split; [exact Hget|]. split; [exact Hs|].
  split; [|split; [|split; [|split]]].
  - destruct g. simpl in *.
    apply read_state_intro with (rb := rb) (rp := rp) (rbs := rbs);
      [apply lookup_insert_eq | | | ]; rewrite lookup_insert_ne by assumption; assumption.
  - now apply read_state_insert_fresh.
  - intros a. unfold assign. rewrite lookup_insert_eq, insert_insert_eq.
    now apply read_state_insert_fresh.
  - exists rb, rp, rbs. split; [now rewrite lookup_insert_ne | apply lookup_insert_eq].
  - intros f.
    apply mutate_blocks_shared with (rb := rb) (rp := rp) (rbs := rbs)
      (running := isRunning g) (paused := isPaused g) (sc := score g) (li := lives g)
      (le := level g) (rb' := rb) (rp' := rp);
      try (rewrite lookup_insert_ne by assumption; assumption).
    apply lookup_insert_eq.
Qed.
End StoreFacts.

Lemma fresh_store_holds_state :
  read_state (fst fresh_store) (snd fresh_store) = Some (gameState fresh_engine).
Proof. vm_compute. reflexivity. Qed.

(** C2 as the specification words it fails: on the store of the fresh
    engine the caller sets [destroyed] on the first block of the array it
    was given; the first block of the engine's own state is then destroyed. *)
Lemma C2_snapshot_counterexample :
  match fresh_snapshot with
  | Some (h', s) =>
      let engine_blocks (h : Store float) :=
        option_map (fun g => map destroyed (blocks g)) (read_state h (snd fresh_store)) in
      engine_blocks h' = Some (repeat false 24)
      /\ engine_blocks (mutate_blocks (destroy_block_at 0 true) s h')
         = Some (true :: repeat false 23)
  | None => False
  end.
Proof. vm_compute. split; reflexivity. Qed.

(** C2 (amended) on the store of the fresh engine. *)
Lemma C2_snapshot_is_shallow_witness :
  exists (h' : Store float) (s : nat),
    getGameState (fst fresh_store) (snd fresh_store) = Some (h', s)
    /\ fst fresh_store !! s = None
    /\ read_state h' s = Some (gameState fresh_engine)
    /\ read_state h' (snd fresh_store) = Some (gameState fresh_engine)
    /\ (forall a : Assignment,
           read_state (assign a s h') (snd fresh_store) = Some (gameState fresh_engine))
    /\ (exists rb rp rbs : nat,
           h' !! snd fresh_store
           = Some (OGameState (isRunning (gameState fresh_engine))
                              (isPaused (gameState fresh_engine))
                              (score (gameState fresh_engine))
                              (lives (gameState fresh_engine))
                              (level (gameState fresh_engine)) rb rp rbs)
           /\ h' !! s
              = Some (OGameState (isRunning (gameState fresh_engine))
                                 (isPaused (gameState fresh_engine))
                                 (score (gameState fresh_engine))
                                 (lives (gameState fresh_engine))
                                 (level (gameState fresh_engine)) rb rp rbs))
    /\ (forall f : list (Block float) -> list (Block float),
           read_state (mutate_blocks f s h') (snd fresh_store)
           = Some (set_blocks (f (blocks (gameState fresh_engine)))
                              (gameState fresh_engine))).
Proof.
  exact (C2_snapshot_is_shallow (fst fresh_store) (snd fresh_store)
           (gameState fresh_engine) fresh_store_holds_state).
Defined.

(** ** The paddle bounce in exact arithmetic *)

Section RealFacts.
Local Open Scope R_scope.

Lemma Rltb_true (a b : R) : a < b -> Rltb a b = true.
Proof. intros Hab. unfold Rltb. now destruct (Rlt_dec a b). Qed.

Lemma hitPos_range (paddle : Paddle R) (ball : Ball R) : -1 <= hitPos paddle ball <= 1.
Proof.
  unfold hitPos. simpl. split.
  - apply Rmax_l.
  - apply Rmax_lub; [lra | apply Rmin_l].
Qed.

(** Scaling a vector with a non-zero second component to length 6. *)
Lemma rescaled_speed (a v : R) :
  v <> 0 ->
  let s := sqrt (a * a + v * v) in
  0 < s /\ sqrt (a / s * 6 * (a / s * 6) + v / s * 6 * (v / s * 6)) = 6.
Proof.
  intros Hv s.
  assert (Hpos : 0 < a * a + v * v) by nra.
  assert (Hs : 0 < s) by (apply sqrt_lt_R0; exact Hpos).
  assert (Hs2 : s * s = a * a + v * v) by (apply sqrt_sqrt; lra).
  split; [exact Hs|].
  replace (a / s * 6 * (a / s * 6) + v / s * 6 * (v / s * 6))
    with ((a * a + v * v) / (s * s) * (6 * 6)) by (field; lra).
  rewrite <- Hs2. replace (s * s / (s * s)) with 1 by (field; lra).
  rewrite Rmult_1_l. apply sqrt_square. lra.
Qed.

(** What the paddle step computes, in exact arithmetic: when the ball
    overlaps the paddle ([isColliding], the rounded-rectangle test) and moves
    down, the paddle step of [checkCollisions] leaves it moving strictly up
    at speed exactly 6, the configured ball speed.  The new velocity is the vector
    [(hitPos * 5, -vy)] rescaled to length 6, where [hitPos], the offset of
    the ball from the middle of the paddle in half paddle widths, is clamped
    to [-1, 1]. *)
Lemma paddle_bounce_exact (e : Engine R) :
  let g := gameState e in
  let vy := vel_y (ball_velocity (ball g)) in
  let h := hitPos (paddle g) (ball g) in
  let v' := ball_velocity (ball (gameState (checkCollisions_paddle e))) in
  isColliding (ball g) (paddle_rect (paddle g)) = true ->
  0 < vy ->
  ballSpeed (config e) = 6 ->
  vel_y v' < 0
  /\ speed v' = 6
  /\ -1 <= h <= 1
  /\ v' = {| vel_x := h * 5 / sqrt (h * 5 * (h * 5) + vy * vy) * 6;
             vel_y := - vy / sqrt (h * 5 * (h * 5) + vy * vy) * 6 |}.
Proof.
  intros g vy h v' Hcol Hvy Hspeed.
  assert (Hv' : v' = {| vel_x := h * 5 / sqrt (h * 5 * (h * 5) + vy * vy) * 6;
                        vel_y := - vy / sqrt (h * 5 * (h * 5) + vy * vy) * 6 |}).
  { subst v'. unfold checkCollisions_paddle. fold g. rewrite Hcol.
    change (vel_y (ball_velocity (ball g))) with vy.
    change (lt (ofZ 0) vy) with (Rltb 0 vy). rewrite (Rltb_true 0 vy Hvy).
    cbn [andb]. unfold paddleBounce. simpl. fold g. fold vy. rewrite Hspeed.
    change (Rmax _ _) with h.
    rewrite (Rabs_pos_eq vy) by lra.
    replace (- vy * - vy) with (vy * vy) by ring. reflexivity. }
  destruct (rescaled_speed (h * 5) (- vy) ltac:(lra)) as [Hs Hlen].
  replace (- vy * - vy) with (vy * vy) in Hs, Hlen by ring.
  rewrite Hv'. unfold speed. simpl.
  split; [|split; [|split]].
  - assert (0 < / sqrt (h * 5 * (h * 5) + vy * vy)) by now apply Rinv_0_lt_compat.
    unfold Rdiv. nra.
  - exact Hlen.
  - apply hitPos_range.
  - reflexivity.
Qed.
End RealFacts.

(** Deciding comparisons of explicit reals. *)
Ltac real_eval :=
  unfold Rltb, Rleb, Rabs;
  repeat match goal with
         | |- context [Rcase_abs ?x] => destruct (Rcase_abs x); try lra
         | |- context [Rlt_dec ?a ?b] => destruct (Rlt_dec a b); try lra
         | |- context [Rle_dec ?a ?b] => destruct (Rle_dec a b); try lra
         end;
  try reflexivity.

Lemma ball_on_paddle_collides :
  isColliding (ball (gameState ball_on_paddle))
              (paddle_rect (paddle (gameState ball_on_paddle))) = true.
Proof. unfold isColliding. simpl. real_eval. Qed.

(** The same on [ball_on_paddle]. *)
Lemma paddle_bounce_exact_example :
  let g := gameState ball_on_paddle in
  let vy := vel_y (ball_velocity (ball g)) in
  let h := hitPos (paddle g) (ball g) in
  let v' := ball_velocity (ball (gameState (checkCollisions_paddle ball_on_paddle))) in
  (vel_y v' < 0
   /\ speed v' = 6
   /\ -1 <= h <= 1
   /\ v' = {| vel_x := h * 5 / sqrt (h * 5 * (h * 5) + vy * vy) * 6;
              vel_y := - vy / sqrt (h * 5 * (h * 5) + vy * vy) * 6 |})%R.
Proof.
  assert (Hfalling : (0 < vel_y (ball_velocity (ball (gameState ball_on_paddle))))%R)
    by (simpl; lra).
  assert (Hspeed : ballSpeed (config ball_on_paddle) = 6%R) by reflexivity.
  exact (paddle_bounce_exact ball_on_paddle ball_on_paddle_collides Hfalling Hspeed).
Qed.

(** The same bounce on binary64: the ball goes up, and its speed is 6 to
    within one part in 10^15. *)
Example paddle_bounce_float :
  let v' := ball_velocity (ball (gameState (checkCollisions_paddle ball_on_paddle_float))) in
  isColliding (ball (gameState ball_on_paddle_float))
              (paddle_rect (paddle (gameState ball_on_paddle_float))) = true
  /\ lt (vel_y v') (ofZ 0) = true
  /\ lt (Math_abs (sub (speed v') (ofZ 6)))
        (div (ofZ 6) (ofZ 1000000000000000)) = true.
Proof. intros v'. subst v'. by_evaluation. Qed.

(** * More of the engine *)

(** ** Invariants of the reachable states *)

Section MoreInvariants.
Context {N : Type} `{Number N}.

Lemma set_destroyed_false_id (b : Block N) : destroyed b = false -> set_destroyed false b = b.
Proof. destruct b. simpl. now intros ->. Qed.

Lemma generateBlocks_clean (cfg : GameConfig N) (lvl : Z) :
  map (set_destroyed false) (generateBlocks cfg lvl) = generateBlocks cfg lvl.
Proof.
  pose proof (generateBlocks_undestroyed cfg lvl) as Hall.
  induction Hall as [|b bs Hb _ IH]; simpl; [reflexivity|].
  now rewrite IH, set_destroyed_false_id.
Qed.

Lemma generateBlocks_points_tens (cfg : GameConfig N) (lvl : Z) :
  Forall (fun b => 0 < points b /\ (10 | points b)) (generateBlocks cfg lvl).
Proof.
  unfold generateBlocks. apply Forall_flat_map, Forall_forall. intros r Hr.
  apply Forall_map, Forall_forall. intros c _. simpl.
  unfold loop_range in Hr. apply list_elem_of_In, in_map_iff in Hr as (k & <- & Hk).
  apply in_seq in Hk. split; [lia|]. apply Z.divide_factor_r.
Qed.

Lemma grid_points (cfg : GameConfig N) (lvl : Z) (bs : list (Block N)) (blk : Block N) :
  map (set_destroyed false) bs = generateBlocks cfg lvl ->
  blk ∈ bs -> 0 < points blk /\ (10 | points blk).
Proof.
  intros Hgrid Hin.
  pose proof (generateBlocks_points_tens cfg lvl) as Hall. rewrite <- Hgrid in Hall.
  apply (proj1 (Forall_forall _ _) Hall (set_destroyed false blk)).
  apply list_elem_of_In, in_map. now apply list_elem_of_In.
Qed.

Lemma grid_insert_destroyed (bs : list (Block N)) (i : nat) (blk : Block N) :
  bs !! i = Some blk ->
  map (set_destroyed false) (<[i := set_destroyed true blk]> bs)
  = map (set_destroyed false) bs.
Proof.
  intros Hi. change (@map (Block N) (Block N)) with (@fmap list _ (Block N) (Block N)).
  rewrite list_fmap_insert. apply list_insert_id.
  rewrite list_lookup_fmap, Hi. reflexivity.
Qed.

Lemma update_inv_run (dt : N) (e : Engine N) :
  engine_inv_weak e ->
  isRunning (gameState e) = true -> isPaused (gameState e) = false ->
  engine_inv (update dt e).
Proof.
  intros (Hcfg & Hlives & Hs0 & Hs10 & Hlvl & Hgrid) Hr Hp.
  destruct (update_frame dt e Hr Hp)
    as ((Hcv & Hcf & _) & _ & Hl & Hrun & HLB & _ & Hs).
  split; [|intros Hr'; rewrite Hrun in Hr'; apply Z.ltb_lt in Hr'; lia].
  unfold engine_inv_weak. rewrite Hcf, Hcv.
  assert (Hsc : 0 <= score (gameState (update dt e))
                /\ (10 | score (gameState (update dt e)))).
  { destruct Hs as [-> | (blk & Hin & _ & ->)]; [now split|].
    destruct (grid_points _ _ _ _ Hgrid Hin) as [Hpos Hdiv].
    split; [lia | now apply Z.divide_add_r]. }
  destruct Hsc as [Hsc0 Hsc10].
  split; [exact Hcfg|]. split; [destruct Hl as [-> | ->]; lia|].
  split; [exact Hsc0|]. split; [exact Hsc10|].
  split; [destruct HLB as [[-> _] | [-> _]]; lia|].
  destruct HLB as [[-> [-> | (i & blk & Hi & ->)]] | [-> ->]].
  - exact Hgrid.
  - now rewrite grid_insert_destroyed.
  - apply generateBlocks_clean.
Qed.

Lemma update_inv (dt : N) (e : Engine N) : engine_inv e -> engine_inv (update dt e).
Proof.
  intros [Hw Hrun].
  destruct (isRunning (gameState e)) eqn:Hr;
    [destruct (isPaused (gameState e)) eqn:Hp|].
  - rewrite update_idle by now right. split; [assumption | now rewrite Hr].
  - now apply update_inv_run.
  - rewrite update_idle by now left. split; [assumption | now rewrite Hr].
Qed.

Lemma start_inv (e : Engine N) : engine_inv e -> engine_inv (start e).
Proof.
  intros [Hw Hrun]. destruct (isRunning (gameState e)) eqn:Hr.
  - rewrite start_running by assumption. split; [assumption | now rewrite Hr].
  - rewrite start_idle by assumption. apply update_inv_run; [exact Hw | reflexivity..].
Qed.

Lemma handle_inv (ev : Event N) (e : Engine N) : engine_inv e -> engine_inv (handle ev e).
Proof.
  intros Hinv. destruct ev; cbn [handle].
  - unfold keyDownHandler.
    assert (Hl : engine_inv (set_leftPressed true e)) by exact Hinv.
    assert (Hr : engine_inv (set_rightPressed true e)) by exact Hinv.
    assert (Hlr : engine_inv (set_rightPressed true (set_leftPressed true e))) by exact Hinv.
    split_ifs; try (apply start_inv); try assumption;
      match goal with
      | |- engine_inv (resume ?e1) => assert (engine_inv e1) as [Hw Hrun] by assumption
      | |- engine_inv (pause ?e1) => assert (engine_inv e1) as [Hw Hrun] by assumption
      end; (split; [exact Hw | exact Hrun]).
  - unfold keyUpHandler. split_ifs; exact Hinv.
  - unfold touchStartHandler. split_ifs; [apply start_inv|]; exact Hinv.
  - unfold touchMoveHandler. destruct touches; exact Hinv.
  - exact Hinv.
  - exact Hinv.
  - unfold clickHandler. split_ifs; [now apply start_inv | exact Hinv].
  - now apply update_inv.
  - now apply start_inv.
  - destruct Hinv as [Hw Hrun]. split; [exact Hw | exact Hrun].
  - destruct Hinv as [Hw Hrun]. split; [exact Hw | exact Hrun].
  - destruct Hinv as [(Hcfg & _) _]. unfold reset, engine_inv, engine_inv_weak. simpl.
    rewrite Hcfg. simpl.
    repeat split; try lia; try discriminate.
    + apply Z.divide_0_r.
    + apply generateBlocks_clean.
  - destruct Hinv as [(_ & Hlives & Hs0 & Hs10 & Hlvl & _) Hrun].
    unfold updateCanvasSize, engine_inv, engine_inv_weak. simpl.
    destruct (Z.eqb_spec (level (gameState e)) 0) as [Hz | _]; [lia|]. simpl.
    repeat split; try assumption. apply generateBlocks_clean.
Qed.

Lemma newGameEngine_inv (c : Canvas) : engine_inv (newGameEngine c).
Proof.
  unfold engine_inv, engine_inv_weak. simpl.
  repeat split; try lia; try discriminate.
  - apply Z.divide_0_r.
  - apply generateBlocks_clean.
Qed.

Lemma reachable_inv (e : Engine N) : reachable e -> engine_inv e.
Proof.
  induction 1 as [c | ev e _ IH]; [apply newGameEngine_inv | now apply handle_inv].
Qed.
End MoreInvariants.

(** ** Resizing *)

Section ResizeFacts.
Context {N : Type} `{Number N}.
Local Open Scope num_scope.

Lemma generateBlocks_cols (cfg cfg' : GameConfig N) (lvl : Z) :
  block_cols cfg = block_cols cfg' -> generateBlocks cfg lvl = generateBlocks cfg' lvl.
Proof. intros Hc. unfold generateBlocks. now rewrite Hc. Qed.

(** C9. Resizing a reachable engine, to whatever size the canvas now has,
    leaves no destroyed block: the collection becomes the full grid of the
    current level for the new width, every block in its place and not
    destroyed.  When the new width gives as many columns as the old one (in
    particular when the width is unchanged), that grid is the old
    collection with every destroyed block restored.  Score, lives, level
    and the two flags are as before. *)
Theorem C9_resize_restores_blocks (c : Canvas) (e : Engine N) :
  reachable e ->
  let e' := updateCanvasSize (set_canvas c e) in
  let g := gameState e in
  let g' := gameState e' in
  let rows := Z.min (3 + level g / 2)%Z 8 in
  let cols := ((canvas_width c - 70) / 85)%Z in
  (score g' = score g /\ lives g' = lives g /\ level g' = level g
   /\ isRunning g' = isRunning g /\ isPaused g' = isPaused g)
  /\ Forall (fun blk => destroyed blk = false) (blocks g')
  /\ List.length (blocks g') = (Z.to_nat rows * Z.to_nat cols)%nat
  /\ (forall r k : Z,
         (0 <= r < rows)%Z -> (0 <= k < cols)%Z ->
         blocks g' !! Z.to_nat (r * cols + k)
         = Some {| block_position :=
                     {| pos_x := ofZ (35 + k * 85)%Z; pos_y := ofZ (60 + r * 30)%Z |};
                   block_width := ofZ 80;
                   block_height := ofZ 25;
                   block_color := nth (Z.to_nat (r mod 8)) colors ""%string;
                   destroyed := false;
                   points := ((rows - r) * 10)%Z |})
  /\ (((canvas_width (canvas e) - 70) / 85)%Z = cols ->
      List.length (blocks g') = List.length (blocks g)
      /\ blocks g' = map (set_destroyed false) (blocks g)
      /\ forall (i : nat) (blk : Block N),
           blocks g !! i = Some blk -> blocks g' !! i = Some (set_destroyed false blk)).
Proof.
  intros Hreach e' g g' rows cols.
  destruct (reachable_inv e Hreach) as [(Hcfg & _ & _ & _ & Hlevel & Hgrid) _].
  fold g in Hlevel, Hgrid.
  assert (Hg' : g' = set_blocks (generateBlocks (configOf c) (level g))
                       (gameState (updateCanvasSize (set_canvas c e)))
                /\ score g' = score g /\ lives g' = lives g /\ level g' = level g
                /\ isRunning g' = isRunning g /\ isPaused g' = isPaused g).
  { subst g' e'. unfold updateCanvasSize. simpl. fold g.
    destruct (Z.eqb_spec (level g) 0) as [Hz | _]; [lia|]. simpl. now repeat split. }
  destruct Hg' as (Hb & Hs & Hl & Hlv & Hr & Hp).
  assert (Hblocks : blocks g' = generateBlocks (configOf c) (level g))
    by (rewrite Hb; reflexivity).
  split; [now repeat split|]. rewrite Hblocks.
  split; [apply generateBlocks_undestroyed|].
  split; [apply generateBlocks_length|].
  split; [intros r k Hr' Hk; apply (generateBlocks_lookup (configOf c) (level g) r k Hr' Hk)|].
  intros Hcols.
  assert (Hsame : generateBlocks (configOf c) (level g) = map (set_destroyed false) (blocks g)).
  { rewrite Hgrid. apply generateBlocks_cols. rewrite Hcfg. exact (eq_sym Hcols). }
  rewrite Hsame. split; [apply length_map|]. split; [reflexivity|].
  intros i blk Hi.
  change (@map (Block N) (Block N)) with (@fmap list _ (Block N) (Block N)).
  rewrite list_lookup_fmap, Hi. reflexivity.
Qed.
End ResizeFacts.

(** C9 on [last_block], five of whose six blocks are destroyed, when
    [updateCanvasSize] is called with the canvas at its old size: all six
    are back. *)
Lemma C9_resize_restores_blocks_witness :
  let g := gameState last_block in
  let g' := gameState (updateCanvasSize (set_canvas (mkCanvas 240 180) last_block)) in
  List.length (blocks g') = List.length (blocks g)
  /\ blocks g' = map (set_destroyed false) (blocks g)
  /\ forall (i : nat) (blk : Block float),
       blocks g !! i = Some blk -> blocks g' !! i = Some (set_destroyed false blk).
Proof.
  assert (Hcols : (canvas_width (canvas last_block) - 70) / 85
                  = (canvas_width (mkCanvas 240 180) - 70) / 85)
    by (vm_compute; reflexivity).
  exact (proj2 (proj2 (proj2 (proj2
           (C9_resize_restores_blocks (mkCanvas 240 180) last_block last_block_reachable)))) Hcols).
Defined.

(** The flags before and after that call, and after a resize to 400 by 300,
    which has three columns where there were two. *)
Example last_block_resized :
  map destroyed (blocks (gameState last_block)) = false :: repeat true 5
  /\ map destroyed
         (blocks (gameState (updateCanvasSize (set_canvas (mkCanvas 240 180) last_block))))
     = repeat false 6
  /\ map destroyed
         (blocks (gameState (updateCanvasSize (set_canvas (mkCanvas 400 300) last_block))))
     = repeat false 9.
Proof. by_evaluation. Qed.

Section MoreStatements.
Context {N : Type} `{Number N}.

(** X1. In every reachable state the configuration is the one computed from
    the canvas, there are at most 3 lives, the score is a non-negative
    multiple of 10, the level is at least 1, and a running game has at least
    one life. *)
Theorem reachable_counters (e : Engine N) :
  reachable e ->
  let g := gameState e in
  config e = configOf (canvas e)
  /\ lives g <= 3
  /\ 0 <= score g /\ (10 | score g)
  /\ 1 <= level g
  /\ (isRunning g = true -> 1 <= lives g).
Proof.
  intros Hreach.
  destruct (reachable_inv e Hreach) as [(Hc & Hl & Hs & Hs10 & Hlvl & _) Hrun].
  simpl. repeat split; assumption.
Qed.

(** X2. In every reachable state the block collection is the grid generated
    for the current level and configuration, except for the [destroyed]
    flags: no block is ever added, removed, moved or revalued. *)
Theorem reachable_grid (e : Engine N) :
  reachable e ->
  let g := gameState e in
  map (set_destroyed false) (blocks g) = generateBlocks (config e) (level g)
  /\ List.length (blocks g)
     = (Z.to_nat (block_rows (level g)) * Z.to_nat (block_cols (config e)))%nat
  /\ forall (i : nat) (blk : Block N),
       blocks g !! i = Some blk ->
       generateBlocks (config e) (level g) !! i = Some (set_destroyed false blk).
Proof.
  intros Hreach.
  destruct (reachable_inv e Hreach) as [(_ & _ & _ & _ & _ & Hgrid) _].
  simpl. split; [exact Hgrid|]. split.
  - rewrite <- (generateBlocks_length (config e)), <- Hgrid. now rewrite length_map.
  - intros i blk Hi. rewrite <- Hgrid.
    change (@map (Block N) (Block N)) with (@fmap list _ (Block N) (Block N)).
    rewrite list_lookup_fmap, Hi. reflexivity.
Qed.

Lemma start_lives (e : Engine N) :
  let g := gameState e in
  let g' := gameState (start e) in
  lives g' = lives g \/ (isRunning g = false /\ lives g' = lives g - 1).
Proof.
  simpl. destruct (isRunning (gameState e)) eqn:Hr.
  - rewrite start_running by assumption. now left.
  - rewrite start_idle by assumption.
    destruct (update_frame (ofZ 0) (started e) eq_refl eq_refl)
      as (_ & _ & [Hl | Hl] & _); [now left | right]. now split.
Qed.

(** X3. Where lives can go below zero.  From a reachable state with
    [lives >= 0] a single event leaves [lives < 0] only if it is one whose
    handler calls [start] (space key, touch start, click, the Start button)
    and the game was over: not running, with no life left.  An animation
    frame never does. *)
Theorem lives_negative_only_by_start (ev : Event N) (e : Engine N) :
  reachable e ->
  0 <= lives (gameState e) ->
  lives (gameState (handle ev e)) < 0 ->
  calls_start ev = true
  /\ isRunning (gameState e) = false
  /\ lives (gameState e) = 0
  /\ lives (gameState (handle ev e)) = -1.
Proof.
  intros Hreach Hpos Hneg.
  destruct (reachable_inv e Hreach) as [_ Hrun].
  assert (Hstart : forall e1 : Engine N,
             gameState e1 = gameState e ->
             lives (gameState (start e1)) < 0 ->
             isRunning (gameState e) = false /\ lives (gameState e) = 0
             /\ lives (gameState (start e1)) = -1).
  { intros e1 He1 Hn. destruct (start_lives e1) as [Hl | [Hr Hl]];
      rewrite He1 in *; [lia|]. repeat split; try assumption; lia. }
  destruct ev; cbn [handle calls_start] in *.
  - unfold keyDownHandler in *.
    destruct (code =? "Space")%string eqn:Hsp.
    + split; [reflexivity|].
      revert Hneg.
      repeat match goal with
             | |- context [if ?b then _ else _] => destruct b eqn:?
             end; intros Hneg;
        try (apply Hstart in Hneg; [exact Hneg | reflexivity]);
        simpl in Hneg; lia.
    + revert Hneg. split_ifs; simpl; lia.
  - unfold keyUpHandler in Hneg. revert Hneg. split_ifs; simpl; lia.
  - split; [reflexivity|]. unfold touchStartHandler in *.
    revert Hneg. split_ifs; intros Hneg;
      [apply Hstart in Hneg; [exact Hneg | reflexivity] | simpl in Hneg; lia].
  - unfold touchMoveHandler in Hneg. destruct touches; simpl in Hneg; lia.
  - simpl in Hneg. lia.
  - simpl in Hneg. lia.
  - split; [reflexivity|]. unfold clickHandler in *.
    revert Hneg. split_ifs; intros Hneg;
      [apply Hstart in Hneg; [exact Hneg | reflexivity] | lia].
  - exfalso. unfold gameLoop in Hneg.
    destruct (isRunning (gameState e)) eqn:Hr;
      [destruct (isPaused (gameState e)) eqn:Hp|].
    + rewrite update_idle in Hneg by now right. lia.
    + destruct (update_frame deltaTime e Hr Hp) as (_ & _ & Hl & _).
      specialize (Hrun eq_refl). lia.
    + rewrite update_idle in Hneg by now left. lia.
  - split; [reflexivity|]. apply Hstart in Hneg; [exact Hneg | reflexivity].
  - simpl in Hneg. lia.
  - simpl in Hneg. lia.
  - exfalso. destruct (reachable_inv e Hreach) as [(Hcfg & _) _].
    unfold reset in Hneg. simpl in Hneg. rewrite Hcfg in Hneg. simpl in Hneg. lia.
  - exfalso. unfold updateCanvasSize in Hneg. simpl in Hneg.
    destruct (negb _) in Hneg; simpl in Hneg; lia.
Qed.

Lemma resume_pause (e : Engine N) :
  isPaused (gameState e) = false -> resume (pause e) = e.
Proof. destruct e as [c cfg [] ctl]. simpl. intros ->. reflexivity. Qed.

Lemma run_app (evs1 evs2 : list (Event N)) (e : Engine N) :
  run (evs1 ++ evs2) e = run evs2 (run evs1 e).
Proof. unfold run. apply fold_left_app. Qed.

Lemma run_frames_idle (evs : list (Event N)) (e : Engine N) :
  forallb is_frame evs = true ->
  isRunning (gameState e) = false \/ isPaused (gameState e) = true ->
  run evs e = e.
Proof.
  intros Hall Hidle. induction evs as [|ev evs IH]; [reflexivity|].
  simpl in Hall. apply andb_true_iff in Hall as [Hev Hall].
  destruct ev; try discriminate. simpl. unfold gameLoop.
  rewrite update_idle by assumption. now apply IH.
Qed.

(** X4. A pause of any length is invisible: pausing a game that is not
    paused, letting any number of animation frames pass and resuming gives
    back the engine exactly as it was. *)
Theorem pause_frames_resume (evs : list (Event N)) (e : Engine N) :
  isPaused (gameState e) = false ->
  forallb is_frame evs = true ->
  run (CallPause :: evs ++ [CallResume]) e = e.
Proof.
  intros Hp Hall. change (CallPause :: evs ++ [CallResume]) with
    ([CallPause] ++ evs ++ [CallResume]).
  rewrite !run_app. simpl.
  rewrite (run_frames_idle evs (pause e) Hall) by now right.
  now apply resume_pause.
Qed.

(** X5. The space key.  On an engine that is not running it does what
    [start] does.  On a running engine it flips [isPaused] and touches
    nothing else, so that pressing it twice gives back the engine as it
    was. *)
Theorem space_key_toggles_pause (e : Engine N) :
  (isRunning (gameState e) = false -> keyDownHandler "Space" e = start e)
  /\ (isRunning (gameState e) = true ->
      keyDownHandler "Space" e
      = set_gameState (set_isPaused (negb (isPaused (gameState e))) (gameState e)) e
      /\ keyDownHandler "Space" (keyDownHandler "Space" e) = e).
Proof.
  destruct e as [c cfg [run_ paused sc li le b p bs] ctl].
  unfold keyDownHandler. simpl. split; intros ->; simpl; [reflexivity|].
  destruct paused; simpl; split; reflexivity.
Qed.

(** X6. The movement keys.  A key other than the space key never changes
    the game state or the pointer coordinate, a key that is none of
    ArrowLeft, KeyA, ArrowRight, KeyD, Space is ignored altogether, and
    releasing a key undoes pressing it, the two codes of a direction being
    interchangeable. *)
Theorem movement_keys (code : string) (e : Engine N) :
  (code <> "Space"%string ->
   gameState (keyDownHandler code e) = gameState e
   /\ touchX (controls (keyDownHandler code e)) = touchX (controls e))
  /\ (gameState (keyUpHandler code e) = gameState e
      /\ touchX (controls (keyUpHandler code e)) = touchX (controls e))
  /\ (~ In code ["ArrowLeft"; "KeyA"; "ArrowRight"; "KeyD"; "Space"]%string ->
      keyDownHandler code e = e /\ keyUpHandler code e = e)
  /\ (In code ["ArrowLeft"; "KeyA"]%string ->
      leftPressed (controls (keyDownHandler code e)) = true
      /\ leftPressed (controls (keyUpHandler "ArrowLeft" (keyDownHandler code e))) = false
      /\ leftPressed (controls (keyUpHandler "KeyA" (keyDownHandler code e))) = false
      /\ rightPressed (controls (keyDownHandler code e)) = rightPressed (controls e))
  /\ (In code ["ArrowRight"; "KeyD"]%string ->
      rightPressed (controls (keyDownHandler code e)) = true
      /\ rightPressed (controls (keyUpHandler "ArrowRight" (keyDownHandler code e))) = false
      /\ rightPressed (controls (keyUpHandler "KeyD" (keyDownHandler code e))) = false
      /\ leftPressed (controls (keyDownHandler code e)) = leftPressed (controls e)).
Proof.
  split; [|split; [|split; [|split]]].
  - intros Hns. apply String.eqb_neq in Hns. unfold keyDownHandler. rewrite Hns.
    split_ifs; split; reflexivity.
  - unfold keyUpHandler. split_ifs; split; reflexivity.
  - intros Hnot. simpl in Hnot.
    assert (H1 : (code =? "ArrowLeft")%string = false) by (apply String.eqb_neq; intros ->; apply Hnot; auto 10).
    assert (H2 : (code =? "KeyA")%string = false) by (apply String.eqb_neq; intros ->; apply Hnot; auto 10).
    assert (H3 : (code =? "ArrowRight")%string = false) by (apply String.eqb_neq; intros ->; apply Hnot; auto 10).
    assert (H4 : (code =? "KeyD")%string = false) by (apply String.eqb_neq; intros ->; apply Hnot; auto 10).
    assert (H5 : (code =? "Space")%string = false) by (apply String.eqb_neq; intros ->; apply Hnot; auto 10).
    unfold keyDownHandler, keyUpHandler. rewrite H1, H2, H3, H4, H5. now split.
  - intros [<- | [<- | []]]; repeat split; reflexivity.
  - intros [<- | [<- | []]]; repeat split; reflexivity.
Qed.

(** X7. [reset] on a reachable engine gives the game state of a newly
    constructed engine on the same canvas (3 lives, score 0, level 1, not
    running, not paused, the full level-1 grid), whatever the state was.  It
    keeps the controls, so a held key or a pointer coordinate survives it,
    and resetting twice is resetting once. *)
Theorem reset_restores_new_game (e : Engine N) :
  reachable e ->
  gameState (reset e) = gameState (newGameEngine (canvas e))
  /\ (lives (gameState (reset e)) = 3
      /\ score (gameState (reset e)) = 0
      /\ level (gameState (reset e)) = 1
      /\ isRunning (gameState (reset e)) = false
      /\ isPaused (gameState (reset e)) = false
      /\ blocks (gameState (reset e)) = generateBlocks (config e) 1)
  /\ controls (reset e) = controls e
  /\ reset (reset e) = reset e.
Proof.
  intros Hreach.
  destruct (reachable_inv e Hreach) as [(Hcfg & _) _].
  unfold reset. simpl. rewrite Hcfg. simpl. repeat split.
Qed.
End MoreStatements.

(** ** The order of binary64 *)

Section SpecOrder.
Import SpecFloat.

Lemma SFcompare_antisym (a b : spec_float) :
  SFcompare b a = option_map CompOpp (SFcompare a b).
Proof.
  unfold SFcompare.
  change (PosDef.Pos.compare_cont Eq) with Pos.compare.
  destruct a as [[]|[]| |[] m1 e1], b as [[]|[]| |[] m2 e2]; try reflexivity; simpl;
    rewrite (Z.compare_antisym e1 e2); destruct (e1 ?= e2); try reflexivity; simpl;
    rewrite (Pos.compare_antisym m1 m2); destruct (m1 ?= m2)%positive; reflexivity.
Qed.

Lemma SFcompare_refl (a : spec_float) : a <> S754_nan -> SFcompare a a = Some Eq.
Proof.
  unfold SFcompare.
  change (PosDef.Pos.compare_cont Eq) with Pos.compare.
  destruct a as [[]|[]| |[] m e]; intros Hn; try reflexivity; try contradiction;
    rewrite Z.compare_refl, Pos.compare_refl; reflexivity.
Qed.

Lemma SFcompare_None (a b : spec_float) :
  SFcompare a b = None <-> a = S754_nan \/ b = S754_nan.
Proof.
  destruct a as [[]|[]| |[] m1 e1], b as [[]|[]| |[] m2 e2]; simpl;
    split; try discriminate; auto; intros [?|?]; discriminate.
Qed.

(** Smaller-or-equal composes, and is strict as soon as one step is. *)
Lemma SFcompare_trans (a b c : spec_float) (c1 c2 : comparison) :
  SFcompare a b = Some c1 -> SFcompare b c = Some c2 -> c1 <> Gt -> c2 <> Gt ->
  SFcompare a c = Some (match c1 with Eq => c2 | _ => Lt end).
Proof.
  unfold SFcompare.
  change (PosDef.Pos.compare_cont Eq) with Pos.compare.
  intros H1 H2.
  destruct a as [[]|[]| |[] m1 e1], b as [[]|[]| |[] m2 e2], c as [[]|[]| |[] m3 e3];
    try discriminate;
    injection H1 as <-; injection H2 as <-;
    repeat match goal with
           | |- context [(?x ?= ?y)%Z] => destruct (Z.compare_spec x y); subst
           | |- context [(?x ?= ?y)%positive] => destruct (Pos.compare_spec x y); subst
           end;
    simpl; intros N1 N2; try reflexivity; try congruence; lia.
Qed.
End SpecOrder.

Section FloatOrder.
Import SpecFloat.

Lemma float_is_nan_spec (x : float) :
  PrimFloat.is_nan x = true <-> FloatOps.Prim2SF x = S754_nan.
Proof.
  unfold PrimFloat.is_nan. rewrite FloatAxioms.eqb_spec. unfold SFeqb.
  destruct (FloatOps.Prim2SF x) as [s|s| |s m e] eqn:Hx.
  - simpl. split; discriminate.
  - rewrite SFcompare_refl by discriminate. simpl. split; discriminate.
  - simpl. split; reflexivity.
  - rewrite SFcompare_refl by discriminate. simpl. split; discriminate.
Qed.

Lemma float_is_nan_false (x : float) :
  PrimFloat.is_nan x = false <-> FloatOps.Prim2SF x <> S754_nan.
Proof.
  rewrite <- float_is_nan_spec. destruct (PrimFloat.is_nan x); split; congruence.
Qed.

(** Two doubles are unordered, when one of them is NaN, or else in exactly
    one of three positions; each comparison of the language is read off
    that. *)
Lemma float_compare_cases (x y : float) :
  ((PrimFloat.is_nan x = true \/ PrimFloat.is_nan y = true)
   /\ PrimFloat.ltb x y = false /\ PrimFloat.ltb y x = false
   /\ PrimFloat.leb x y = false /\ PrimFloat.leb y x = false
   /\ PrimFloat.eqb x y = false)
  \/ (PrimFloat.is_nan x = false /\ PrimFloat.is_nan y = false
      /\ ((PrimFloat.ltb x y = true /\ PrimFloat.ltb y x = false
           /\ PrimFloat.leb x y = true /\ PrimFloat.leb y x = false
           /\ PrimFloat.eqb x y = false)
          \/ (PrimFloat.ltb x y = false /\ PrimFloat.ltb y x = true
              /\ PrimFloat.leb x y = false /\ PrimFloat.leb y x = true
              /\ PrimFloat.eqb x y = false)
          \/ (PrimFloat.ltb x y = false /\ PrimFloat.ltb y x = false
              /\ PrimFloat.leb x y = true /\ PrimFloat.leb y x = true
              /\ PrimFloat.eqb x y = true))).
Proof.
  rewrite !FloatAxioms.ltb_spec, !FloatAxioms.leb_spec, FloatAxioms.eqb_spec.
  unfold SFltb, SFleb, SFeqb.
  rewrite (SFcompare_antisym (FloatOps.Prim2SF x) (FloatOps.Prim2SF y)).
  destruct (SFcompare (FloatOps.Prim2SF x) (FloatOps.Prim2SF y)) as [[| |]|] eqn:Hc.
  - right.
    assert (Hn : FloatOps.Prim2SF x <> S754_nan /\ FloatOps.Prim2SF y <> S754_nan).
    { split; intros Hx; assert (Hnone : SFcompare (FloatOps.Prim2SF x) (FloatOps.Prim2SF y) = None)
        by (apply SFcompare_None; auto); congruence. }
    destruct Hn as [Hx Hy]. apply float_is_nan_false in Hx, Hy.
    split; [exact Hx|]. split; [exact Hy|]. right. right. simpl. repeat split; reflexivity.
  - right.
    assert (Hn : FloatOps.Prim2SF x <> S754_nan /\ FloatOps.Prim2SF y <> S754_nan).
    { split; intros Hx; assert (Hnone : SFcompare (FloatOps.Prim2SF x) (FloatOps.Prim2SF y) = None)
        by (apply SFcompare_None; auto); congruence. }
    destruct Hn as [Hx Hy]. apply float_is_nan_false in Hx, Hy.
    split; [exact Hx|]. split; [exact Hy|]. left. simpl. repeat split; reflexivity.
  - right.
    assert (Hn : FloatOps.Prim2SF x <> S754_nan /\ FloatOps.Prim2SF y <> S754_nan).
    { split; intros Hx; assert (Hnone : SFcompare (FloatOps.Prim2SF x) (FloatOps.Prim2SF y) = None)
        by (apply SFcompare_None; auto); congruence. }
    destruct Hn as [Hx Hy]. apply float_is_nan_false in Hx, Hy.
    split; [exact Hx|]. split; [exact Hy|]. right. left. simpl. repeat split; reflexivity.
  - left. apply SFcompare_None in Hc. rewrite !float_is_nan_spec.
    split; [exact Hc|]. simpl. repeat split; reflexivity.
Qed.

Lemma float_leb_trans (x y z : float) :
  PrimFloat.leb x y = true -> PrimFloat.leb y z = true -> PrimFloat.leb x z = true.
Proof.
  rewrite !FloatAxioms.leb_spec. unfold SFleb.
  destruct (SFcompare (FloatOps.Prim2SF x) (FloatOps.Prim2SF y)) as [c1|] eqn:H1;
    [|discriminate].
  destruct (SFcompare (FloatOps.Prim2SF y) (FloatOps.Prim2SF z)) as [c2|] eqn:H2;
    [|destruct c1; discriminate].
  intros N1 N2.
  rewrite (SFcompare_trans _ _ _ c1 c2 H1 H2)
    by (destruct c1, c2; discriminate).
  destruct c1, c2; try discriminate; reflexivity.
Qed.

Lemma float_ltb_leb_trans (x y z : float) :
  PrimFloat.ltb x y = true -> PrimFloat.leb y z = true -> PrimFloat.ltb x z = true.
Proof.
  rewrite !FloatAxioms.ltb_spec, FloatAxioms.leb_spec. unfold SFltb, SFleb.
  destruct (SFcompare (FloatOps.Prim2SF x) (FloatOps.Prim2SF y)) as [c1|] eqn:H1;
    [|discriminate].
  destruct (SFcompare (FloatOps.Prim2SF y) (FloatOps.Prim2SF z)) as [c2|] eqn:H2;
    [|destruct c1; discriminate].
  intros N1 N2.
  rewrite (SFcompare_trans _ _ _ c1 c2 H1 H2)
    by (destruct c1, c2; discriminate).
  destruct c1, c2; try discriminate; reflexivity.
Qed.

Lemma float_leb_ltb_trans (x y z : float) :
  PrimFloat.leb x y = true -> PrimFloat.ltb y z = true -> PrimFloat.ltb x z = true.
Proof.
  rewrite !FloatAxioms.ltb_spec, FloatAxioms.leb_spec. unfold SFltb, SFleb.
  destruct (SFcompare (FloatOps.Prim2SF x) (FloatOps.Prim2SF y)) as [c1|] eqn:H1;
    [|discriminate].
  destruct (SFcompare (FloatOps.Prim2SF y) (FloatOps.Prim2SF z)) as [c2|] eqn:H2;
    [|destruct c1; discriminate].
  intros N1 N2.
  rewrite (SFcompare_trans _ _ _ c1 c2 H1 H2)
    by (destruct c1, c2; discriminate).
  destruct c1, c2; try discriminate; reflexivity.
Qed.

Lemma float_eqb_leb_trans (x y z : float) :
  PrimFloat.eqb x y = true -> PrimFloat.leb y z = true -> PrimFloat.leb x z = true.
Proof.
  intros He. apply float_leb_trans.
  destruct (float_compare_cases x y) as [(_ & _ & _ & _ & _ & H) | (_ & _ & [H | [H | H]])];
    try congruence; destruct H as (_ & _ & ? & _ & ?); congruence.
Qed.

Lemma float_leb_refl (x : float) : PrimFloat.is_nan x = false -> PrimFloat.leb x x = true.
Proof.
  intros Hx.
  destruct (float_compare_cases x x) as [([H | H] & _) | (_ & _ & [H | [H | H]])];
    try congruence; destruct H as (? & ? & ? & ? & ?); congruence.
Qed.

(** [Math.max] and [Math.min]: NaN when an argument is, else one of the
    arguments, not below (not above) either of them. *)
Lemma float_max_cases (a b : float) :
  (PrimFloat.is_nan a = true /\ float_max a b = a)
  \/ (PrimFloat.is_nan a = false /\ PrimFloat.is_nan b = true /\ float_max a b = b)
  \/ (PrimFloat.is_nan a = false /\ PrimFloat.is_nan b = false
      /\ PrimFloat.is_nan (float_max a b) = false
      /\ (float_max a b = a \/ float_max a b = b)
      /\ PrimFloat.leb a (float_max a b) = true
      /\ PrimFloat.leb b (float_max a b) = true).
Proof.
  unfold float_max.
  destruct (PrimFloat.is_nan a) eqn:Ha; [left; now split | right].
  destruct (PrimFloat.is_nan b) eqn:Hb; [left; now repeat split | right].
  pose proof (float_leb_refl a Ha) as Ra. pose proof (float_leb_refl b Hb) as Rb.
  split; [reflexivity|]. split; [reflexivity|].
  destruct (float_compare_cases a b)
    as [([H | H] & _) | (_ & _ & [H | [H | H]])]; try congruence;
    destruct H as (H1 & H2 & H3 & H4 & H5); rewrite H1, ?H2;
    try destruct (PrimFloat.get_sign a); auto 10.
Qed.

Lemma float_min_cases (a b : float) :
  (PrimFloat.is_nan a = true /\ float_min a b = a)
  \/ (PrimFloat.is_nan a = false /\ PrimFloat.is_nan b = true /\ float_min a b = b)
  \/ (PrimFloat.is_nan a = false /\ PrimFloat.is_nan b = false
      /\ PrimFloat.is_nan (float_min a b) = false
      /\ (float_min a b = a \/ float_min a b = b)
      /\ PrimFloat.leb (float_min a b) a = true
      /\ PrimFloat.leb (float_min a b) b = true).
Proof.
  unfold float_min.
  destruct (PrimFloat.is_nan a) eqn:Ha; [left; now split | right].
  destruct (PrimFloat.is_nan b) eqn:Hb; [left; now repeat split | right].
  pose proof (float_leb_refl a Ha) as Ra. pose proof (float_leb_refl b Hb) as Rb.
  split; [reflexivity|]. split; [reflexivity|].
  destruct (float_compare_cases a b)
    as [([H | H] & _) | (_ & _ & [H | [H | H]])]; try congruence;
    destruct H as (H1 & H2 & H3 & H4 & H5); rewrite H1, ?H2;
    try destruct (PrimFloat.get_sign a); auto 10.
Qed.
End FloatOrder.

Lemma float_zero_not_nan : PrimFloat.is_nan (float_ofZ 0) = false.
Proof. reflexivity. Qed.

Lemma float_leb_not_nan (x y : float) :
  PrimFloat.leb x y = true -> PrimFloat.is_nan x = false /\ PrimFloat.is_nan y = false.
Proof.
  intros Hle.
  destruct (float_compare_cases x y) as [(_ & _ & _ & H & _) | (Hx & Hy & _)];
    [congruence | now split].
Qed.

Lemma float_ltb_not_nan (x y : float) :
  PrimFloat.ltb x y = true -> PrimFloat.is_nan x = false /\ PrimFloat.is_nan y = false.
Proof.
  intros Hle.
  destruct (float_compare_cases x y) as [(_ & H & _) | (Hx & Hy & _)];
    [congruence | now split].
Qed.

Lemma float_ltb_leb (x y : float) : PrimFloat.ltb x y = true -> PrimFloat.leb x y = true.
Proof.
  intros Hlt.
  destruct (float_compare_cases x y) as [(_ & H & _) | (_ & _ & [H | [H | H]])];
    try congruence; destruct H as (? & ? & ? & ? & ?); congruence.
Qed.

Lemma float_ltb_asym (x y : float) : PrimFloat.ltb x y = true -> PrimFloat.ltb y x = false.
Proof.
  intros Hlt.
  destruct (float_compare_cases x y) as [(_ & H & _) | (_ & _ & [H | [H | H]])];
    try congruence; destruct H as (? & ? & ? & ? & ?); congruence.
Qed.

(** Of two numbers, the one that is not at most the other is above it. *)
Lemma float_not_leb (x y : float) :
  PrimFloat.is_nan x = false -> PrimFloat.is_nan y = false ->
  PrimFloat.leb x y = false -> PrimFloat.ltb y x = true.
Proof.
  intros Hx Hy Hle.
  destruct (float_compare_cases x y) as [([H | H] & _) | (_ & _ & [H | [H | H]])];
    try congruence; destruct H as (? & ? & ? & ? & ?); congruence.
Qed.

Lemma float_leb_antisym_eqb (x y : float) :
  PrimFloat.leb x y = true -> PrimFloat.leb y x = true -> PrimFloat.eqb x y = true.
Proof.
  intros H1 H2.
  destruct (float_compare_cases x y) as [(_ & _ & _ & H & _) | (_ & _ & [H | [H | H]])];
    try congruence; destruct H as (? & ? & ? & ? & ?); congruence.
Qed.

Lemma float_eqb_refl (x : float) : PrimFloat.is_nan x = false -> PrimFloat.eqb x x = true.
Proof.
  intros Hx. apply float_leb_antisym_eqb; now apply float_leb_refl.
Qed.

(** The clamp [Math.max(lo, Math.min(hi, x))]. *)
Lemma float_clamp_nan (lo hi x : float) :
  PrimFloat.is_nan (float_max lo (float_min hi x)) = true
  <-> PrimFloat.is_nan lo = true \/ PrimFloat.is_nan hi = true \/ PrimFloat.is_nan x = true.
Proof.
  destruct (float_min_cases hi x)
    as [(Hh & ->) | [(Hh & Hx & ->) | (Hh & Hx & Hm & _)]];
    destruct (float_max_cases lo (float_min hi x))
      as [(Hl & E) | [(Hl & Hm' & E) | (Hl & Hm' & Hr & _)]];
    try rewrite E; try rewrite Hr;
    try (destruct (float_min_cases hi x)
           as [(Hh' & E') | [(Hh' & Hx' & E') | (Hh' & Hx' & Hm'' & _)]];
         try rewrite E' in *);
    split; intros; try congruence; auto;
    repeat match goal with H : _ \/ _ |- _ => destruct H end; congruence.
Qed.

Lemma float_clamp_range (lo hi x : float) :
  PrimFloat.is_nan (float_max lo (float_min hi x)) = false ->
  PrimFloat.leb lo (float_max lo (float_min hi x)) = true
  /\ (PrimFloat.leb lo hi = true ->
      PrimFloat.leb (float_max lo (float_min hi x)) hi = true).
Proof.
  intros Hn.
  destruct (float_max_cases lo (float_min hi x))
    as [(Hl & E) | [(Hl & Hm & E) | (Hl & Hm & _ & Hsel & Hlo & _)]];
    [rewrite E in Hn; congruence | rewrite E in Hn; congruence |].
  split; [exact Hlo|]. intros Hlh.
  destruct Hsel as [-> | ->]; [exact Hlh|].
  destruct (float_min_cases hi x)
    as [(Hh & E) | [(Hh & Hx & E) | (_ & _ & _ & _ & Hle & _)]];
    [rewrite E in Hm; congruence | rewrite E in Hm; congruence | exact Hle].
Qed.

(** Inside the range the clamp gives the number back, up to the sign of a
    zero; strictly inside, the very same double. *)
Lemma float_clamp_inside (lo hi x : float) :
  PrimFloat.leb lo x = true -> PrimFloat.leb x hi = true ->
  PrimFloat.eqb (float_max lo (float_min hi x)) x = true.
Proof.
  intros Hlo Hhi.
  destruct (float_leb_not_nan _ _ Hlo) as [Nl Nx].
  destruct (float_leb_not_nan _ _ Hhi) as [_ Nh].
  assert (Hm : PrimFloat.eqb (float_min hi x) x = true
               /\ PrimFloat.is_nan (float_min hi x) = false).
  { destruct (float_min_cases hi x)
      as [(Hh & E) | [(Hh & Hx & E) | (_ & _ & Hn & _ & Hle1 & Hle2)]]; try congruence.
    split; [|exact Hn]. apply float_leb_antisym_eqb; [exact Hle2|].
    unfold float_min. rewrite Nh, Nx.
    destruct (float_compare_cases hi x) as [([H | H] & _) | (_ & _ & [H | [H | H]])];
      try congruence; destruct H as (H1 & H2 & H3 & H4 & H5); rewrite H1, ?H2.
    - congruence.
    - now apply float_leb_refl.
    - destruct (PrimFloat.get_sign hi); [exact Hhi | now apply float_leb_refl]. }
  destruct Hm as [Hm Nm].
  set (m := float_min hi x) in *. clearbody m.
  assert (Hlm : PrimFloat.leb lo m = true).
  { apply (float_leb_trans _ x); [exact Hlo|].
    destruct (float_compare_cases m x) as [(_ & _ & _ & _ & _ & H) | (_ & _ & [H | [H | H]])];
      try congruence; destruct H as (? & ? & ? & ? & ?); congruence. }
  unfold float_max. rewrite Nl, Nm.
  destruct (float_compare_cases lo m) as [([H | H] & _) | (_ & _ & [H | [H | H]])];
    try congruence; destruct H as (H1 & H2 & H3 & H4 & H5); rewrite H1, ?H2.
  - exact Hm.
  - congruence.
  - destruct (PrimFloat.get_sign lo); [exact Hm|].
    apply float_leb_antisym_eqb.
    + apply (float_leb_trans _ m); [exact Hlm|].
      destruct (float_compare_cases m x) as [(_ & _ & _ & _ & _ & H) | (_ & _ & [H | [H | H]])];
        try congruence; destruct H as (? & ? & ? & ? & ?); congruence.
    + apply (float_leb_trans _ m); [|exact H4].
      destruct (float_compare_cases m x) as [(_ & _ & _ & _ & _ & H) | (_ & _ & [H | [H | H]])];
        try congruence; destruct H as (? & ? & ? & ? & ?); congruence.
Qed.

Lemma float_clamp_strictly_inside (lo hi x : float) :
  PrimFloat.ltb lo x = true -> PrimFloat.ltb x hi = true ->
  float_max lo (float_min hi x) = x.
Proof.
  intros Hlo Hhi.
  destruct (float_ltb_not_nan _ _ Hlo) as [Nl Nx].
  destruct (float_ltb_not_nan _ _ Hhi) as [_ Nh].
  assert (Hm : float_min hi x = x).
  { unfold float_min. rewrite Nh, Nx, (float_ltb_asym _ _ Hhi), Hhi. reflexivity. }
  rewrite Hm. unfold float_max. rewrite Nl, Nx, Hlo. reflexivity.
Qed.

(** NaN goes through every operation. *)
Lemma float_sub_nan (x y : float) :
  PrimFloat.is_nan x = true \/ PrimFloat.is_nan y = true ->
  PrimFloat.is_nan (PrimFloat.sub x y) = true.
Proof.
  rewrite !float_is_nan_spec, FloatAxioms.sub_spec.
  intros [-> | ->]; [reflexivity|]. now destruct (FloatOps.Prim2SF x) as [?|?| |? ? ?].
Qed.

Lemma float_add_nan (x y : float) :
  PrimFloat.is_nan x = true \/ PrimFloat.is_nan y = true ->
  PrimFloat.is_nan (PrimFloat.add x y) = true.
Proof.
  rewrite !float_is_nan_spec, FloatAxioms.add_spec.
  intros [-> | ->]; [reflexivity|]. now destruct (FloatOps.Prim2SF x) as [?|?| |? ? ?].
Qed.

Lemma float_mul_nan (x y : float) :
  PrimFloat.is_nan x = true \/ PrimFloat.is_nan y = true ->
  PrimFloat.is_nan (PrimFloat.mul x y) = true.
Proof.
  rewrite !float_is_nan_spec, FloatAxioms.mul_spec.
  intros [-> | ->]; [reflexivity|]. now destruct (FloatOps.Prim2SF x) as [?|?| |? ? ?].
Qed.

Lemma float_div_nan (x y : float) :
  PrimFloat.is_nan x = true \/ PrimFloat.is_nan y = true ->
  PrimFloat.is_nan (PrimFloat.div x y) = true.
Proof.
  rewrite !float_is_nan_spec, FloatAxioms.div_spec.
  intros [-> | ->]; [reflexivity|]. now destruct (FloatOps.Prim2SF x) as [?|?| |? ? ?].
Qed.

Lemma float_sqrt_nan (x : float) :
  PrimFloat.is_nan x = true -> PrimFloat.is_nan (PrimFloat.sqrt x) = true.
Proof.
  rewrite !float_is_nan_spec, FloatAxioms.sqrt_spec. now intros ->.
Qed.


Lemma SFcompare_Eq_positive (a b : SpecFloat.spec_float) :
  SpecFloat.SFcompare a b = Some Eq ->
  SpecFloat.SFcompare (SpecFloat.S754_zero false) a = Some Lt ->
  a = b.
Proof.
  unfold SpecFloat.SFcompare.
  change (PosDef.Pos.compare_cont Eq) with Pos.compare.
  destruct a as [[]|[]| |[] m1 e1], b as [[]|[]| |[] m2 e2]; try discriminate;
    try reflexivity.
  destruct (Z.compare_spec e1 e2); try discriminate. subst.
  destruct (Pos.compare_spec m1 m2); try discriminate. subst. reflexivity.
Qed.

(** Two doubles that compare equal are the same double as soon as one of
    them is positive: only the two zeros compare equal and differ. *)
Lemma float_leb_antisym_positive (a b : float) :
  PrimFloat.leb a b = true -> PrimFloat.leb b a = true ->
  PrimFloat.ltb (float_ofZ 0) a = true -> a = b.
Proof.
  rewrite !FloatAxioms.leb_spec, FloatAxioms.ltb_spec.
  unfold SpecFloat.SFleb, SpecFloat.SFltb.
  rewrite (SFcompare_antisym (FloatOps.Prim2SF a) (FloatOps.Prim2SF b)).
  change (FloatOps.Prim2SF (float_ofZ 0)) with (SpecFloat.S754_zero false).
  intros H1 H2 H3. apply FloatAxioms.Prim2SF_inj.
  apply SFcompare_Eq_positive.
  - destruct (SpecFloat.SFcompare (FloatOps.Prim2SF a) (FloatOps.Prim2SF b)) as [[| |]|];
      simpl in *; try discriminate; reflexivity.
  - destruct (SpecFloat.SFcompare (SpecFloat.S754_zero false) (FloatOps.Prim2SF a))
      as [[| |]|]; try discriminate; reflexivity.
Qed.

Lemma float_min_same (a : float) : float_min a a = a.
Proof.
  unfold float_min.
  destruct (PrimFloat.is_nan a), (PrimFloat.ltb a a), (PrimFloat.get_sign a); reflexivity.
Qed.

Lemma float_max_same (a : float) : float_max a a = a.
Proof.
  unfold float_max.
  destruct (PrimFloat.is_nan a), (PrimFloat.ltb a a), (PrimFloat.get_sign a); reflexivity.
Qed.

Lemma float_min_select (a b : float) : float_min a b = a \/ float_min a b = b.
Proof.
  unfold float_min.
  destruct (PrimFloat.is_nan a), (PrimFloat.is_nan b), (PrimFloat.ltb a b),
    (PrimFloat.ltb b a), (PrimFloat.get_sign a); auto.
Qed.

(** Clamping twice is clamping once. *)
Lemma float_min_absorb_r (x limit : float) :
  float_min (float_min x limit) limit = float_min x limit.
Proof.
  destruct (float_min_select x limit) as [E | E]; rewrite E at 1.
  - reflexivity.
  - rewrite E. apply float_min_same.
Qed.

Lemma float_min_absorb_l (hi x : float) :
  float_min hi (float_min hi x) = float_min hi x.
Proof.
  destruct (float_min_select hi x) as [E | E]; rewrite E at 1.
  - rewrite E. apply float_min_same.
  - reflexivity.
Qed.

Lemma float_clamp_idem (lo hi x : float) :
  PrimFloat.ltb (float_ofZ 0) lo = true ->
  float_max lo (float_min hi (float_max lo (float_min hi x)))
  = float_max lo (float_min hi x).
Proof.
  intros Hpos. destruct (float_ltb_not_nan _ _ Hpos) as [_ Nlo].
  set (m := float_min hi x).
  assert (Hmm : float_min hi m = m) by apply float_min_absorb_l.
  destruct (float_max_cases lo m)
    as [(Hl & _) | [(_ & Nm & E) | (_ & Nm & _ & [E | E] & _ & Hml)]];
    [congruence | rewrite E, Hmm; exact E | | rewrite E, Hmm; exact E].
  rewrite E.
  destruct (float_min_cases hi lo)
    as [(Nhi & _) | [(_ & Hl & _) | (Nhi & _ & _ & [E' | E'] & _ & Hle)]];
    [| congruence | | rewrite E'; apply float_max_same].
  - exfalso. subst m. unfold float_min in Nm. rewrite Nhi in Nm. congruence.
  - rewrite E'. rewrite E' in Hle.
    destruct (float_max_cases lo hi)
      as [(Hl & _) | [(_ & Hh & _) | (_ & _ & _ & [E2 | E2] & Hle2 & _)]];
      [congruence | congruence | exact E2 |].
    rewrite E2 in *. symmetry. now apply float_leb_antisym_positive.
Qed.

(** ** Paddle, ball and resize on binary64 *)

(** X8. The paddle step on binary64.  Nothing but the x coordinate of the
    paddle changes; the new coordinate is the clamp of [paddle_target].  It
    is NaN exactly when the target or [canvasWidth - width] is NaN: the
    clamp lets a NaN through, so a NaN pointer coordinate leaves the paddle
    at no position at all.  Otherwise it is not below 0, and not above
    [canvasWidth - width] when that is not negative; a target inside that
    range is where the paddle is put. *)
Theorem updatePaddle_clamped (e : Engine float) :
  let p := paddle (gameState e) in
  let limit := PrimFloat.sub (float_ofZ (canvasWidth (config e))) (paddle_width p) in
  let x' := pos_x (paddle_position (paddle (gameState (updatePaddle e)))) in
  updatePaddle e = set_gameState (set_paddle (set_paddle_x x' p) (gameState e)) e
  /\ x' = float_max (float_ofZ 0) (float_min limit (paddle_target e))
  /\ (PrimFloat.is_nan x' = true
      <-> PrimFloat.is_nan (paddle_target e) = true \/ PrimFloat.is_nan limit = true)
  /\ (PrimFloat.is_nan x' = false ->
      PrimFloat.leb (float_ofZ 0) x' = true
      /\ (PrimFloat.leb (float_ofZ 0) limit = true -> PrimFloat.leb x' limit = true))
  /\ (PrimFloat.leb (float_ofZ 0) (paddle_target e) = true ->
      PrimFloat.leb (paddle_target e) limit = true ->
      PrimFloat.eqb x' (paddle_target e) = true)
  /\ (PrimFloat.ltb (float_ofZ 0) (paddle_target e) = true ->
      PrimFloat.ltb (paddle_target e) limit = true ->
      x' = paddle_target e).
Proof.
  intros p limit x'.
  assert (Hx : x' = float_max (float_ofZ 0) (float_min limit (paddle_target e)))
    by reflexivity.
  split; [reflexivity|]. split; [exact Hx|]. rewrite Hx. clear Hx x'.
  split; [|split; [|split]].
  - rewrite float_clamp_nan. rewrite float_zero_not_nan. intuition congruence.
  - apply float_clamp_range.
  - apply float_clamp_inside.
  - apply float_clamp_strictly_inside.
Qed.

(** X9. The ball step on binary64, on a surface at least a ball wide
    ([radius <= canvasWidth - radius], as the code computes it).  A life is
    lost exactly when the moved ball, after the top bounce, is at or beyond
    [canvasHeight + radius].  If none is lost: the ball's x is NaN exactly
    when the moved x is, and is otherwise between [radius] and
    [canvasWidth - radius]; its y is not below [radius] unless it is NaN,
    and not at or beyond the line where it would be lost; each component of
    the velocity is the old one or its negation. *)
Theorem updateBall_walls (e : Engine float) :
  let b := ball (gameState e) in
  let r := ball_radius b in
  let right := PrimFloat.sub (float_ofZ (canvasWidth (config e))) r in
  let bottom := PrimFloat.add (float_ofZ (canvasHeight (config e))) r in
  let px := PrimFloat.add (pos_x (ball_position b)) (vel_x (ball_velocity b)) in
  let py := PrimFloat.add (pos_y (ball_position b)) (vel_y (ball_velocity b)) in
  let y1 := if PrimFloat.leb py r then r else py in
  let b' := ball (gameState (updateBall e)) in
  PrimFloat.leb r right = true ->
  (lives (gameState (updateBall e)) = lives (gameState e)
   <-> PrimFloat.leb bottom y1 = false)
  /\ (lives (gameState (updateBall e)) = lives (gameState e) ->
      PrimFloat.is_nan (pos_x (ball_position b')) = PrimFloat.is_nan px
      /\ (PrimFloat.is_nan px = false ->
          PrimFloat.leb r (pos_x (ball_position b')) = true
          /\ PrimFloat.leb (pos_x (ball_position b')) right = true)
      /\ pos_y (ball_position b') = y1
      /\ (PrimFloat.is_nan py = false -> PrimFloat.leb r y1 = true)
      /\ (vel_x (ball_velocity b') = vel_x (ball_velocity b)
          \/ vel_x (ball_velocity b') = PrimFloat.opp (vel_x (ball_velocity b)))
      /\ (vel_y (ball_velocity b') = vel_y (ball_velocity b)
          \/ vel_y (ball_velocity b') = PrimFloat.opp (vel_y (ball_velocity b)))
      /\ ball_radius b' = r).
Proof.
  intros b r right bottom px py y1 b' Hwide.
  destruct (float_leb_not_nan _ _ Hwide) as [Nr Nright].
  assert (Hlost : lives (gameState (updateBall e)) = lives (gameState e)
                  <-> PrimFloat.leb bottom y1 = false).
  { unfold updateBall. cbv zeta.
    match goal with
    | |- context [if ?c then loseLife ?e1 else _] =>
        change c with (PrimFloat.leb bottom y1);
        destruct (PrimFloat.leb bottom y1) eqn:Hb;
        [pose proof (loseLife_frame e1) as (_ & _ & _ & _ & _ & _ & Hl & _) |]
    end.
    - split; [|discriminate]. intros Heq. rewrite Hl in Heq. simpl in Heq. lia.
    - simpl. split; reflexivity. }
  split; [exact Hlost|]. intros Hkeep. apply Hlost in Hkeep.
  assert (Hb' : b' = set_ball_velocity
                       {| vel_x := if PrimFloat.leb px r || PrimFloat.leb right px
                                   then PrimFloat.opp (vel_x (ball_velocity b))
                                   else vel_x (ball_velocity b);
                          vel_y := if PrimFloat.leb py r
                                   then PrimFloat.opp (vel_y (ball_velocity b))
                                   else vel_y (ball_velocity b) |}
                       (set_ball_position
                          {| pos_x := if PrimFloat.leb px r || PrimFloat.leb right px
                                      then float_max r (float_min right px)
                                      else px;
                             pos_y := y1 |} b)).
  { subst b'. unfold updateBall. cbv zeta.
    match goal with
    | |- context [if ?c then loseLife ?e1 else _] =>
        change c with (PrimFloat.leb bottom y1)
    end.
    rewrite Hkeep. reflexivity. }
  rewrite Hb'. cbn [ball_position ball_velocity ball_radius set_ball_velocity
                     set_ball_position pos_x pos_y vel_x vel_y].
  clear Hb' b' Hlost.
  split; [|split; [|split; [|split; [|split; [|split]]]]].
  - destruct (PrimFloat.is_nan px) eqn:Npx.
    + destruct (float_compare_cases px r) as [(_ & _ & _ & H1 & _) | (H & _)];
        [|congruence].
      destruct (float_compare_cases right px) as [(_ & _ & _ & H2 & _) | (_ & H & _)];
        [|congruence].
      rewrite H1, H2. exact Npx.
    + destruct (PrimFloat.leb px r || PrimFloat.leb right px); [|exact Npx].
      destruct (PrimFloat.is_nan (float_max r (float_min right px))) eqn:Hn; [|reflexivity].
      apply float_clamp_nan in Hn. intuition congruence.
  - intros Npx.
    destruct (PrimFloat.leb px r || PrimFloat.leb right px) eqn:Hhit.
    + assert (Hn : PrimFloat.is_nan (float_max r (float_min right px)) = false).
      { destruct (PrimFloat.is_nan (float_max r (float_min right px))) eqn:Hn;
          [|reflexivity].
        apply float_clamp_nan in Hn. intuition congruence. }
      destruct (float_clamp_range r right px Hn) as [H1 H2]. split; [exact H1 | now apply H2].
    + apply orb_false_iff in Hhit as [H1 H2]. split; apply float_ltb_leb.
      * now apply float_not_leb.
      * now apply float_not_leb.
  - reflexivity.
  - intros Npy. subst y1. destruct (PrimFloat.leb py r) eqn:Htop.
    + now apply float_leb_refl.
    + apply float_ltb_leb. now apply float_not_leb.
  - destruct (PrimFloat.leb px r || PrimFloat.leb right px); auto.
  - destruct (PrimFloat.leb py r); auto.
  - reflexivity.
Qed.

(** X12. Resizing on binary64.  [updateCanvasSize] changes the paddle in its
    x coordinate only, to the old one or to [width of the canvas - width of
    the paddle], whichever is less: the paddle moves left, never right, and
    is not clamped at 0, so that on a surface narrower than the paddle its x
    is negative.  The ball changes in its x coordinate only, which is
    clamped between the side walls.  A NaN among the inputs of either clamp
    comes out as NaN.  A paddle and a ball strictly inside are left as they
    are, and with a positive radius a second call changes nothing more. *)
Theorem updateCanvasSize_clamps (e : Engine float) :
  let g := gameState e in
  let g' := gameState (updateCanvasSize e) in
  let width := float_ofZ (canvas_width (canvas e)) in
  let r := ball_radius (ball g) in
  let limit := PrimFloat.sub width (paddle_width (paddle g)) in
  let right := PrimFloat.sub width r in
  let x := pos_x (paddle_position (paddle g)) in
  let x' := pos_x (paddle_position (paddle g')) in
  let bx := pos_x (ball_position (ball g)) in
  let bx' := pos_x (ball_position (ball g')) in
  (paddle g' = set_paddle_x x' (paddle g)
   /\ (x' = x \/ x' = limit)
   /\ (PrimFloat.is_nan x' = true
       <-> PrimFloat.is_nan x = true \/ PrimFloat.is_nan limit = true)
   /\ (PrimFloat.is_nan x' = false ->
       PrimFloat.leb x' limit = true /\ PrimFloat.leb x' x = true)
   /\ (PrimFloat.is_nan x = false -> PrimFloat.ltb limit (float_ofZ 0) = true ->
       PrimFloat.ltb x' (float_ofZ 0) = true)
   /\ (PrimFloat.ltb x limit = true -> paddle g' = paddle g))
  /\ (ball g'
      = set_ball_position {| pos_x := bx'; pos_y := pos_y (ball_position (ball g)) |} (ball g)
      /\ (PrimFloat.is_nan bx' = true
          <-> PrimFloat.is_nan r = true \/ PrimFloat.is_nan right = true
              \/ PrimFloat.is_nan bx = true)
      /\ (PrimFloat.is_nan bx' = false ->
          PrimFloat.leb r bx' = true
          /\ (PrimFloat.leb r right = true -> PrimFloat.leb bx' right = true))
      /\ (PrimFloat.ltb r bx = true -> PrimFloat.ltb bx right = true -> ball g' = ball g))
  /\ (PrimFloat.ltb (float_ofZ 0) r = true ->
      updateCanvasSize (updateCanvasSize e) = updateCanvasSize e).
Proof.
  intros g g' width r limit right x x' bx bx'.
  assert (Hx : x' = float_min x limit).
  { subst x' g'. unfold updateCanvasSize. cbv zeta.
    destruct (negb (level _ =? 0)); reflexivity. }
  assert (Hbx : bx' = float_max r (float_min right bx)).
  { subst bx' g'. unfold updateCanvasSize. cbv zeta.
    destruct (negb (level _ =? 0)); reflexivity. }
  assert (Hp : paddle g' = set_paddle_x x' (paddle g)).
  { subst x' g'. unfold updateCanvasSize. cbv zeta.
    destruct (negb (level _ =? 0)); reflexivity. }
  assert (Hb : ball g' = set_ball_position
                           {| pos_x := bx'; pos_y := pos_y (ball_position (ball g)) |}
                           (ball g)).
  { subst bx' g'. unfold updateCanvasSize. cbv zeta.
    destruct (negb (level _ =? 0)); reflexivity. }
  split; [|split].
  - split; [exact Hp|]. rewrite Hp, Hx. clear Hp Hx Hb Hbx x' bx' g'.
    split; [apply float_min_select|].
    destruct (float_min_cases x limit)
      as [(Nx & E) | [(Nx & Nl & E) | (Nx & Nl & Nm & Hsel & Hle1 & Hle2)]].
    + rewrite E. split; [|split; [|split]]; try (intros; congruence).
      * split; auto.
      * intros Hlt. destruct (float_ltb_not_nan _ _ Hlt). congruence.
    + rewrite E. split; [|split; [|split]]; try (intros; congruence).
      * split; auto.
      * intros Hlt. destruct (float_ltb_not_nan _ _ Hlt). congruence.
    + split; [|split; [|split]].
      * rewrite Nm. split; [discriminate | intros [? | ?]; congruence].
      * intros _. now split.
      * intros _ Hneg. now apply (float_leb_ltb_trans _ limit).
      * intros Hlt. unfold float_min. rewrite Nx, Nl, Hlt.
        now destruct (paddle g) as [[px py] w h s c].
  - split; [exact Hb|]. rewrite Hb, Hbx. clear Hp Hx Hb Hbx x' bx' g'.
    split; [apply float_clamp_nan|]. split; [apply float_clamp_range|].
    intros H1 H2. rewrite (float_clamp_strictly_inside r right bx H1 H2).
    now destruct (ball g) as [[px py] v rr c].
  - intros Hpos.
    assert (Hidem : forall (c : Canvas) (cfg : GameConfig float) (g0 : GameState float)
                           (ctl : Controls float),
               PrimFloat.ltb (float_ofZ 0) (ball_radius (ball g0)) = true ->
               updateCanvasSize (updateCanvasSize (mkEngine c cfg g0 ctl))
               = updateCanvasSize (mkEngine c cfg g0 ctl)).
    { intros c cfg [run_ paused sc li lvl [[bx0 by0] v r0 col] [[px py] w h s pc] bs] ctl Hr.
      unfold updateCanvasSize, updateConfig. cbn -[float_min float_max float_ofZ generateBlocks].
      destruct (lvl =? 0) eqn:Hl; cbn -[float_min float_max float_ofZ generateBlocks];
        rewrite ?Hl; cbn -[float_min float_max float_ofZ generateBlocks];
        rewrite float_min_absorb_r, (float_clamp_idem _ _ _ Hr); reflexivity. }
    destruct e as [c cfg g0 ctl]. now apply Hidem.
Qed.

(** ** The paddle bounce on binary64 *)

Lemma float_min_nan_r (a b : float) :
  PrimFloat.is_nan b = true -> PrimFloat.is_nan (float_min a b) = true.
Proof.
  intros Hb. unfold float_min. destruct (PrimFloat.is_nan a) eqn:Ha; [exact Ha|].
  now rewrite Hb.
Qed.

Lemma float_max_nan_r (a b : float) :
  PrimFloat.is_nan b = true -> PrimFloat.is_nan (float_max a b) = true.
Proof.
  intros Hb. unfold float_max. destruct (PrimFloat.is_nan a) eqn:Ha; [exact Ha|].
  now rewrite Hb.
Qed.

(** A paddle whose x is NaN turns the velocity of every ball that bounces
    off it into NaN, in both components. *)
Lemma paddleBounce_nan (cfg : GameConfig float) (paddle : Paddle float) (ball : Ball float) :
  PrimFloat.is_nan (pos_x (paddle_position paddle)) = true ->
  let v' := ball_velocity (paddleBounce cfg paddle ball) in
  PrimFloat.is_nan (vel_x v') = true
  /\ PrimFloat.is_nan (vel_y v') = true
  /\ PrimFloat.is_nan (speed v') = true.
Proof.
  intros Hx v'.
  assert (Hh : PrimFloat.is_nan (hitPos paddle ball) = true).
  { unfold hitPos. apply float_max_nan_r, float_min_nan_r. cbn [div sub add float_Number].
    apply float_div_nan. left. apply float_sub_nan. right. apply float_add_nan. now left. }
  assert (Hs : forall vy : float,
             PrimFloat.is_nan
               (PrimFloat.sqrt
                  (PrimFloat.add
                     (PrimFloat.mul (PrimFloat.mul (hitPos paddle ball) (float_ofZ 5))
                                    (PrimFloat.mul (hitPos paddle ball) (float_ofZ 5)))
                     (PrimFloat.mul vy vy))) = true).
  { intros vy. apply float_sqrt_nan, float_add_nan. left.
    apply float_mul_nan. left. apply float_mul_nan. now left. }
  assert (Hvx : PrimFloat.is_nan (vel_x v') = true).
  { subst v'. unfold paddleBounce. cbn -[hitPos float_ofZ]. fold (hitPos paddle ball).
    apply float_mul_nan. left. apply float_div_nan. right. apply Hs. }
  assert (Hvy : PrimFloat.is_nan (vel_y v') = true).
  { subst v'. unfold paddleBounce. cbn -[hitPos float_ofZ]. fold (hitPos paddle ball).
    apply float_mul_nan. left. apply float_div_nan. right. apply Hs. }
  split; [exact Hvx|]. split; [exact Hvy|].
  unfold speed. cbn [Math_sqrt add mul float_Number].
  apply float_sqrt_nan, float_add_nan. left. apply float_mul_nan. now left.
Qed.




(** Away from NaN the binary64 bounce comes out as intended: 30 to the right
    of the middle of the paddle the ball goes up and to the right, and its
    speed is 6 to within one part in 10^15, though not 6 itself. *)
Example paddle_bounce_float_off_centre :
  let v' := ball_velocity (ball (gameState (checkCollisions_paddle ball_off_centre_float))) in
  isColliding (ball (gameState ball_off_centre_float))
              (paddle_rect (paddle (gameState ball_off_centre_float))) = true
  /\ PrimFloat.ltb (vel_y v') (float_ofZ 0) = true
  /\ PrimFloat.ltb (float_ofZ 0) (vel_x v') = true
  /\ PrimFloat.ltb (PrimFloat.abs (PrimFloat.sub (speed v') (float_ofZ 6)))
                   (PrimFloat.div (float_ofZ 6) (float_ofZ 1000000000000000)) = true
  /\ PrimFloat.eqb (speed v') (float_ofZ 6) = false.
Proof. intros v'. subst v'. by_evaluation. Qed.

(** ** Speed and placement in exact arithmetic *)

(** Case analysis on every comparison of reals in the goal, innermost
    first. *)
Ltac real_decide :=
  repeat match goal with
         | |- context [Rcase_abs ?x] => destruct (Rcase_abs x)
         | |- context [Rlt_dec ?a ?b] => destruct (Rlt_dec a b)
         | |- context [Rle_dec ?a ?b] => destruct (Rle_dec a b)
         end.

Ltac real_cases :=
  unfold Rltb, Rleb, Rabs; real_decide;
  unfold Rmin; real_decide;
  unfold Rmax; real_decide.

Section SpeedFacts.
Local Open Scope R_scope.

Lemma speed_abs (v1 v2 : Velocity R) :
  Rabs (vel_x v1) = Rabs (vel_x v2) -> Rabs (vel_y v1) = Rabs (vel_y v2) ->
  speed v1 = speed v2.
Proof.
  intros Hx Hy. unfold speed. simpl. f_equal.
  assert (Hsq : forall a : R, a * a = Rabs a * Rabs a)
    by (intros a; unfold Rabs; destruct (Rcase_abs a); ring).
  rewrite (Hsq (vel_x v1)), (Hsq (vel_y v1)), (Hsq (vel_x v2)), (Hsq (vel_y v2)).
  now rewrite Hx, Hy.
Qed.

Lemma blockBounce_abs (blk : Block R) (b : Ball R) :
  Rabs (vel_x (ball_velocity (blockBounce blk b))) = Rabs (vel_x (ball_velocity b))
  /\ Rabs (vel_y (ball_velocity (blockBounce blk b))) = Rabs (vel_y (ball_velocity b)).
Proof.
  unfold blockBounce. cbv zeta.
  split_ifs; simpl; split; try reflexivity; apply Rabs_Ropp.
Qed.

Lemma updateBall_abs (e : Engine R) :
  lives (gameState (updateBall e)) = lives (gameState e) ->
  Rabs (vel_x (ball_velocity (ball (gameState (updateBall e)))))
  = Rabs (vel_x (ball_velocity (ball (gameState e))))
  /\ Rabs (vel_y (ball_velocity (ball (gameState (updateBall e)))))
     = Rabs (vel_y (ball_velocity (ball (gameState e)))).
Proof.
  unfold updateBall. cbv zeta.
  match goal with
  | |- context [if ?c then loseLife ?moved else _] => destruct c; [set (e1 := moved)|]
  end.
  - intros Heq. exfalso.
    destruct (loseLife_frame e1) as (_ & _ & _ & _ & _ & _ & Hl & _).
    rewrite Hl in Heq. subst e1. simpl in Heq. lia.
  - intros _. simpl. split; split_ifs; try reflexivity; apply Rabs_Ropp.
Qed.

(** X10. Walls and blocks never change the speed of the ball.  In exact
    arithmetic, a frame of a running game in which the ball does not bounce
    off the paddle, no life is lost and the level is not completed leaves the
    magnitude of each velocity component, and so the speed, as it was. *)
Theorem frame_keeps_speed (deltaTime : R) (e : Engine R) :
  let e2 := updateBall (updatePaddle e) in
  let v := ball_velocity (ball (gameState e)) in
  let v' := ball_velocity (ball (gameState (update deltaTime e))) in
  isRunning (gameState e) = true -> isPaused (gameState e) = false ->
  isColliding (ball (gameState e2)) (paddle_rect (paddle (gameState e2)))
  && Rltb 0 (vel_y (ball_velocity (ball (gameState e2)))) = false ->
  lives (gameState (update deltaTime e)) = lives (gameState e) ->
  level (gameState (update deltaTime e)) = level (gameState e) ->
  Rabs (vel_x v') = Rabs (vel_x v)
  /\ Rabs (vel_y v') = Rabs (vel_y v)
  /\ speed v' = speed v.
Proof.
  intros e2 v v' Hr Hp Hpaddle Hlives Hlevel.
  assert (Habs : Rabs (vel_x v') = Rabs (vel_x v) /\ Rabs (vel_y v') = Rabs (vel_y v));
    [|destruct Habs; repeat split; try assumption; now apply speed_abs].
  subst v v'. revert Hlives Hlevel. rewrite (update_running deltaTime e Hr Hp).
  fold e2.
  assert (Hnohit : checkCollisions_paddle e2 = e2).
  { unfold checkCollisions_paddle.
    change (lt (ofZ 0) (vel_y (ball_velocity (ball (gameState e2)))))
      with (Rltb 0 (vel_y (ball_velocity (ball (gameState e2))))).
    now rewrite Hpaddle. }
  rewrite Hnohit.
  set (e4 := checkCollisions_blocks e2).
  destruct (checkGameOver_frame e4) as (_ & G5).
  destruct (checkCollisions_blocks_frame e2) as (_ & _ & _ & Li4 & L4 & _ & Loop).
  fold e4 in Li4, L4, Loop.
  destruct (updateBall_frame (updatePaddle e)) as (_ & _ & _ & L2 & _ & _ & _).
  fold e2 in L2.
  assert (Hkeep : checkLevelComplete (checkGameOver e4) = checkGameOver e4
                  \/ checkLevelComplete (checkGameOver e4) = nextLevel (checkGameOver e4)).
  { unfold checkLevelComplete. split_ifs; [now right | now left]. }
  destruct Hkeep as [-> | ->].
  - rewrite G5. simpl. intros Hlives _.
    assert (Hl2 : lives (gameState e2) = lives (gameState (updatePaddle e))) by
      (rewrite <- Li4; exact Hlives).
    destruct (updateBall_abs (updatePaddle e) Hl2) as [Hx Hy]. fold e2 in Hx, Hy.
    simpl in Hx, Hy.
    destruct (blockLoop_spec (ball (gameState e2)) (score (gameState e2))
                (blocks (gameState e2)))
      as [[_ Heq] | (i & blk & _ & _ & _ & Heq)];
      rewrite Heq in Loop; injection Loop as <- _ _.
    + now split.
    + destruct (blockBounce_abs blk (ball (gameState e2))) as [Bx By].
      split; congruence.
  - intros _ Hlevel. exfalso.
    destruct (nextLevel_frame (checkGameOver e4)) as (_ & _ & _ & _ & _ & _ & HL & _).
    rewrite HL, G5 in Hlevel. simpl in Hlevel. rewrite L4, L2 in Hlevel.
    simpl in Hlevel. lia.
Qed.

(** X11. After a bounce off the paddle, and after the ball is put back
    ([resetBall], on a lost life or a new level), the ball does not overlap
    the paddle: it is placed a full radius and more above the paddle's top
    edge.  After [resetBall] it is centred on the paddle and moves up and to
    the right with velocity (3, -3). *)
Theorem ball_placed_clear_of_paddle (e : Engine R) :
  let g := gameState e in
  0 <= ball_radius (ball g) -> 0 <= paddle_height (paddle g) ->
  isColliding (paddleBounce (config e) (paddle g) (ball g)) (paddle_rect (paddle g)) = false
  /\ (let g' := gameState (resetBall e) in
      isColliding (ball g') (paddle_rect (paddle g')) = false
      /\ pos_x (ball_position (ball g'))
         = pos_x (paddle_position (paddle g)) + paddle_width (paddle g) / 2
      /\ pos_y (ball_position (ball g')) + ball_radius (ball g) + 5
         = pos_y (paddle_position (paddle g))
      /\ ball_velocity (ball g') = {| vel_x := 3; vel_y := -3 |}
      /\ paddle g' = paddle g).
Proof.
  intros g Hr Hh. subst g. split; [|split; [|split; [|split; [|split]]]].
  - unfold isColliding, paddleBounce. simpl. real_cases; try reflexivity; lra.
  - unfold isColliding, resetBall. simpl. real_cases; try reflexivity; lra.
  - reflexivity.
  - simpl. lra.
  - reflexivity.
  - reflexivity.
Qed.

End SpeedFacts.

(** ** Drawing and the browser *)

Section DrawingFacts.
Context {N : Type} `{Number N}.

(** X13. What the player sees.  In every reachable state [render] draws
    exactly the blocks that are not destroyed, in stored order, and draws no
    overlay exactly when the simulation is live (running and not paused).
    The Game Over overlay is drawn exactly when no life is left; the game is
    then not running and the Ready overlay is not drawn. *)
Theorem render_overlays (e : Engine N) :
  reachable e ->
  let g := gameState e in
  let titles := overlay_titles (render e) in
  drawn_blocks (render e) = List.filter (fun b => negb (destroyed b)) (blocks g)
  /\ (titles = [] <-> isRunning g = true /\ isPaused g = false)
  /\ (In "Game Over"%string titles <-> lives g <= 0)
  /\ (In "Game Over"%string titles ->
      isRunning g = false /\ ~ In "Ready to Play?"%string titles).
Proof.
  intros Hreach g titles.
  destruct (reachable_inv e Hreach) as [_ Hrun]. fold g in Hrun.
  assert (Hblocks : drawn_blocks (render e)
                    = List.filter (fun b => negb (destroyed b)) (blocks g)).
  { unfold render, drawn_blocks. fold g. cbn [flat_map app].
    rewrite flat_map_app.
    assert (Hmap : forall bs : list (Block N),
               flat_map (fun c : DrawCall N =>
                           match c with DrawAppleBlock b => [b] | _ => [] end)
                        (map DrawAppleBlock bs) = bs).
    { induction bs as [|b bs IH]; simpl; [reflexivity | now rewrite IH]. }
    rewrite Hmap. unfold drawUI. fold g. cbn [flat_map app].
    rewrite !flat_map_app. split_ifs; simpl; now rewrite app_nil_r. }
  split; [exact Hblocks|].
  assert (Ht : titles
               = (if negb (isRunning g) && (lives g >? 0) then ["Ready to Play?"%string] else [])
                 ++ (if lives g <=? 0 then ["Game Over"%string] else [])
                 ++ (if isPaused g then ["Paused"%string] else [])).
  { subst titles. unfold render, overlay_titles. fold g. cbn [flat_map app].
    rewrite flat_map_app.
    assert (Hmap : forall bs : list (Block N),
               flat_map (fun c : DrawCall N =>
                           match c with DrawAppleOverlay t _ _ => [t] | _ => [] end)
                        (map DrawAppleBlock bs) = []).
    { induction bs as [|b bs IH]; simpl; [reflexivity | exact IH]. }
    rewrite Hmap. unfold drawUI. fold g. cbn [flat_map app].
    rewrite !flat_map_app. split_ifs; reflexivity. }
  rewrite Ht. clear Ht titles Hblocks.
  destruct (isRunning g), (isPaused g), (Z.gtb_spec (lives g) 0), (Z.leb_spec (lives g) 0);
    try lia; simpl;
    (split; [|split]);
    try (specialize (Hrun eq_refl));
    intuition (try discriminate; try lia; try congruence).
Qed.
End DrawingFacts.

Section RuntimeFacts.
Context {N : Type} `{Number N}.

Lemma filter_other_handles (h : nat) (hs : list nat) :
  h ∉ hs -> List.filter (fun h' => negb (h' =? h)%nat) hs = hs.
Proof.
  induction hs as [|x hs IH]; intros Hnot; simpl; [reflexivity|].
  apply not_elem_of_cons in Hnot as [Hx Hhs].
  destruct (Nat.eqb_spec x h); [congruence|]. simpl. now rewrite IH.
Qed.

Lemma filter_head_handle (h : nat) (hs : list nat) :
  h ∉ hs -> List.filter (fun h' => negb (h' =? h)%nat) (h :: hs) = hs.
Proof. intros Hnot. simpl. rewrite Nat.eqb_refl. simpl. now apply filter_other_handles. Qed.

Lemma filter_handle_length (h : nat) (hs : list nat) :
  NoDup hs ->
  List.length (List.filter (fun h' => negb (h' =? h)%nat) hs)
  = (List.length hs - (if decide (h ∈ hs) then 1 else 0))%nat.
Proof.
  induction 1 as [|x hs Hx Hnd IH]; [reflexivity|].
  destruct (Nat.eqb_spec x h) as [-> | Hne].
  - rewrite filter_head_handle by assumption.
    rewrite decide_True by apply list_elem_of_here. simpl. lia.
  - simpl. destruct (Nat.eqb_spec x h); [congruence|]. simpl. rewrite IH.
    destruct (decide (h ∈ hs)) as [Hin | Hnin].
    + rewrite decide_True by now apply list_elem_of_further.
      destruct hs; [inversion Hin | simpl; lia].
    + rewrite decide_False; [lia|].
      intros Hin. apply elem_of_cons in Hin as [-> | Hin]; [congruence | contradiction].
Qed.

(** The callbacks [handles] of a frame, when they head the list: each is
    run once and replaced by a new handle at the end of the list. *)
Lemma run_callbacks_spec (dt : N) (handles : list nat) :
  forall (rt : Runtime N) (extra : list nat),
    rt_callbacks rt = handles ++ extra ->
    NoDup (handles ++ extra) ->
    Forall (fun h => (1 <= h <= rt_last_handle rt)%nat) (handles ++ extra) ->
    let rt' := run_callbacks dt handles rt in
    rt_engine rt' = Nat.iter (List.length handles) (update dt) (rt_engine rt)
    /\ rt_callbacks rt' = extra ++ seq (S (rt_last_handle rt)) (List.length handles)
    /\ rt_last_handle rt' = (rt_last_handle rt + List.length handles)%nat
    /\ rt_eventListeners rt' = rt_eventListeners rt
    /\ rt_registered rt' = rt_registered rt
    /\ (handles <> [] -> rt_animationId rt' = Some (rt_last_handle rt')).
Proof.
  induction handles as [|h hs IH]; intros rt extra Hcb Hnd Hle; simpl.
  - rewrite app_nil_r, Nat.add_0_r. now repeat split.
  - simpl in Hcb, Hnd, Hle. apply NoDup_cons in Hnd as [Hh Hnd].
    apply Forall_cons in Hle as [Hh1 Hle].
    rewrite decide_True by (rewrite Hcb; apply list_elem_of_here).
    rewrite Hcb, filter_head_handle by assumption.
    match goal with |- context [run_callbacks dt hs ?r] => set (rt1 := r) end.
    assert (Hcb1 : rt_callbacks rt1 = hs ++ (extra ++ [S (rt_last_handle rt)]))
      by (subst rt1; simpl; now rewrite app_assoc).
    assert (Hnd1 : NoDup (hs ++ extra ++ [S (rt_last_handle rt)])).
    { rewrite app_assoc. apply NoDup_app. split; [assumption|]. split.
      - intros x Hx Hx'. apply list_elem_of_singleton in Hx'. subst x.
        apply (proj1 (Forall_forall _ _) Hle) in Hx. lia.
      - apply NoDup_singleton. }
    assert (Hle1 : Forall (fun x => (1 <= x <= rt_last_handle rt1)%nat)
                          (hs ++ extra ++ [S (rt_last_handle rt)])).
    { subst rt1. simpl. rewrite app_assoc. apply Forall_app. split.
      - eapply Forall_impl; [exact Hle|]. simpl. intros x Hx. lia.
      - apply Forall_singleton. lia. }
    destruct (IH rt1 _ Hcb1 Hnd1 Hle1) as (He & Hc & Hl & Hev & Hreg & Hid).
    subst rt1. simpl in *.
    rewrite He, Hc, Hl, Hev, Hreg.
    repeat split.
    + apply Nat.iter_swap.
    + now rewrite <- app_assoc.
    + lia.
    + intros _. destruct hs as [|h' hs'].
      * simpl. f_equal. lia.
      * rewrite Hid by discriminate. now rewrite Hl.
Qed.

Lemma start_rt_callbacks (rt : Runtime N) :
  rt_callbacks (start_rt rt)
  = if isRunning (gameState (rt_engine rt)) then rt_callbacks rt
    else rt_callbacks rt ++ [S (rt_last_handle rt)].
Proof. unfold start_rt. now destruct (isRunning (gameState (rt_engine rt))). Qed.

(** X14. Animation loops.  With the pending callback handles distinct, a
    frame of the display calls [update] once for every pending callback and
    leaves as many pending as before: a loop, once started, is only ever
    ended by a cancellation.  [start] adds a loop when the game is not running
    and cancels none; [reset] cancels one pending callback at most.  So on an
    engine that is not running and has loops pending (after a game over), the
    sequence start, reset, start ends with one loop more than it began with,
    and every frame of the display from then on advances the game once per
    loop. *)
Theorem animation_loops (deltaTime : N) (rt : Runtime N) :
  callbacks_ok rt ->
  let loops (r : Runtime N) := List.length (rt_callbacks r) in
  (rt_engine (display_frame deltaTime rt)
   = Nat.iter (loops rt) (update deltaTime) (rt_engine rt)
   /\ loops (display_frame deltaTime rt) = loops rt
   /\ callbacks_ok (display_frame deltaTime rt))
  /\ (loops (start_rt rt)
      = (loops rt + (if isRunning (gameState (rt_engine rt)) then 0 else 1))%nat
      /\ rt_engine (start_rt rt) = start (rt_engine rt)
      /\ callbacks_ok (start_rt rt))
  /\ ((loops rt - 1 <= loops (reset_rt rt) <= loops rt)%nat
      /\ rt_engine (reset_rt rt) = reset (rt_engine rt)
      /\ callbacks_ok (reset_rt rt))
  /\ (isRunning (gameState (rt_engine rt)) = false ->
      (1 <= loops rt)%nat ->
      loops (start_rt (reset_rt (start_rt rt))) = (loops rt + 1)%nat).
Proof.
  intros [Hnd Hle] loops. subst loops. cbv beta.
  assert (Hcancel : forall r : Runtime N,
             NoDup (rt_callbacks r) ->
             Forall (fun h => (1 <= h <= rt_last_handle r)%nat) (rt_callbacks r) ->
             NoDup (rt_callbacks (cancel_pending r))
             /\ Forall (fun h => (1 <= h <= rt_last_handle (cancel_pending r))%nat)
                       (rt_callbacks (cancel_pending r))
             /\ (List.length (rt_callbacks r) - 1
                 <= List.length (rt_callbacks (cancel_pending r))
                 <= List.length (rt_callbacks r))%nat
             /\ rt_engine (cancel_pending r) = rt_engine r
             /\ (forall h, rt_animationId r = Some h -> h ∈ rt_callbacks r -> h <> 0%nat ->
                           List.length (rt_callbacks (cancel_pending r))
                           = (List.length (rt_callbacks r) - 1)%nat)).
  { intros r Hn Hl. unfold cancel_pending.
    destruct (rt_animationId r) as [h|]; [destruct (Nat.eqb_spec h 0)|]; simpl.
    - repeat split; try assumption; try lia. intros h' [= <-] _ Hz. contradiction.
    - pose proof (filter_handle_length h (rt_callbacks r) Hn) as Hlen.
      repeat split.
      + apply NoDup_ListNoDup, List.NoDup_filter, NoDup_ListNoDup, Hn.
      + apply Forall_forall. intros x Hx. apply list_elem_of_In, filter_In in Hx as [Hx _].
        apply (proj1 (Forall_forall _ _) Hl). now apply list_elem_of_In.
      + rewrite Hlen. destruct (decide _); lia.
      + rewrite Hlen. lia.
      + intros h' [= <-] Hin _. rewrite Hlen. now rewrite decide_True.
    - repeat split; try assumption; try lia. discriminate. }
  assert (Hstart : forall r : Runtime N,
             NoDup (rt_callbacks r) ->
             Forall (fun h => (1 <= h <= rt_last_handle r)%nat) (rt_callbacks r) ->
             callbacks_ok (start_rt r)).
  { intros r Hn Hl. unfold start_rt, callbacks_ok.
    destruct (isRunning (gameState (rt_engine r))); simpl; [now split|]. split.
    - apply NoDup_app. split; [assumption|]. split; [|apply NoDup_singleton].
      intros x Hx Hx'. apply list_elem_of_singleton in Hx'. subst x.
      apply (proj1 (Forall_forall _ _) Hl) in Hx. lia.
    - apply Forall_app. split; [|apply Forall_singleton; lia].
      eapply Forall_impl; [exact Hl|]. simpl. intros x Hx. lia. }
  split; [|split; [|split]].
  - unfold display_frame.
    destruct (run_callbacks_spec deltaTime (rt_callbacks rt) rt []
                ltac:(now rewrite app_nil_r) ltac:(now rewrite app_nil_r)
                ltac:(now rewrite app_nil_r))
      as (He & Hc & Hl & _).
    split; [exact He|]. split.
    + rewrite Hc. simpl. now rewrite length_seq.
    + unfold callbacks_ok. rewrite Hc, Hl. simpl. split.
      * apply NoDup_ListNoDup, seq_NoDup.
      * apply Forall_forall. intros x Hx. apply list_elem_of_In, in_seq in Hx. lia.
  - split; [|split; [|now apply Hstart]].
    + rewrite start_rt_callbacks.
      destruct (isRunning (gameState (rt_engine rt)));
        [lia | rewrite length_app; simpl; lia].
    + unfold start_rt, start.
      now destruct (isRunning (gameState (rt_engine rt))).
  - destruct (Hcancel rt Hnd Hle) as (Hn1 & Hl1 & Hlen & He & _).
    unfold reset_rt. simpl. rewrite He. split; [exact Hlen|]. split; [reflexivity|].
    split; assumption.
  - intros Hidle Hloops.
    pose proof (Hstart rt Hnd Hle) as [Hn1 Hl1].
    assert (Hid1 : rt_animationId (start_rt rt) = Some (S (rt_last_handle rt))
                   /\ S (rt_last_handle rt) ∈ rt_callbacks (start_rt rt)
                   /\ List.length (rt_callbacks (start_rt rt))
                      = S (List.length (rt_callbacks rt))).
    { unfold start_rt. rewrite Hidle. simpl. split; [reflexivity|]. split.
      - apply elem_of_app. right. apply list_elem_of_singleton. reflexivity.
      - rewrite length_app. simpl. lia. }
    destruct Hid1 as (Hid & Hin & Hlen1).
    destruct (Hcancel (start_rt rt) Hn1 Hl1) as (Hn2 & Hl2 & _ & He2 & Hexact).
    specialize (Hexact _ Hid Hin ltac:(lia)).
    rewrite start_rt_callbacks.
    assert (Hreset_idle : isRunning (gameState (rt_engine (reset_rt (start_rt rt)))) = false)
      by reflexivity.
    rewrite Hreset_idle, length_app. simpl.
    unfold reset_rt. simpl. rewrite Hexact, Hlen1. lia.
Qed.

Lemma removeEventListener_other (l l' : Listener) (registered : list Listener) :
  l' <> l -> (l' ∈ removeEventListener l registered <-> l' ∈ registered).
Proof.
  intros Hne. unfold removeEventListener.
  rewrite !list_elem_of_In, filter_In.
  rewrite bool_decide_eq_false_2 by assumption. simpl. tauto.
Qed.

Lemma removeEventListener_absent (l : Listener) (registered : list Listener) :
  l ∉ registered -> removeEventListener l registered = registered.
Proof.
  unfold removeEventListener.
  induction registered as [|x xs IH]; intros Hnot; simpl; [reflexivity|].
  apply not_elem_of_cons in Hnot as [Hx Hxs].
  rewrite bool_decide_eq_false_2 by congruence. simpl. now rewrite IH.
Qed.

Lemma remove_all_filter (ls registered : list Listener) :
  fold_left (fun registered l => removeEventListener l registered) ls registered
  = List.filter (fun x => negb (bool_decide (x ∈ ls))) registered.
Proof.
  revert registered. induction ls as [|l ls IH]; intros registered; simpl.
  - induction registered as [|x xs IHx]; [reflexivity|].
    cbn [List.filter]. now f_equal.
  - rewrite IH. unfold removeEventListener.
    induction registered as [|x xs IHx]; simpl; [reflexivity|].
    destruct (decide (x = l)) as [-> | Hne].
    + rewrite bool_decide_eq_true_2 by reflexivity. simpl.
      rewrite (bool_decide_eq_true_2 (l ∈ l :: ls)) by apply list_elem_of_here.
      simpl. exact IHx.
    + rewrite bool_decide_eq_false_2 by assumption. simpl.
      destruct (decide (x ∈ ls)) as [Hin | Hnin].
      * rewrite !bool_decide_eq_true_2;
          [simpl; exact IHx | now apply list_elem_of_further | assumption].
      * rewrite !bool_decide_eq_false_2; [simpl; now f_equal | | assumption].
        intros Hin. apply elem_of_cons in Hin as [? | ?]; contradiction.
Qed.

Lemma add_all_fresh (ls : list Listener) :
  forall rt : Runtime N,
    NoDup ls ->
    (forall l, l ∈ ls -> l ∉ rt_registered rt) ->
    let rt' := fold_left (fun rt l => addEventListenerWithTracking l rt) ls rt in
    rt_registered rt' = rt_registered rt ++ ls
    /\ rt_eventListeners rt' = rt_eventListeners rt ++ ls
    /\ rt_engine rt' = rt_engine rt /\ rt_animationId rt' = rt_animationId rt
    /\ rt_callbacks rt' = rt_callbacks rt /\ rt_last_handle rt' = rt_last_handle rt.
Proof.
  induction ls as [|l ls IH]; intros rt Hnd Hfresh; simpl.
  - rewrite !app_nil_r. now repeat split.
  - apply NoDup_cons in Hnd as [Hl Hnd].
    assert (Hadd : rt_registered (addEventListenerWithTracking l rt)
                   = rt_registered rt ++ [l]).
    { simpl. unfold addEventListener. rewrite decide_False; [reflexivity|].
      apply Hfresh, list_elem_of_here. }
    destruct (IH (addEventListenerWithTracking l rt) Hnd) as (Hr & He & Hrest).
    { intros l' Hl'. rewrite Hadd. intros Hin.
      apply elem_of_app in Hin as [Hin | Hin].
      - apply (Hfresh l'); [now apply list_elem_of_further | assumption].
      - apply list_elem_of_singleton in Hin. subst l'. contradiction. }
    rewrite Hr, He, Hadd. simpl. rewrite <- !app_assoc. simpl. now repeat split.
Qed.

Lemma engine_listeners_owner (owner : nat) (l : Listener) :
  l ∈ engine_listeners owner -> fst (listener_handler l) = owner.
Proof.
  unfold engine_listeners. intros Hin.
  repeat (apply elem_of_cons in Hin as [-> | Hin]; [reflexivity|]).
  inversion Hin.
Qed.

Lemma engine_listeners_NoDup (owner : nat) : NoDup (engine_listeners owner).
Proof.
  unfold engine_listeners.
  repeat (apply NoDup_cons; split;
          [intros Hin; repeat (apply elem_of_cons in Hin as [Hin | Hin]; [discriminate|]);
           inversion Hin|]).
  apply NoDup_nil_2.
Qed.

(** X15. Listeners are released symmetrically.  A new engine registers its
    seven handlers, two on the document and five on the canvas, and tracks
    them; [destroy] removes exactly those, leaving the document and the
    canvas with the listeners they had before the engine was constructed,
    and empties the tracking list.  Calling [destroy] again changes
    nothing, on any engine. *)
Theorem destroy_releases_listeners
        (owner : nat) (c : Canvas) (registered : list Listener)
        (callbacks : list nat) (last_handle : nat) :
  (forall l, l ∈ registered -> fst (listener_handler l) <> owner) ->
  let rt := construct owner c registered callbacks last_handle in
  rt_eventListeners rt = engine_listeners owner
  /\ rt_registered rt = registered ++ engine_listeners owner
  /\ rt_registered (destroy rt) = registered
  /\ rt_eventListeners (destroy rt) = []
  /\ rt_engine (destroy rt) = rt_engine rt
  /\ forall rt0 : Runtime N, destroy (destroy rt0) = destroy rt0.
Proof.
  intros Hfresh rt.
  assert (Hdisj : forall l, l ∈ engine_listeners owner -> l ∉ registered).
  { intros l Hl Hin. apply (Hfresh l Hin). now apply engine_listeners_owner. }
  assert (Hfacts : rt_registered rt = registered ++ engine_listeners owner
                   /\ rt_eventListeners rt = engine_listeners owner).
  { destruct (add_all_fresh (engine_listeners owner)
                (mkRuntime (newGameEngine c) None [] registered callbacks last_handle)
                (engine_listeners_NoDup owner) Hdisj) as (Hr & He & _).
    split; [exact Hr | exact He]. }
  destruct Hfacts as [Hr He].
  assert (Hcancel : cancel_pending rt = rt) by reflexivity.
  clearbody rt.
  split; [exact He|]. split; [exact Hr|]. split; [|split; [reflexivity|split]].
  - unfold destroy. rewrite Hcancel. simpl. rewrite remove_all_filter, He, Hr.
    rewrite List.filter_app.
    assert (Hkeep : List.filter (fun x => negb (bool_decide (x ∈ engine_listeners owner)))
                                registered = registered).
    { clear - Hfresh. induction registered as [|x xs IH]; simpl; [reflexivity|].
      rewrite bool_decide_eq_false_2.
      - simpl. f_equal. apply IH. intros l Hl. apply Hfresh. now apply list_elem_of_further.
      - intros Hin. apply (Hfresh x); [apply list_elem_of_here|].
        now apply engine_listeners_owner. }
    rewrite Hkeep.
    assert (Hdrop : forall ls : list Listener,
               List.filter (fun x => negb (bool_decide (x ∈ engine_listeners owner)))
                           ls = [] \/ exists x, x ∈ ls /\ x ∉ engine_listeners owner).
    { induction ls as [|x xs [IH | (y & Hy & Hny)]]; simpl.
      - now left.
      - destruct (decide (x ∈ engine_listeners owner)) as [Hin | Hnin].
        + rewrite bool_decide_eq_true_2 by assumption. now left.
        + right. exists x. split; [apply list_elem_of_here | assumption].
      - right. exists y. split; [now apply list_elem_of_further | assumption]. }
    destruct (Hdrop (engine_listeners owner)) as [-> | (x & Hx & Hnx)];
      [now rewrite app_nil_r | contradiction].
  - unfold destroy. now rewrite Hcancel.
  - intros rt0. unfold destroy.
    assert (Hcc : cancel_pending
                    (mkRuntime (rt_engine (cancel_pending rt0))
                       (rt_animationId (cancel_pending rt0)) []
                       (fold_left (fun registered l => removeEventListener l registered)
                          (rt_eventListeners (cancel_pending rt0))
                          (rt_registered (cancel_pending rt0)))
                       (rt_callbacks (cancel_pending rt0))
                       (rt_last_handle (cancel_pending rt0)))
                  = mkRuntime (rt_engine (cancel_pending rt0))
                       (rt_animationId (cancel_pending rt0)) []
                       (fold_left (fun registered l => removeEventListener l registered)
                          (rt_eventListeners (cancel_pending rt0))
                          (rt_registered (cancel_pending rt0)))
                       (rt_callbacks (cancel_pending rt0))
                       (rt_last_handle (cancel_pending rt0))).
    { unfold cancel_pending. destruct rt0 as [e0 [h|] ev reg cbs lh]; simpl; [|reflexivity].
      destruct (Nat.eqb_spec h 0) as [Hz | Hnz]; simpl.
      - apply Nat.eqb_eq in Hz. now rewrite Hz.
      - apply Nat.eqb_neq in Hnz. rewrite Hnz. unfold cancelAnimationFrame. simpl.
        f_equal. clear. induction cbs as [|x xs IH]; simpl; [reflexivity|].
        destruct (x =? h)%nat eqn:Hx; simpl; [exact IH|]. rewrite Hx. simpl. now f_equal. }
    rewrite Hcc. simpl. reflexivity.
Qed.
End RuntimeFacts.

Section NarrowCanvas.
Context {N : Type} `{Number N}.

(** X17. A canvas too narrow for one column.  On a reachable engine whose
    canvas is less than 155 wide the block collection is empty, and so every
    frame of a running, unpaused game is a level transition: the level goes up
    by one per frame and the score stays as it is. *)
Theorem narrow_canvas_levels_every_frame (deltaTime : N) (e : Engine N) :
  reachable e ->
  canvasWidth (config e) < 155 ->
  isRunning (gameState e) = true -> isPaused (gameState e) = false ->
  blocks (gameState e) = []
  /\ level (gameState (update deltaTime e)) = level (gameState e) + 1
  /\ score (gameState (update deltaTime e)) = score (gameState e)
  /\ blocks (gameState (update deltaTime e)) = [].
Proof.
  intros Hreach Hnarrow Hr Hp.
  assert (Hcols : Z.to_nat (block_cols (config e)) = 0%nat).
  { unfold block_cols, offsetLeft, blockWidth, padding.
    assert ((canvasWidth (config e) - 2 * 35) / (80 + 5) < 1)
      by (apply Z.div_lt_upper_bound; lia).
    lia. }
  assert (Hempty : forall lvl, generateBlocks (config e) lvl = []).
  { intros lvl. apply length_zero_iff_nil.
    rewrite generateBlocks_length, Hcols. lia. }
  destruct (reachable_inv e Hreach) as [(_ & _ & _ & _ & _ & Hgrid) _].
  simpl in Hgrid. rewrite Hempty in Hgrid.
  assert (Hlen : blocks (gameState e) = []).
  { destruct (blocks (gameState e)); [reflexivity | discriminate Hgrid]. }
  split; [exact Hlen|].
  rewrite (update_running deltaTime e Hr Hp).
  pose proof (updatePaddle_frame e) as ((_ & C1 & _) & p1 & G1).
  pose proof (updateBall_frame (updatePaddle e))
    as ((_ & C2 & _) & _ & S2 & L2 & _ & B2 & _).
  pose proof (checkCollisions_paddle_frame (updateBall (updatePaddle e)))
    as ((_ & C3 & _) & b3 & G3).
  pose proof (checkCollisions_blocks_frame
                (checkCollisions_paddle (updateBall (updatePaddle e))))
    as ((_ & C4 & _) & _ & _ & _ & L4 & _ & Loop).
  pose proof (checkGameOver_frame
                (checkCollisions_blocks (checkCollisions_paddle (updateBall (updatePaddle e)))))
    as ((_ & C5 & _) & G5).
  set (e1 := updatePaddle e) in *.
  set (e2 := updateBall e1) in *.
  set (e3 := checkCollisions_paddle e2) in *.
  set (e4 := checkCollisions_blocks e3) in *.
  set (e5 := checkGameOver e4) in *.
  clearbody e1 e2 e3 e4 e5.
  rewrite G3 in Loop, L4. rewrite G1 in B2, L2, S2. simpl in *.
  rewrite B2, Hlen in Loop. simpl in Loop. injection Loop as _ Hs4 Hb4.
  assert (Hb5 : blocks (gameState e5) = []) by (rewrite G5; simpl; congruence).
  rewrite checkLevelComplete_cleared by (rewrite Hb5; reflexivity).
  destruct (nextLevel_frame e5) as (_ & _ & _ & Hs & _ & _ & Hl & Hb).
  rewrite Hl, Hs, Hb, G5. simpl.
  replace (config e5) with (config e) by congruence.
  repeat split; try congruence; try apply Hempty.
Qed.
End NarrowCanvas.

(** ** The responsive canvas size *)

Lemma Zrange_In (lo : Z) (n : nat) (z : Z) :
  lo <= z < lo + Z.of_nat n -> In z (Zrange lo n).
Proof.
  revert lo. induction n as [|n IH]; intros lo Hz; [lia|].
  simpl. destruct (Z.eq_dec lo z) as [-> | Hne]; [now left | right].
  apply IH. lia.
Qed.

Lemma maxWidth_table :
  forallb (fun iw => PrimFloat.Leibniz.eqb
                       (float_min (PrimFloat.sub (float_ofZ iw) (float_ofZ 40)) (float_ofZ 800))
                       (float_ofZ (Z.min (iw - 40) 800)))
          (Zrange 0 4001) = true.
Proof. vm_compute. reflexivity. Qed.

Lemma maxHeight_table :
  forallb (fun ih => PrimFloat.Leibniz.eqb
                       (float_min (PrimFloat.sub (float_ofZ ih) (float_ofZ 200)) (float_ofZ 600))
                       (float_ofZ (Z.min (ih - 200) 600)))
          (Zrange 0 4001) = true.
Proof. vm_compute. reflexivity. Qed.

(** The order of binary64 is transitive. *)
Lemma SFltb_trans (a b c : SpecFloat.spec_float) :
  SpecFloat.SFltb a b = true -> SpecFloat.SFltb b c = true -> SpecFloat.SFltb a c = true.
Proof.
  unfold SpecFloat.SFltb, SpecFloat.SFcompare.
  change (PosDef.Pos.compare_cont Eq) with Pos.compare.
  destruct a as [[]|[]| |[] m1 e1], b as [[]|[]| |[] m2 e2], c as [[]|[]| |[] m3 e3];
    try discriminate; try reflexivity.
  - destruct (Z.compare_spec e1 e2), (Z.compare_spec e2 e3), (Z.compare_spec e1 e3);
      try discriminate; try reflexivity; try lia.
    destruct (Pos.compare_spec m1 m2), (Pos.compare_spec m2 m3), (Pos.compare_spec m1 m3);
      try discriminate; try reflexivity; lia.
  - destruct (Z.compare_spec e1 e2), (Z.compare_spec e2 e3), (Z.compare_spec e1 e3);
      try discriminate; try reflexivity; try lia.
    destruct (Pos.compare_spec m1 m2), (Pos.compare_spec m2 m3), (Pos.compare_spec m1 m3);
      try discriminate; try reflexivity; lia.
Qed.

Lemma float_ltb_trans (x y z : float) :
  PrimFloat.ltb x y = true -> PrimFloat.ltb y z = true -> PrimFloat.ltb x z = true.
Proof. rewrite !FloatAxioms.ltb_spec. apply SFltb_trans. Qed.

(** The integers from -200 to 600 are in order as doubles. *)
Lemma float_ofZ_sorted_table :
  forallb (fun i => PrimFloat.ltb (float_ofZ i) (float_ofZ (i + 1))) (Zrange (-200) 800) = true.
Proof. vm_compute. reflexivity. Qed.

Lemma float_ofZ_ltb (a b : Z) :
  -200 <= a -> a < b -> b <= 600 -> PrimFloat.ltb (float_ofZ a) (float_ofZ b) = true.
Proof.
  intros Ha Hab Hb.
  assert (Hstep : forall i, -200 <= i < 600 ->
                            PrimFloat.ltb (float_ofZ i) (float_ofZ (i + 1)) = true).
  { intros i Hi.
    exact (proj1 (forallb_forall _ _) float_ofZ_sorted_table i
             (Zrange_In (-200) 800 i ltac:(lia))). }
  replace b with (a + 1 + Z.of_nat (Z.to_nat (b - a - 1))) in * by lia.
  induction (Z.to_nat (b - a - 1)) as [|n IH].
  - rewrite Z.add_0_r. apply Hstep. lia.
  - apply (float_ltb_trans _ (float_ofZ (a + 1 + Z.of_nat n))).
    + apply IH; lia.
    + replace (a + 1 + Z.of_nat (S n)) with (a + 1 + Z.of_nat n + 1) by lia.
      apply Hstep. lia.
Qed.

(** Row by row: the height [maxWidth / (4/3)] lies between the two
    integers around [3 * maxWidth / 4], and its floor is exact. *)
Lemma height_table :
  forallb (fun mw =>
             let height := PrimFloat.div (float_ofZ mw)
                                         (PrimFloat.div (float_ofZ 4) (float_ofZ 3)) in
             let k := (3 * mw + 3) / 4 in
             PrimFloat.ltb (float_ofZ (k - 1)) height
             && negb (PrimFloat.ltb (float_ofZ k) height)
             && PrimFloat.Leibniz.eqb (float_floor height) (float_ofZ (3 * mw / 4))
             && PrimFloat.Leibniz.eqb (float_floor (float_ofZ mw)) (float_ofZ mw))
          (Zrange (-40) 841) = true.
Proof. vm_compute. reflexivity. Qed.

Lemma width_table :
  forallb (fun mh =>
             PrimFloat.Leibniz.eqb
               (float_floor (PrimFloat.mul (float_ofZ mh)
                                           (PrimFloat.div (float_ofZ 4) (float_ofZ 3))))
               (float_ofZ (4 * mh / 3))
             && PrimFloat.Leibniz.eqb (float_floor (float_ofZ mh)) (float_ofZ mh))
          (Zrange (-200) 801) = true.
Proof. vm_compute. reflexivity. Qed.

Lemma fitCanvas_exact (mw mh : Z) :
  -40 <= mw <= 800 -> -200 <= mh <= 600 ->
  fitCanvas (float_ofZ mw) (float_ofZ mh)
  = if 4 * mh <? 3 * mw
    then (float_ofZ (4 * mh / 3), float_ofZ mh)
    else (float_ofZ mw, float_ofZ (3 * mw / 4)).
Proof.
  intros Hmw Hmh.
  pose proof (proj1 (forallb_forall _ _) height_table mw
                (Zrange_In (-40) 841 mw ltac:(lia))) as Hrow.
  pose proof (proj1 (forallb_forall _ _) width_table mh
                (Zrange_In (-200) 801 mh ltac:(lia))) as Hcol.
  cbv zeta in Hrow.
  apply andb_true_iff in Hrow as [Hrow Hfw].
  apply andb_true_iff in Hrow as [Hrow Hfh].
  apply andb_true_iff in Hrow as [Hlow Hhigh].
  apply andb_true_iff in Hcol as [Hfm Hfmh].
  apply negb_true_iff in Hhigh.
  apply FloatAxioms.Leibniz.eqb_spec in Hfw, Hfh, Hfm, Hfmh.
  pose proof (Z.div_mod (3 * mw + 3) 4 ltac:(lia)) as Hk.
  pose proof (Z.mod_pos_bound (3 * mw + 3) 4 ltac:(lia)) as Hkm.
  set (k := (3 * mw + 3) / 4) in *.
  unfold fitCanvas. cbv zeta.
  set (height := PrimFloat.div (float_ofZ mw) (PrimFloat.div (float_ofZ 4) (float_ofZ 3))) in *.
  destruct (Z.ltb_spec (4 * mh) (3 * mw)) as [Hlt | Hge].
  - assert (Hcmp : PrimFloat.ltb (float_ofZ mh) height = true).
    { destruct (Z.eq_dec mh (k - 1)) as [-> | Hne]; [exact Hlow|].
      apply (float_ltb_trans _ (float_ofZ (k - 1))); [|exact Hlow].
      apply float_ofZ_ltb; lia. }
    rewrite Hcmp, Hfm, Hfmh. reflexivity.
  - assert (Hcmp : PrimFloat.ltb (float_ofZ mh) height = false).
    { destruct (PrimFloat.ltb (float_ofZ mh) height) eqn:Hc; [|reflexivity].
      rewrite <- Hhigh. symmetry.
      destruct (Z.eq_dec mh k) as [<- | Hne]; [exact Hc|].
      apply (float_ltb_trans _ (float_ofZ mh)); [|exact Hc].
      apply float_ofZ_ltb; lia. }
    rewrite Hcmp, Hfw, Hfh. reflexivity.
Qed.

(** X16. The responsive canvas size.  For every window up to 4000 by 4000
    the size [Game.tsx] computes in floating point is exactly the integer
    size [canvas_size_exact]: no rounding of 4/3 ever moves a floor.  That
    size is at most 800 by 600, leaves the 40 and 200 pixel margins of the
    window, is 4:3 to within a pixel, and is not negative once the window
    is at least 40 by 200. *)
Theorem Game_canvas_size (innerWidth innerHeight : Z) :
  0 <= innerWidth <= 4000 -> 0 <= innerHeight <= 4000 ->
  let '(w, h) := canvas_size_exact innerWidth innerHeight in
  Game_updateCanvasSize innerWidth innerHeight = (float_ofZ w, float_ofZ h)
  /\ w <= 800 /\ h <= 600
  /\ w <= innerWidth - 40 /\ h <= innerHeight - 200
  /\ -3 <= 3 * w - 4 * h <= 3
  /\ (40 <= innerWidth -> 200 <= innerHeight -> 0 <= w /\ 0 <= h).
Proof.
  intros Hw Hh.
  assert (HW := proj1 (forallb_forall _ _) maxWidth_table innerWidth
                  (Zrange_In 0 4001 innerWidth ltac:(lia))).
  assert (HH := proj1 (forallb_forall _ _) maxHeight_table innerHeight
                  (Zrange_In 0 4001 innerHeight ltac:(lia))).
  apply FloatAxioms.Leibniz.eqb_spec in HW, HH.
  set (mw := Z.min (innerWidth - 40) 800) in *.
  set (mh := Z.min (innerHeight - 200) 600) in *.
  assert (HF : fitCanvas (float_ofZ mw) (float_ofZ mh)
               = if 4 * mh <? 3 * mw
                 then (float_ofZ (4 * mh / 3), float_ofZ mh)
                 else (float_ofZ mw, float_ofZ (3 * mw / 4)))
    by (apply fitCanvas_exact; subst mw mh; lia).
  unfold canvas_size_exact, Game_updateCanvasSize. fold mw mh. rewrite HW, HH, HF.
  destruct (Z.ltb_spec (4 * mh) (3 * mw)).
  - split; [reflexivity|].
    pose proof (Z.div_mod (4 * mh) 3 ltac:(lia)).
    pose proof (Z.mod_pos_bound (4 * mh) 3 ltac:(lia)).
    subst mw mh. repeat split; lia.
  - split; [reflexivity|].
    pose proof (Z.div_mod (3 * mw) 4 ltac:(lia)).
    pose proof (Z.mod_pos_bound (3 * mw) 4 ltac:(lia)).
    subst mw mh. repeat split; lia.
Qed.

(** * The statements at concrete engines *)

(** Evaluation of the engine on explicit reals: simplify, and decide the
    innermost comparison, until nothing is left to do. *)
Ltac real_step :=
  match goal with
  | |- context [Rcase_abs ?x] =>
      lazymatch x with
      | context [Rcase_abs _] => fail
      | context [Rle_dec _ _] => fail
      | context [Rlt_dec _ _] => fail
      | _ => destruct (Rcase_abs x); try lra
      end
  | |- context [Rlt_dec ?a ?b] =>
      lazymatch constr:((a, b)) with
      | context [Rcase_abs _] => fail
      | context [Rle_dec _ _] => fail
      | context [Rlt_dec _ _] => fail
      | _ => destruct (Rlt_dec a b); try lra
      end
  | |- context [Rle_dec ?a ?b] =>
      lazymatch constr:((a, b)) with
      | context [Rcase_abs _] => fail
      | context [Rle_dec _ _] => fail
      | context [Rlt_dec _ _] => fail
      | _ => destruct (Rle_dec a b); try lra
      end
  end.

Ltac real_run :=
  repeat first [ progress simpl
               | progress unfold isColliding, Rltb, Rleb, Rabs, Rmax, Rmin
               | real_step ].

Lemma ball_in_flight_paddle : updatePaddle ball_in_flight = ball_in_flight.
Proof. unfold updatePaddle, ball_in_flight; real_run; reflexivity. Qed.

Lemma ball_in_flight_ball :
  gameState (updateBall ball_in_flight)
  = set_ball ball_in_flight_next (gameState ball_in_flight).
Proof. unfold updateBall, ball_in_flight, ball_in_flight_next; real_run; reflexivity. Qed.

Lemma ball_in_flight_clear :
  isColliding (ball (gameState (updateBall (updatePaddle ball_in_flight))))
              (paddle_rect (paddle (gameState (updateBall (updatePaddle ball_in_flight)))))
  && Rltb 0 (vel_y (ball_velocity
                      (ball (gameState (updateBall (updatePaddle ball_in_flight))))))
  = false.
Proof.
  rewrite ball_in_flight_paddle, ball_in_flight_ball.
  unfold ball_in_flight, ball_in_flight_next; real_run; reflexivity.
Qed.

Lemma ball_in_flight_frame :
  gameState (update 16%R ball_in_flight)
  = set_ball ball_in_flight_next (gameState ball_in_flight).
Proof.
  rewrite update_running by reflexivity.
  rewrite ball_in_flight_paddle.
  pose proof ball_in_flight_ball as E2.
  destruct (updateBall ball_in_flight) as [c2 cfg2 g2 ctl2] eqn:Heq.
  simpl in E2. subst g2.
  unfold checkCollisions_paddle, isColliding, ball_in_flight, ball_in_flight_next; real_run.
  unfold checkCollisions_blocks, isColliding, ball_in_flight, ball_in_flight_next; real_run.
  unfold checkGameOver, checkLevelComplete; real_run. reflexivity.
Qed.

Lemma no_blocks_reachable : reachable no_blocks.
Proof. apply run_reachable. constructor. Qed.

(** X1 on [game_over]. *)
Lemma reachable_counters_witness :
  config game_over = configOf (canvas game_over)
  /\ lives (gameState game_over) <= 3
  /\ 0 <= score (gameState game_over) /\ (10 | score (gameState game_over))
  /\ 1 <= level (gameState game_over)
  /\ (isRunning (gameState game_over) = true -> 1 <= lives (gameState game_over)).
Proof. exact (reachable_counters game_over game_over_reachable). Defined.

(** X2 on [last_block]. *)
Lemma reachable_grid_witness :
  map (set_destroyed false) (blocks (gameState last_block))
  = generateBlocks (config last_block) (level (gameState last_block))
  /\ List.length (blocks (gameState last_block))
     = (Z.to_nat (block_rows (level (gameState last_block)))
        * Z.to_nat (block_cols (config last_block)))%nat
  /\ forall (i : nat) (blk : Block float),
       blocks (gameState last_block) !! i = Some blk ->
       generateBlocks (config last_block) (level (gameState last_block)) !! i
       = Some (set_destroyed false blk).
Proof. exact (reachable_grid last_block last_block_reachable). Defined.

(** X3 on [game_over] and a click. *)
Lemma lives_negative_only_by_start_witness :
  calls_start (Click : Event float) = true
  /\ isRunning (gameState game_over) = false
  /\ lives (gameState game_over) = 0
  /\ lives (gameState (handle Click game_over)) = -1.
Proof.
  assert (Hpos : 0 <= lives (gameState game_over)) by (vm_compute; discriminate).
  assert (Hneg : lives (gameState (handle Click game_over)) < 0)
    by (vm_compute; reflexivity).
  exact (lives_negative_only_by_start Click game_over game_over_reachable Hpos Hneg).
Defined.

(** X4 on [last_block], paused for three frames. *)
Lemma pause_frames_resume_witness :
  run (CallPause :: frames 3 ++ [CallResume]) last_block = last_block.
Proof.
  assert (Hp : isPaused (gameState last_block) = false) by (vm_compute; reflexivity).
  assert (Hf : forallb is_frame (frames 3) = true) by (vm_compute; reflexivity).
  exact (pause_frames_resume (frames 3) last_block Hp Hf).
Defined.

(** X5 on [last_block], which is running. *)
Lemma space_key_toggles_pause_witness :
  keyDownHandler "Space" last_block
  = set_gameState
      (set_isPaused (negb (isPaused (gameState last_block))) (gameState last_block))
      last_block
  /\ keyDownHandler "Space" (keyDownHandler "Space" last_block) = last_block.
Proof.
  assert (Hr : isRunning (gameState last_block) = true) by (vm_compute; reflexivity).
  exact (proj2 (space_key_toggles_pause last_block) Hr).
Defined.

(** X6 on the fresh engine and the key A. *)
Lemma movement_keys_witness :
  leftPressed (controls (keyDownHandler "KeyA" fresh_engine)) = true
  /\ leftPressed (controls (keyUpHandler "ArrowLeft" (keyDownHandler "KeyA" fresh_engine)))
     = false
  /\ leftPressed (controls (keyUpHandler "KeyA" (keyDownHandler "KeyA" fresh_engine)))
     = false
  /\ rightPressed (controls (keyDownHandler "KeyA" fresh_engine))
     = rightPressed (controls fresh_engine).
Proof.
  assert (Hin : In "KeyA"%string ["ArrowLeft"; "KeyA"]%string) by (right; left; reflexivity).
  exact (proj1 (proj2 (proj2 (proj2 (movement_keys "KeyA" fresh_engine)))) Hin).
Defined.

(** X7 on [game_over]. *)
Lemma reset_restores_new_game_witness :
  gameState (reset game_over) = gameState (newGameEngine (canvas game_over))
  /\ (lives (gameState (reset game_over)) = 3
      /\ score (gameState (reset game_over)) = 0
      /\ level (gameState (reset game_over)) = 1
      /\ isRunning (gameState (reset game_over)) = false
      /\ isPaused (gameState (reset game_over)) = false
      /\ blocks (gameState (reset game_over)) = generateBlocks (config game_over) 1)
  /\ controls (reset game_over) = controls game_over
  /\ reset (reset game_over) = reset game_over.
Proof. exact (reset_restores_new_game game_over game_over_reachable). Defined.

(** X8 on [nan_paddle], whose pointer coordinate is NaN: the paddle step
    leaves the paddle's x NaN. *)
Lemma updatePaddle_clamped_witness :
  PrimFloat.is_nan (pos_x (paddle_position (paddle (gameState (updatePaddle nan_paddle)))))
  = true.
Proof.
  assert (Htarget : PrimFloat.is_nan (paddle_target nan_paddle) = true)
    by (vm_compute; reflexivity).
  exact (proj2 (proj1 (proj2 (proj2 (updatePaddle_clamped nan_paddle))))
           (or_introl Htarget)).
Defined.

(** X9 on [ball_on_paddle_float]. *)
Lemma updateBall_walls_witness :
  let e := ball_on_paddle_float in
  let b := ball (gameState e) in
  let r := ball_radius b in
  let right := PrimFloat.sub (float_ofZ (canvasWidth (config e))) r in
  let bottom := PrimFloat.add (float_ofZ (canvasHeight (config e))) r in
  let px := PrimFloat.add (pos_x (ball_position b)) (vel_x (ball_velocity b)) in
  let py := PrimFloat.add (pos_y (ball_position b)) (vel_y (ball_velocity b)) in
  let y1 := if PrimFloat.leb py r then r else py in
  let b' := ball (gameState (updateBall e)) in
  (lives (gameState (updateBall e)) = lives (gameState e)
   <-> PrimFloat.leb bottom y1 = false)
  /\ (lives (gameState (updateBall e)) = lives (gameState e) ->
      PrimFloat.is_nan (pos_x (ball_position b')) = PrimFloat.is_nan px
      /\ (PrimFloat.is_nan px = false ->
          PrimFloat.leb r (pos_x (ball_position b')) = true
          /\ PrimFloat.leb (pos_x (ball_position b')) right = true)
      /\ pos_y (ball_position b') = y1
      /\ (PrimFloat.is_nan py = false -> PrimFloat.leb r y1 = true)
      /\ (vel_x (ball_velocity b') = vel_x (ball_velocity b)
          \/ vel_x (ball_velocity b') = PrimFloat.opp (vel_x (ball_velocity b)))
      /\ (vel_y (ball_velocity b') = vel_y (ball_velocity b)
          \/ vel_y (ball_velocity b') = PrimFloat.opp (vel_y (ball_velocity b)))
      /\ ball_radius b' = r).
Proof.
  assert (Hwide : PrimFloat.leb
                    (ball_radius (ball (gameState ball_on_paddle_float)))
                    (PrimFloat.sub
                       (float_ofZ (canvasWidth (config ball_on_paddle_float)))
                       (ball_radius (ball (gameState ball_on_paddle_float))))
                  = true) by (vm_compute; reflexivity).
  exact (updateBall_walls ball_on_paddle_float Hwide).
Defined.

(** X10 on [ball_in_flight]. *)
Lemma frame_keeps_speed_witness :
  let v := ball_velocity (ball (gameState ball_in_flight)) in
  let v' := ball_velocity (ball (gameState (update 16%R ball_in_flight))) in
  (Rabs (vel_x v') = Rabs (vel_x v)
   /\ Rabs (vel_y v') = Rabs (vel_y v)
   /\ speed v' = speed v)%R.
Proof.
  assert (Hlives : lives (gameState (update 16%R ball_in_flight))
                   = lives (gameState ball_in_flight))
    by (rewrite ball_in_flight_frame; reflexivity).
  assert (Hlevel : level (gameState (update 16%R ball_in_flight))
                   = level (gameState ball_in_flight))
    by (rewrite ball_in_flight_frame; reflexivity).
  exact (frame_keeps_speed 16%R ball_in_flight eq_refl eq_refl ball_in_flight_clear
           Hlives Hlevel).
Defined.

(** X11 on [ball_on_paddle]. *)
Lemma ball_placed_clear_of_paddle_witness :
  let g := gameState ball_on_paddle in
  isColliding (paddleBounce (config ball_on_paddle) (paddle g) (ball g))
              (paddle_rect (paddle g)) = false
  /\ (let g' := gameState (resetBall ball_on_paddle) in
      isColliding (ball g') (paddle_rect (paddle g')) = false
      /\ pos_x (ball_position (ball g'))
         = (pos_x (paddle_position (paddle g)) + paddle_width (paddle g) / 2)%R
      /\ (pos_y (ball_position (ball g')) + ball_radius (ball g) + 5)%R
         = pos_y (paddle_position (paddle g))
      /\ ball_velocity (ball g') = {| vel_x := 3%R; vel_y := (-3)%R |}
      /\ paddle g' = paddle g).
Proof.
  assert (Hr : (0 <= ball_radius (ball (gameState ball_on_paddle)))%R) by (simpl; lra).
  assert (Hh : (0 <= paddle_height (paddle (gameState ball_on_paddle)))%R) by (simpl; lra).
  exact (ball_placed_clear_of_paddle ball_on_paddle Hr Hh).
Defined.

(** X12 on [nan_paddle]: a resize leaves the NaN of the paddle in place,
    and with the radius 8 a second call changes nothing. *)
Lemma updateCanvasSize_clamps_witness :
  PrimFloat.is_nan
    (pos_x (paddle_position (paddle (gameState (updateCanvasSize nan_paddle))))) = true
  /\ updateCanvasSize (updateCanvasSize nan_paddle) = updateCanvasSize nan_paddle.
Proof.
  assert (Hx : PrimFloat.is_nan (pos_x (paddle_position (paddle (gameState nan_paddle))))
               = true) by (vm_compute; reflexivity).
  assert (Hr : PrimFloat.ltb (float_ofZ 0) (ball_radius (ball (gameState nan_paddle)))
               = true) by (vm_compute; reflexivity).
  exact (conj
           (proj2 (proj1 (proj2 (proj2 (proj1 (updateCanvasSize_clamps nan_paddle)))))
                  (or_introl Hx))
           (proj2 (proj2 (updateCanvasSize_clamps nan_paddle)) Hr)).
Defined.

(** X13 on [game_over]. *)
Lemma render_overlays_witness :
  let g := gameState game_over in
  let titles := overlay_titles (render game_over) in
  drawn_blocks (render game_over) = List.filter (fun b => negb (destroyed b)) (blocks g)
  /\ (titles = [] <-> isRunning g = true /\ isPaused g = false)
  /\ (In "Game Over"%string titles <-> lives g <= 0)
  /\ (In "Game Over"%string titles ->
      isRunning g = false /\ ~ In "Ready to Play?"%string titles).
Proof. exact (render_overlays game_over game_over_reachable). Defined.

Lemma started_runtime_ok : callbacks_ok started_runtime.
Proof.
  unfold callbacks_ok.
  assert (Hcb : rt_callbacks started_runtime = [1%nat]) by (vm_compute; reflexivity).
  assert (Hlast : rt_last_handle started_runtime = 1%nat) by (vm_compute; reflexivity).
  rewrite Hcb, Hlast. split.
  - apply NoDup_singleton.
  - apply Forall_singleton. lia.
Defined.

(** X14 on [started_runtime]. *)
Lemma animation_loops_witness :
  let rt := started_runtime in
  let loops (r : Runtime float) := List.length (rt_callbacks r) in
  (rt_engine (display_frame (ofZ 16) rt)
   = Nat.iter (loops rt) (update (ofZ 16)) (rt_engine rt)
   /\ loops (display_frame (ofZ 16) rt) = loops rt
   /\ callbacks_ok (display_frame (ofZ 16) rt))
  /\ (loops (start_rt rt)
      = (loops rt + (if isRunning (gameState (rt_engine rt)) then 0 else 1))%nat
      /\ rt_engine (start_rt rt) = start (rt_engine rt)
      /\ callbacks_ok (start_rt rt))
  /\ ((loops rt - 1 <= loops (reset_rt rt) <= loops rt)%nat
      /\ rt_engine (reset_rt rt) = reset (rt_engine rt)
      /\ callbacks_ok (reset_rt rt))
  /\ (isRunning (gameState (rt_engine rt)) = false ->
      (1 <= loops rt)%nat ->
      loops (start_rt (reset_rt (start_rt rt))) = (loops rt + 1)%nat).
Proof. exact (animation_loops (ofZ 16) started_runtime started_runtime_ok). Defined.

(** The same after a game over: a click, Reset and Start leave two loops,
    and the next frame of the display advances the new game twice. *)
Example double_speed_after_restart :
  let rt0 := mkRuntime game_over (Some 1874%nat) [] [] [1874%nat] 1874 in
  let rt := start_rt (reset_rt (start_rt rt0)) in
  rt_callbacks rt = [1874%nat; 1876%nat]
  /\ rt_engine (display_frame (ofZ 16) rt)
     = update (ofZ 16) (update (ofZ 16) (rt_engine rt)).
Proof. intros rt0 rt. subst rt0 rt. by_evaluation. Qed.

Lemma other_listener_foreign :
  forall l : Listener, l ∈ [other_listener] -> fst (listener_handler l) <> 1%nat.
Proof. intros l Hl. apply list_elem_of_singleton in Hl. subst l. discriminate. Defined.

(** X15 on the engine number 1 beside [other_listener]. *)
Lemma destroy_releases_listeners_witness :
  let rt : Runtime float := construct 1 (mkCanvas 800 600) [other_listener] [] 0 in
  rt_eventListeners rt = engine_listeners 1
  /\ rt_registered rt = [other_listener] ++ engine_listeners 1
  /\ rt_registered (destroy rt) = [other_listener]
  /\ rt_eventListeners (destroy rt) = []
  /\ rt_engine (destroy rt) = rt_engine rt
  /\ forall rt0 : Runtime float, destroy (destroy rt0) = destroy rt0.
Proof.
  exact (destroy_releases_listeners 1 (mkCanvas 800 600) [other_listener] [] 0
           other_listener_foreign).
Defined.

(** X16 on a 1280 by 720 window: the canvas is 693 by 520. *)
Lemma Game_canvas_size_witness :
  let '(w, h) := canvas_size_exact 1280 720 in
  Game_updateCanvasSize 1280 720 = (float_ofZ w, float_ofZ h)
  /\ w <= 800 /\ h <= 600
  /\ w <= 1280 - 40 /\ h <= 720 - 200
  /\ -3 <= 3 * w - 4 * h <= 3
  /\ (40 <= 1280 -> 200 <= 720 -> 0 <= w /\ 0 <= h).
Proof.
  exact (Game_canvas_size 1280 720 ltac:(lia) ltac:(lia)).
Defined.

(** X17 on [no_blocks]. *)
Lemma narrow_canvas_levels_every_frame_witness :
  blocks (gameState no_blocks) = []
  /\ level (gameState (update (ofZ 16) no_blocks)) = level (gameState no_blocks) + 1
  /\ score (gameState (update (ofZ 16) no_blocks)) = score (gameState no_blocks)
  /\ blocks (gameState (update (ofZ 16) no_blocks)) = [].
Proof.
  assert (Hnarrow : canvasWidth (config no_blocks) < 155) by (vm_compute; reflexivity).
  assert (Hr : isRunning (gameState no_blocks) = true) by (vm_compute; reflexivity).
  assert (Hp : isPaused (gameState no_blocks) = false) by (vm_compute; reflexivity).
  exact (narrow_canvas_levels_every_frame (ofZ 16) no_blocks no_blocks_reachable
           Hnarrow Hr Hp).
Defined.
